(** * VCPToolBox: the plugin manager (Plugin.js) and the file fetcher
      (FileFetcherServer.js), embedded in Rocq.

    A JavaScript string is held as the bytes of its UTF-8 form, as a [string]
    (a surrogate that has no partner as three bytes of its own); where the
    sources count UTF-16 code units or look for white space, the characters
    are read from these bytes.  A number is the double that the engine holds.
    [Map]s with string keys are [gmap string _]; a [Set] whose iteration
    order is observed is a duplicate-free list in insertion order.  Child
    processes, the file system and the WebSocket server are inputs of the
    model: a handler is a function of the state and of the event it
    receives. *)

From Stdlib Require Import Ascii String NArith ZArith Bool Lia.
From stdpp Require Import gmap strings list fin_maps sorting pretty.

Local Open Scope string_scope.

(** ** JavaScript string primitives used by the sources *)
Module Js.

(** White space of [String.prototype.trim], of [parseInt] and of the regular
    expression class [\s]: U+0009 to U+000D, U+0020, U+00A0, U+1680, U+2000
    to U+200A, U+2028, U+2029, U+202F, U+205F, U+3000 and U+FEFF, each
    recognised by the bytes of its UTF-8 form. *)

(** U+0009 to U+000D and U+0020: one byte. *)
Definition is_space (c : ascii) : bool :=
  let n := nat_of_ascii c in
  ((9 <=? n)%nat && (n <=? 13)%nat) || (n =? 32)%nat.

(** U+00A0: the bytes C2 A0. *)
Definition is_space2 (c1 c2 : ascii) : bool :=
  (nat_of_ascii c1 =? 194)%nat && (nat_of_ascii c2 =? 160)%nat.

(** U+1680 (E1 9A 80); U+2000 to U+200A (E2 80 80 to E2 80 8A); U+2028,
    U+2029 and U+202F (E2 80 A8, E2 80 A9, E2 80 AF); U+205F (E2 81 9F);
    U+3000 (E3 80 80); U+FEFF (EF BB BF). *)
Definition is_space3 (c1 c2 c3 : ascii) : bool :=
  let '(n1, n2, n3) := (nat_of_ascii c1, nat_of_ascii c2, nat_of_ascii c3) in
  ((n1 =? 225) && (n2 =? 154) && (n3 =? 128))%nat
  || ((n1 =? 226) && (n2 =? 128)
      && (((128 <=? n3) && (n3 <=? 138)) || (n3 =? 168) || (n3 =? 169)
          || (n3 =? 175)))%nat
  || ((n1 =? 226) && (n2 =? 129) && (n3 =? 159))%nat
  || ((n1 =? 227) && (n2 =? 128) && (n3 =? 128))%nat
  || ((n1 =? 239) && (n2 =? 187) && (n3 =? 191))%nat.

(** The text starts with a white-space character. *)
Definition startsWithSpace (s : string) : bool :=
  match s with
  | String c1 s1 =>
      is_space c1
      || match s1 with
         | String c2 s2 =>
             is_space2 c1 c2
             || match s2 with
                | String c3 _ => is_space3 c1 c2 c3
                | EmptyString => false
                end
         | EmptyString => false
         end
  | EmptyString => false
  end.

Fixpoint trimStart (s : string) : string :=
  match s with
  | String c1 s1 =>
      if is_space c1 then trimStart s1
      else
        match s1 with
        | String c2 s2 =>
            if is_space2 c1 c2 then trimStart s2
            else
              match s2 with
              | String c3 s3 => if is_space3 c1 c2 c3 then trimStart s3 else s
              | EmptyString => s
              end
        | EmptyString => s
        end
  | EmptyString => EmptyString
  end.

(** Truthiness of a string value: every string but the empty one. *)
Definition truthy (s : string) : bool :=
  match s with EmptyString => false | _ => true end.

(** The text holds white space only. *)
Definition blank (s : string) : bool := negb (truthy (trimStart s)).

(** [trimEnd] cuts the text where what is left holds white space only. *)
Fixpoint trimEnd (s : string) : string :=
  match s with
  | EmptyString => EmptyString
  | String c s' => if blank s then EmptyString else String c (trimEnd s')
  end.

Definition trim (s : string) : string := trimEnd (trimStart s).

(** [toLowerCase], on the letters A to Z.  The sources only compare its
    result with the words "true" and "pass", which the lower case of no other
    character can produce. *)
Definition lower (c : ascii) : ascii :=
  let n := nat_of_ascii c in
  if (65 <=? n)%nat && (n <=? 90)%nat then ascii_of_nat (n + 32) else c.

Fixpoint toLowerCase (s : string) : string :=
  match s with
  | EmptyString => EmptyString
  | String c s' => String (lower c) (toLowerCase s')
  end.

(** [s.startsWith(p)] *)
Definition startsWith (p s : string) : bool := String.prefix p s.

(** The UTF-16 code units of a text: one for a character of one, two or
    three bytes, two (a surrogate pair) for a character of four. *)
Fixpoint units (s : string) : list N :=
  match s with
  | EmptyString => []
  | String c1 s1 =>
      let b1 := N_of_ascii c1 in
      if (b1 <? 192)%N then b1 :: units s1
      else if (b1 <? 224)%N then
        match s1 with
        | String c2 s2 =>
            ((b1 - 192) * 64 + (N_of_ascii c2 - 128))%N :: units s2
        | EmptyString => [b1]
        end
      else if (b1 <? 240)%N then
        match s1 with
        | String c2 (String c3 s3) =>
            ((b1 - 224) * 4096 + (N_of_ascii c2 - 128) * 64
             + (N_of_ascii c3 - 128))%N :: units s3
        | _ => b1 :: units s1
        end
      else
        match s1 with
        | String c2 (String c3 (String c4 s4)) =>
            let codePoint :=
              ((b1 - 240) * 262144 + (N_of_ascii c2 - 128) * 4096
               + (N_of_ascii c3 - 128) * 64 + (N_of_ascii c4 - 128))%N in
            (55296 + (codePoint - 65536) / 1024)%N
              :: (56320 + (codePoint - 65536) mod 1024)%N :: units s4
        | _ => b1 :: units s1
        end
  end.

(** The order of [Array.prototype.sort] without a comparison function: a
    text comes before another when its code units do, the first difference
    deciding, and a text before its extensions. *)
Fixpoint unitsLeb (a b : list N) : bool :=
  match a, b with
  | [], _ => true
  | _ :: _, [] => false
  | x :: a', y :: b' => (x <? y)%N || ((x =? y)%N && unitsLeb a' b')
  end.

Definition le (s t : string) : Prop := unitsLeb (units s) (units t).

#[global] Instance le_dec : RelDecision le := λ s t, Is_true_dec _.

Definition continuation (n : N) : ascii := ascii_of_N (128 + n mod 64).

Definition threeBytes (u : N) (rest : string) : string :=
  String (ascii_of_N (224 + u / 4096))
    (String (continuation (u / 64)) (String (continuation u) rest)).

Definition isHighSurrogate (u : N) : bool := (55296 <=? u)%N && (u <? 56320)%N.
Definition isLowSurrogate (u : N) : bool := (56320 <=? u)%N && (u <? 57344)%N.

(** The text of a sequence of code units: a high surrogate and the low one
    that follows it are one character of four bytes. *)
Fixpoint ofUnits (l : list N) : string :=
  match l with
  | [] => EmptyString
  | u :: rest =>
      if (u <? 128)%N then String (ascii_of_N u) (ofUnits rest)
      else if (u <? 2048)%N then
        String (ascii_of_N (192 + u / 64)) (String (continuation u) (ofUnits rest))
      else if isHighSurrogate u then
        match rest with
        | v :: rest' =>
            if isLowSurrogate v then
              let codePoint := (65536 + (u - 55296) * 1024 + (v - 56320))%N in
              String (ascii_of_N (240 + codePoint / 262144))
                (String (continuation (codePoint / 4096))
                   (String (continuation (codePoint / 64))
                      (String (continuation codePoint) (ofUnits rest'))))
            else threeBytes u (ofUnits rest)
        | [] => threeBytes u EmptyString
        end
      else threeBytes u (ofUnits rest)
  end.

(** [s.substring(0, n)] *)
Definition substring0 (n : nat) (s : string) : string := ofUnits (take n (units s)).

Fixpoint drop (n : nat) (s : string) : string :=
  match n, s with
  | S n', String _ s' => drop n' s'
  | _, _ => s
  end.

(** [s.replace(pat, "")] with a string pattern: the first occurrence only. *)
Fixpoint removeFirst (pat s : string) : string :=
  if String.prefix pat s then drop (String.length pat) s
  else match s with
       | EmptyString => EmptyString
       | String c s' => String c (removeFirst pat s')
       end.

Definition digit (c : ascii) : option Z :=
  let n := nat_of_ascii c in
  if (48 <=? n)%nat && (n <=? 57)%nat then Some (Z.of_nat (n - 48)) else None.

Fixpoint digits (acc : Z) (s : string) : Z :=
  match s with
  | String c s' =>
      match digit c with
      | Some d => digits (10 * acc + d) s'
      | None => acc
      end
  | EmptyString => acc
  end.

(** A Number other than [NaN]: a zero, an infinity, or the double
    [significand * 2 ^ exponent], with 0 < significand < 2^53 and
    -1074 <= exponent <= 971. *)
Inductive number :=
| Zero (negative : bool)
| Double (negative : bool) (significand exponent : Z)
| Infinity (negative : bool).

(** The number of decimal digits of [m], 0 <= m. *)
Definition digitCount (m : Z) : Z := Z.of_nat (String.length (pretty m)).

(** The integer part of the binary logarithm of [num / den], for 0 < num and
    0 < den. *)
Definition log2Floor (num den : Z) : Z :=
  let l := (Z.log2 num - Z.log2 den)%Z in
  let reached :=
    if (0 <=? l)%Z then (den * 2 ^ l <=? num)%Z else (den <=? num * 2 ^ (- l))%Z in
  if reached then l else (l - 1)%Z.

(** The integer nearest to [n / d], the even one of two. *)
Definition roundHalfEven (n d : Z) : Z :=
  let q := (n / d)%Z in
  let r := (n mod d)%Z in
  if (d <? 2 * r)%Z || ((2 * r =? d)%Z && Z.odd q) then (q + 1)%Z else q.

(** The double nearest to [num / den], for 0 < num and 0 < den: 53 bits of
    significand, fewer below 2^-1022, ties to the even significand. *)
Definition nearest (negative : bool) (num den : Z) : number :=
  let e := Z.max (log2Floor num den - 52) (-1074) in
  let q :=
    if (0 <=? e)%Z then roundHalfEven num (den * 2 ^ e)
    else roundHalfEven (num * 2 ^ (- e)) den in
  if (q =? 0)%Z then Zero negative
  else if (1024 <=? Z.log2 q + e)%Z then Infinity negative
  else if (q =? 2 ^ 53)%Z then Double negative (2 ^ 52) (e + 1)
  else Double negative q e.

(** The Number for the decimal [m * 10 ^ e], 0 <= m.  A decimal of more than
    310 digits before the point is beyond every double, and one that starts
    more than 330 places after the point rounds to zero. *)
Definition ofDecimal (negative : bool) (m e : Z) : number :=
  if (m =? 0)%Z then Zero negative
  else if (310 <? digitCount m + e)%Z then Infinity negative
  else if (digitCount m + e <? -330)%Z then Zero negative
  else if (0 <=? e)%Z then nearest negative (m * 10 ^ e) 1
  else nearest negative m (10 ^ (- e)).

Fixpoint zeros (n : nat) : string :=
  match n with
  | O => EmptyString
  | S n' => String "0" (zeros n')
  end.

Section shortest.
(** The double [q * 2 ^ e], 0 < q.  Lengths are counted in quarters of
    [2 ^ e], so that the middle between the double and each of its neighbours
    is a whole number of them: the decimals that read back as the double lie
    from [low] to [high] quarters. *)
Variables q e : Z.

Definition low : Z :=
  if (q =? 2 ^ 52)%Z && (-1074 <? e)%Z then (4 * q - 1)%Z else (4 * q - 2)%Z.
Definition high : Z := (4 * q + 2)%Z.
(** The two ends read back as the double when its significand is even. *)
Definition inclusive : bool := Z.even q.

(** [n] quarters over [10 ^ p], as a fraction. *)
Definition over (n p : Z) : Z * Z :=
  ((n * 2 ^ Z.max (e - 2) 0 * 10 ^ Z.max (- p) 0)%Z,
   (2 ^ Z.max (2 - e) 0 * 10 ^ Z.max p 0)%Z).

(** The multiples [c * 10 ^ p] that read back as the double: from [first] to
    [last]. *)
Definition first (p : Z) : Z :=
  let '(n, d) := over low p in
  if inclusive then ((n + d - 1) / d)%Z else (n / d + 1)%Z.
Definition last (p : Z) : Z :=
  let '(n, d) := over high p in
  if inclusive then (n / d)%Z else ((n - 1) / d)%Z.

(** Of these multiples, the nearest to the double, the even one of two. *)
Definition closest (p : Z) : Z :=
  let '(n, d) := over (4 * q) p in
  let down := (n / d)%Z in
  let up := (down + 1)%Z in
  if (down <? first p)%Z then up
  else if (last p <? up)%Z then down
  else
    let toDown := (n - down * d)%Z in
    let toUp := (up * d - n)%Z in
    if (toDown <? toUp)%Z then down
    else if (toUp <? toDown)%Z then up
    else if Z.even down then down else up.

(** The greatest power of ten that has such a multiple, from [10 ^ p]
    downwards, and the multiple. *)
Fixpoint shortest (fuel : nat) (p : Z) : Z * Z :=
  match fuel with
  | O => (closest p, p)
  | S fuel' =>
      if (first p <=? last p)%Z then (closest p, p) else shortest fuel' (p - 1)
  end.

(** The digits [s] and the exponent [n] of [Number::toString]: the double
    reads [0.s * 10 ^ n], and [s] has as few digits as possible.  The search
    starts at a power of ten above the double: [high] is below
    [2 ^ (Z.log2 high + e - 1)], and 30103 / 100000 is more than the decimal
    logarithm of 2. *)
Definition decimal : string * Z :=
  let top := ((Z.log2 high + e - 1) * 30103 / 100000 + 2)%Z in
  let '(c, p) := shortest (Z.to_nat (top - Z.min (e - 2) 0)) top in
  (pretty c, digitCount c + p)%Z.

End shortest.

(** [String(x)] for the double [q * 2 ^ e], 0 < q. *)
Definition doubleText (q e : Z) : string :=
  let '(s, n) := decimal q e in
  let k := Z.of_nat (String.length s) in
  let exponent (x : Z) :=
    (if (0 <=? x)%Z then "e+" ++ pretty x else "e-" ++ pretty (- x)%Z) in
  if (k <=? n)%Z && (n <=? 21)%Z then s ++ zeros (Z.to_nat (n - k))
  else if (0 <? n)%Z && (n <=? 21)%Z then
    String.substring 0 (Z.to_nat n) s ++ "."
      ++ String.substring (Z.to_nat n) (Z.to_nat (k - n)) s
  else if (-6 <? n)%Z && (n <=? 0)%Z then "0." ++ zeros (Z.to_nat (- n)) ++ s
  else
    match s with
    | String d EmptyString => String d (exponent (n - 1)%Z)
    | String d more => String d ("." ++ more ++ exponent (n - 1)%Z)
    | EmptyString => EmptyString
    end.

(** [String(x)] *)
Definition numberText (x : number) : string :=
  match x with
  | Zero _ => "0"
  | Double negative q e =>
      (if negative then "-" else EmptyString) ++ doubleText q e
  | Infinity false => "Infinity"
  | Infinity true => "-Infinity"
  end.

(** [parseInt(s, 10)]: leading white space, an optional sign, then the
    longest run of decimal digits; [None] stands for [NaN]. *)
Definition parseInt (s : string) : option number :=
  let body negative t :=
    match t with
    | String c _ =>
        match digit c with
        | Some _ => Some (ofDecimal negative (digits 0 t) 0)
        | None => None
        end
    | EmptyString => None
    end in
  match trimStart s with
  | String "-" t => body true t
  | String "+" t => body false t
  | t => body false t
  end.

(** The longest run of decimal digits at the head of a text, and what
    follows it. *)
Fixpoint spanDigits (s : string) : string * string :=
  match s with
  | String c s' =>
      match digit c with
      | Some _ => let '(d, r) := spanDigits s' in (String c d, r)
      | None => (EmptyString, s)
      end
  | EmptyString => (EmptyString, EmptyString)
  end.

(** The Number that a JSON number token denotes: an optional minus sign,
    digits, an optional fraction and an optional exponent. *)
Definition ofToken (token : string) : number :=
  let '(negative, s1) :=
    match token with
    | String "-"%char t => (true, t)
    | _ => (false, token)
    end in
  let '(whole, s2) := spanDigits s1 in
  let '(fraction, s3) :=
    match s2 with
    | String "."%char t => spanDigits t
    | _ => (EmptyString, s2)
    end in
  let exponent :=
    match s3 with
    | String _ (String "-"%char t) => (- digits 0 t)%Z
    | String _ (String "+"%char t) => digits 0 t
    | String _ t => digits 0 t
    | EmptyString => 0%Z
    end in
  ofDecimal negative (digits 0 (whole ++ fraction))
    (exponent - Z.of_nat (String.length fraction)).

(** [s.includes(t)] *)
Fixpoint includes (t s : string) : bool :=
  String.prefix t s ||
  match s with
  | EmptyString => false
  | String _ s' => includes t s'
  end.

(** Text of the sources that holds double quotes is written here with an
    apostrophe in the place of each double quote. *)
Fixpoint lit (s : string) : string :=
  match s with
  | EmptyString => EmptyString
  | String c s' => String (if Ascii.eqb c "'" then "034"%char else c) (lit s')
  end.

End Js.

(** ** JSON values, [JSON.parse] and the part of [JSON.stringify] in use *)
Module Json.

#[local] Unset Elimination Schemes.
Inductive json : Type :=
| JNull
| JBool (b : bool)
| JNum (text : string)   (* a number, as [String] prints it *)
| JStr (s : string)
| JArr (items : list json)
| JObj (fields : list (string * json)).
#[local] Set Elimination Schemes.

Definition is_ws (c : ascii) : bool :=
  match c with
  | " " | "009" | "010" | "013" => true
  | _ => false
  end%char.

Fixpoint skip_ws (s : string) : string :=
  match s with
  | String c s' => if is_ws c then skip_ws s' else s
  | EmptyString => EmptyString
  end.

Definition hex (c : ascii) : option nat :=
  let n := nat_of_ascii c in
  if (48 <=? n)%nat && (n <=? 57)%nat then Some (n - 48)%nat
  else if (65 <=? n)%nat && (n <=? 70)%nat then Some (n - 55)%nat
  else if (97 <=? n)%nat && (n <=? 102)%nat then Some (n - 87)%nat
  else None.

(** The code unit written [\uXXXX] with the four characters given. *)
Definition codeUnit (h1 h2 h3 h4 : ascii) : option N :=
  match hex h1, hex h2, hex h3, hex h4 with
  | Some a, Some b, Some c, Some d =>
      Some (N.of_nat (((a * 16 + b) * 16 + c) * 16 + d))
  | _, _, _, _ => None
  end.

(** The characters of a string literal after its opening quote, up to and
    including the closing quote. *)
Fixpoint parse_chars (s : string) : option (string * string) :=
  match s with
  | EmptyString => None
  | String "034" rest => Some (EmptyString, rest)
  | String "\" (String e rest) =>
      let simple (c : ascii) (k : string) :=
        match parse_chars k with
        | Some (t, r) => Some (String c t, r)
        | None => None
        end in
      match e with
      | "034" => simple "034"%char rest
      | "\" => simple "\"%char rest
      | "/" => simple "/"%char rest
      | "b" => simple "008"%char rest
      | "f" => simple "012"%char rest
      | "n" => simple "010"%char rest
      | "r" => simple "013"%char rest
      | "t" => simple "009"%char rest
      | "u" =>
          match rest with
          | String h1 (String h2 (String h3 (String h4 rest'))) =>
              match codeUnit h1 h2 h3 h4 with
              | Some unit =>
                  let alone :=
                    match parse_chars rest' with
                    | Some (t, r) => Some (Js.ofUnits [unit] ++ t, r)
                    | None => None
                    end in
                  if Js.isHighSurrogate unit then
                    (* a low surrogate written next makes one character
                       with it *)
                    match rest' with
                    | String "\" (String "u" (String l1 (String l2 (String l3
                        (String l4 rest''))))) =>
                        match codeUnit l1 l2 l3 l4 with
                        | Some partner =>
                            if Js.isLowSurrogate partner then
                              match parse_chars rest'' with
                              | Some (t, r) =>
                                  Some (Js.ofUnits [unit; partner] ++ t, r)
                              | None => None
                              end
                            else alone
                        | None => alone
                        end
                    | _ => alone
                    end
                  else alone
              | None => None
              end
          | _ => None
          end
      | _ => None
      end%char
  | String "\" EmptyString => None
  | String c rest =>
      if (nat_of_ascii c <? 32)%nat then None
      else match parse_chars rest with
           | Some (t, r) => Some (String c t, r)
           | None => None
           end
  end%char.

Definition is_digit (c : ascii) : bool :=
  let n := nat_of_ascii c in (48 <=? n)%nat && (n <=? 57)%nat.

Fixpoint span_digits (s : string) : string * string :=
  match s with
  | String c s' =>
      if is_digit c then let '(d, r) := span_digits s' in (String c d, r)
      else (EmptyString, s)
  | EmptyString => (EmptyString, EmptyString)
  end.

(** A number token: an optional minus sign, then a single zero or a run of
    digits that does not start with zero, then an optional fraction (a dot
    and digits) and an optional exponent (e or E, a sign, digits). *)
Definition parse_number (s : string) : option (string * string) :=
  let '(sign, s1) :=
    match s with
    | String "-"%char t => ("-", t)
    | _ => (EmptyString, s)
    end in
  let int_part :=
    match s1 with
    | String "0"%char t => Some ("0", t)
    | _ => match span_digits s1 with
           | (EmptyString, _) => None
           | (d, r) => Some (d, r)
           end
    end in
  match int_part with
  | None => None
  | Some (i, s2) =>
      let frac :=
        match s2 with
        | String "."%char t =>
            match span_digits t with
            | (EmptyString, _) => None
            | (d, r) => Some (String "."%char d, r)
            end
        | _ => Some (EmptyString, s2)
        end in
      match frac with
      | None => None
      | Some (f, s3) =>
          let exponent (e : string) (t : string) :=
            let '(sg, t1) :=
              match t with
              | String "+"%char u => ("+", u)
              | String "-"%char u => ("-", u)
              | _ => (EmptyString, t)
              end in
            match span_digits t1 with
            | (EmptyString, _) => None
            | (d, r) => Some (e ++ sg ++ d, r)
            end in
          let ex :=
            match s3 with
            | String "e"%char t => exponent "e" t
            | String "E"%char t => exponent "E" t
            | _ => Some (EmptyString, s3)
            end in
          match ex with
          | None => None
          | Some (x, s4) => Some (sign ++ i ++ f ++ x, s4)
          end
      end
  end.

(** Properties of an object, in creation order; a key occurs once. *)
Fixpoint obj_get (k : string) (fields : list (string * json)) : option json :=
  match fields with
  | [] => None
  | (k', v) :: rest => if String.eqb k k' then Some v else obj_get k rest
  end.

(** [o[k] = v]: an existing property keeps its place. *)
Fixpoint obj_set (k : string) (v : json) (fields : list (string * json))
  : list (string * json) :=
  match fields with
  | [] => [(k, v)]
  | (k', v') :: rest =>
      if String.eqb k k' then (k, v) :: rest else (k', v') :: obj_set k v rest
  end.

(** [delete o[k]] *)
Fixpoint obj_delete (k : string) (fields : list (string * json))
  : list (string * json) :=
  match fields with
  | [] => []
  | (k', v') :: rest =>
      if String.eqb k k' then obj_delete k rest else (k', v') :: obj_delete k rest
  end.

(** [v.k] for a parsed value [v]: [None] is [undefined], which is also what a
    value that is no object gives. *)
Definition field (k : string) (v : json) : option json :=
  match v with
  | JObj fields => obj_get k fields
  | _ => None
  end.

(** [v === text] for a value read from a parsed object. *)
Definition is_text (text : string) (v : option json) : bool :=
  match v with
  | Some (JStr t) => String.eqb t text
  | _ => false
  end.

Definition literal (lit : string) (v : json) (s : string) : option (json * string) :=
  if String.prefix lit s then Some (v, Js.drop (String.length lit) s) else None.

(** Recursive descent; every call is made on a strictly shorter input, so
    fuel above the length of the text never runs out. *)
Fixpoint parse_value (fuel : nat) (s : string) : option (json * string) :=
  match fuel with
  | O => None
  | S fuel' =>
      match skip_ws s with
      | String "{" rest =>
          match skip_ws rest with
          | String "}" rest' => Some (JObj [], rest')
          | _ => parse_members fuel' rest []
          end
      | String "[" rest =>
          match skip_ws rest with
          | String "]" rest' => Some (JArr [], rest')
          | _ => parse_elements fuel' rest []
          end
      | String "034" rest =>
          match parse_chars rest with
          | Some (t, r) => Some (JStr t, r)
          | None => None
          end
      | String "t" _ as t => literal "true"%string (JBool true) t
      | String "f" _ as t => literal "false"%string (JBool false) t
      | String "n" _ as t => literal "null"%string JNull t
      | t =>
          match parse_number t with
          | Some (n, r) => Some (JNum (Js.numberText (Js.ofToken n)), r)
          | None => None
          end
      end%char
  end
with parse_members (fuel : nat) (s : string) (acc : list (string * json))
  : option (json * string) :=
  match fuel with
  | O => None
  | S fuel' =>
      match skip_ws s with
      | String "034" rest =>
          match parse_chars rest with
          | Some (k, r1) =>
              match skip_ws r1 with
              | String ":" r2 =>
                  match parse_value fuel' r2 with
                  | Some (v, r3) =>
                      match skip_ws r3 with
                      | String "," r4 => parse_members fuel' r4 (obj_set k v acc)
                      | String "}" r4 => Some (JObj (obj_set k v acc), r4)
                      | _ => None
                      end
                  | None => None
                  end
              | _ => None
              end
          | None => None
          end
      | _ => None
      end%char
  end
with parse_elements (fuel : nat) (s : string) (acc : list json)
  : option (json * string) :=
  match fuel with
  | O => None
  | S fuel' =>
      match parse_value fuel' s with
      | Some (v, r) =>
          match skip_ws r with
          | String "," r' => parse_elements fuel' r' (acc ++ [v])
          | String "]" r' => Some (JArr (acc ++ [v]), r')
          | _ => None
          end%char
      | None => None
      end
  end.

(** [JSON.parse(text)]; [None] stands for the [SyntaxError] it throws. *)
Definition parse (text : string) : option json :=
  match parse_value (S (S (String.length text))) text with
  | Some (v, rest) =>
      match skip_ws rest with
      | EmptyString => Some v
      | _ => None
      end
  | None => None
  end.

(** Truthiness of a parsed value. *)
Definition truthy (v : json) : bool :=
  match v with
  | JNull => false
  | JBool b => b
  | JNum n => negb (String.eqb n "0")
  | JStr s => Js.truthy s
  | JArr _ | JObj _ => true
  end.

Definition truthy_opt (v : option json) : bool :=
  match v with
  | Some v => truthy v
  | None => false
  end.

Definition hexdigit (n : nat) : ascii :=
  ascii_of_nat (if (n <? 10)%nat then 48 + n else 87 + n).

(** The quoted form of a string in [JSON.stringify].  (A surrogate without
    its partner, which the engine writes as an escape, is left as it is.) *)
Fixpoint escape (s : string) : string :=
  match s with
  | EmptyString => EmptyString
  | String c s' =>
      let n := nat_of_ascii c in
      (if Ascii.eqb c "034" then String "\" (String "034" EmptyString)
       else if Ascii.eqb c "\" then String "\" (String "\" EmptyString)
       else if Ascii.eqb c "008" then "\b"
       else if Ascii.eqb c "009" then "\t"
       else if Ascii.eqb c "010" then "\n"
       else if Ascii.eqb c "012" then "\f"
       else if Ascii.eqb c "013" then "\r"
       else if (n <? 32)%nat then
         "\u00" ++ String (hexdigit (n / 16)) (String (hexdigit (n mod 16)) EmptyString)
       else String c EmptyString) ++ escape s'
  end.

Definition quote (s : string) : string :=
  String "034" (escape s ++ String "034" EmptyString).

Fixpoint join (sep : string) (l : list string) : string :=
  match l with
  | [] => EmptyString
  | [x] => x
  | x :: rest => x ++ sep ++ join sep rest
  end.

(** [JSON.stringify(v)]; an infinite number is written [null]. *)
Fixpoint stringify (v : json) : string :=
  match v with
  | JNull => "null"
  | JBool true => "true"
  | JBool false => "false"
  | JNum n => if String.eqb n "Infinity" || String.eqb n "-Infinity" then "null" else n
  | JStr s => quote s
  | JArr items => "[" ++ join "," (map stringify items) ++ "]"
  | JObj fields =>
      "{" ++ join "," (map (λ kv, quote (fst kv) ++ ":" ++ stringify (snd kv)) fields)
          ++ "}"
  end.

(** [JSON.stringify(names, null, 2)] for an array of strings. *)
Definition stringify_names (names : list string) : string :=
  match names with
  | [] => "[]"
  | _ =>
      "[" ++ String "010" "  "
          ++ join ("," ++ String "010" "  ") (map quote names)
          ++ String "010" "]"
  end.

End Json.

Import Json.

(** ** Manifests and the state of the plugin manager *)

Record entry_point := {
  command : string;  (* [""]: no command *)
  script : string    (* [""]: no script *)
}.

Record communication_info := {
  protocol : string;
  timeout : option Z
}.

(** A plugin manifest, as [JSON.parse] delivers it and as the manager
    decorates it.  A field the code only tests for truth is given its falsy
    value when the manifest lacks it: [""] for [name] and [pluginType], [None]
    for [entryPoint], [false] for [isDistributed].  An absent [configSchema] is
    the empty map (the loop over it runs no iteration either way), and
    [systemPromptPlaceholders] lists the [placeholder] key of each declared
    placeholder. *)
Record manifest := {
  name : string;
  displayName : option string;
  pluginType : string;
  entryPoint : option entry_point;
  communication : option communication_info;
  systemPromptPlaceholders : list string;
  configSchema : gmap string string;
  pluginSpecificEnvConfig : gmap string string;
  basePath : option string;
  isDistributed : bool;
  serverId : option string
}.

(** What [require] delivers for a plugin script, as far as the manager looks
    at it. *)
Record plugin_module := {
  module_path : string;
  has_initialize : bool;
  initialize_throws : bool;
  has_processMessages : bool;
  has_processToolCall : bool
}.

(** The fields of [PluginManager] that the operations below read or write
    ([scheduledJobs], [individualPluginDescriptions] and the debug flag only
    feed logging and prompt text). *)
Record PluginManager := {
  plugins : gmap string manifest;
  staticPlaceholderValues : gmap string string;
  messagePreprocessors : gmap string plugin_module;
  preprocessorOrder : list string;
  serviceModules : gmap string (manifest * plugin_module)
}.

(** [new PluginManager()] *)
Definition constructor : PluginManager :=
  {| plugins := ∅; staticPlaceholderValues := ∅; messagePreprocessors := ∅;
     preprocessorOrder := []; serviceModules := ∅ |}.

Definition set_plugins (f : gmap string manifest → gmap string manifest)
    (pm : PluginManager) : PluginManager :=
  {| plugins := f (plugins pm);
     staticPlaceholderValues := staticPlaceholderValues pm;
     messagePreprocessors := messagePreprocessors pm;
     preprocessorOrder := preprocessorOrder pm;
     serviceModules := serviceModules pm |}.

Definition set_staticPlaceholderValues
    (f : gmap string string → gmap string string)
    (pm : PluginManager) : PluginManager :=
  {| plugins := plugins pm;
     staticPlaceholderValues := f (staticPlaceholderValues pm);
     messagePreprocessors := messagePreprocessors pm;
     preprocessorOrder := preprocessorOrder pm;
     serviceModules := serviceModules pm |}.

(** ** [_getPluginConfig] *)

Inductive config_value :=
| CUndefined
| CInt (n : Js.number)
| CBool (b : bool)
| CStr (s : string).

(** [String(value).toLowerCase() === 'true'] *)
Definition isTrue (raw : string) : bool :=
  bool_decide (Js.toLowerCase raw = "true").

(** The raw value of a key: the plugin's own [config.env] entry when it has
    one, the process environment's otherwise. *)
Definition rawValue (pluginSpecificEnv globalEnv : gmap string string)
    (key : string) : option string :=
  match pluginSpecificEnv !! key with
  | Some v => Some v
  | None => globalEnv !! key
  end.

Definition coerce (expectedType rawValue : string) : config_value :=
  if decide (expectedType = "integer") then
    match Js.parseInt rawValue with
    | Some n => CInt n
    | None => CUndefined
    end
  else if decide (expectedType = "boolean") then CBool (isTrue rawValue)
  else CStr rawValue.

Definition _getPluginConfig (globalEnv : gmap string string)
    (pluginManifest : manifest) : gmap string config_value :=
  let pluginSpecificEnv := pluginSpecificEnvConfig pluginManifest in
  let config :=
    map_imap (λ key expectedType,
                coerce expectedType <$> rawValue pluginSpecificEnv globalEnv key)
             (configSchema pluginManifest) in
  match pluginSpecificEnv !! "DebugMode" with
  | Some v => <["DebugMode" := CBool (isTrue v)]> config
  | None =>
      match globalEnv !! "DebugMode" with
      | Some v => <["DebugMode" := CBool (isTrue v)]> config
      | None =>
          match config !! "DebugMode" with
          | Some _ => config
          | None => <["DebugMode" := CBool false]> config
          end
      end
  end.

(** [getResolvedPluginConfigValue]: [None] is [undefined], also for a key
    whose value is [undefined]. *)
Definition getResolvedPluginConfigValue (globalEnv : gmap string string)
    (pm : PluginManager) (pluginName configKey : string) : option config_value :=
  match plugins pm !! pluginName with
  | None => None
  | Some pluginManifest =>
      match _getPluginConfig globalEnv pluginManifest !! configKey with
      | Some CUndefined | None => None
      | Some v => Some v
      end
  end.

(** ** [_updateStaticPluginValue] *)

(** How [_executeStaticPluginCommand] ended: it resolved with the trimmed
    standard output, or it rejected with an error of the given message. *)
Inductive static_outcome :=
| StaticResolved (output : string)
| StaticRejected (message : string).

Definition errorSentinel (pluginName message : string) : string :=
  "[Error updating " ++ pluginName ++ ": " ++ Js.substring0 100 message ++ "...]".

Definition unavailableSentinel (pluginName : string) : string :=
  "[" ++ pluginName ++ " data currently unavailable]".

(** One iteration of the [forEach] over the declared placeholders. *)
Definition updatePlaceholder (pluginName : string) (outcome : static_outcome)
    (values : gmap string string) (placeholderKey : string) : gmap string string :=
  let currentValue := values !! placeholderKey in
  match outcome with
  | StaticResolved newValue =>
      if Js.truthy (Js.trim newValue)
      then <[placeholderKey := Js.trim newValue]> values
      else
        match currentValue with
        | Some _ => values
        | None => <[placeholderKey := unavailableSentinel pluginName]> values
        end
  | StaticRejected message =>
      match currentValue with
      | None => <[placeholderKey := errorSentinel pluginName message]> values
      | Some v =>
          if negb (Js.truthy v) || Js.startsWith "[Error" v
          then <[placeholderKey := errorSentinel pluginName message]> values
          else values
      end
  end.

Definition _updateStaticPluginValue (plugin : manifest) (outcome : static_outcome)
    (pm : PluginManager) : PluginManager :=
  set_staticPlaceholderValues
    (λ values, foldl (updatePlaceholder (name plugin) outcome) values
                     (systemPromptPlaceholders plugin))
    pm.

(** ** Distributed tools and their placeholders *)

(** [!m.name || !m.pluginType || !m.entryPoint] *)
Definition incomplete (m : manifest) : bool :=
  negb (Js.truthy (name m)) || negb (Js.truthy (pluginType m))
  || negb (bool_decide (is_Some (entryPoint m))).

(** [m.displayName || m.name] *)
Definition shownName (m : manifest) : string :=
  match displayName m with
  | Some d => if Js.truthy d then d else name m
  | None => name m
  end.

Definition cloudPrefix : string := "[云端] ".

Definition markDistributed (sid : string) (m : manifest) : manifest :=
  {| name := name m;
     displayName := Some (cloudPrefix ++ shownName m);
     pluginType := pluginType m;
     entryPoint := entryPoint m;
     communication := communication m;
     systemPromptPlaceholders := systemPromptPlaceholders m;
     configSchema := configSchema m;
     pluginSpecificEnvConfig := pluginSpecificEnvConfig m;
     basePath := basePath m;
     isDistributed := true;
     serverId := Some sid |}.

(** One iteration of the loop of [registerDistributedTools]. *)
Definition registerTool (sid : string) (known : gmap string manifest)
    (toolManifest : manifest) : gmap string manifest :=
  if incomplete toolManifest then known
  else match known !! name toolManifest with
       | Some _ => known
       | None => <[name toolManifest := markDistributed sid toolManifest]> known
       end.

Definition registerDistributedTools (sid : string) (tools : list manifest)
    (pm : PluginManager) : PluginManager :=
  set_plugins (λ known, foldl (registerTool sid) known tools) pm.

(** The key [clearDistributedStaticPlaceholders] looks for. *)
Definition distributedKey (placeholder sid : string) : string :=
  placeholder ++ "@@" ++ sid.

(** A placeholder is removed when the table has an entry under its
    [distributedKey]. *)
Definition clearDistributedStaticPlaceholders (sid : string)
    (pm : PluginManager) : PluginManager :=
  set_staticPlaceholderValues
    (λ values,
       filter (λ kv : string * string,
                 values !! distributedKey kv.1 sid = None) values)
    pm.

Definition unregisterAllDistributedTools (sid : string)
    (pm : PluginManager) : PluginManager :=
  clearDistributedStaticPlaceholders sid
    (set_plugins
       (filter (λ kv : string * manifest,
                  ¬ (isDistributed kv.2 = true ∧ serverId kv.2 = Some sid)))
       pm).

(** [placeholders] are the entries of the object the remote server sent. *)
Definition updateDistributedStaticPlaceholders (sid serverName : string)
    (placeholders : list (string * string)) (pm : PluginManager) : PluginManager :=
  set_staticPlaceholderValues
    (λ values, foldl (λ acc kv, <[kv.1 := kv.2]> acc) values placeholders)
    pm.

(** [getPlaceholderValue] *)
Definition getPlaceholderValue (pm : PluginManager) (placeholder : string) : string :=
  match staticPlaceholderValues pm !! placeholder with
  | Some v => if Js.truthy v then v else "[Placeholder " ++ placeholder ++ " not found]"
  | None => "[Placeholder " ++ placeholder ++ " not found]"
  end.

(** ** [loadPlugins] *)

(** An entry of the plugin directory with what the scan reads below it:
    [manifest_json] is the parsed [plugin-manifest.json] ([None] when reading
    or parsing it throws), [config_env] the parsed [config.env] ([None] when
    reading it throws) and [script_module] what [require] gives for the
    entry-point script ([None] when it throws). *)
Record plugin_folder := {
  folder_name : string;
  is_directory : bool;
  manifest_json : option manifest;
  config_env : option (gmap string string);
  script_module : option plugin_module
}.

Inductive order_file :=
| OrderMissing
| OrderUnreadable
| OrderContent (text : string).

Record file_system := {
  PLUGIN_DIR : string;
  pluginFolders : option (list plugin_folder);  (* [None]: [readdir] throws *)
  orderFile : order_file;
  orderFileWritable : bool
}.

Record scan_state := {
  scanned : gmap string manifest;
  discoveredPreprocessors : list (string * plugin_module);
  services : gmap string (manifest * plugin_module)
}.

(** [Map.prototype.set] on a map whose order of insertion is kept. *)
Fixpoint alist_set {A} (k : string) (v : A) (l : list (string * A))
  : list (string * A) :=
  match l with
  | [] => [(k, v)]
  | (k', v') :: rest =>
      if String.eqb k k' then (k, v) :: rest else (k', v') :: alist_set k v rest
  end.

Fixpoint alist_get {A} (k : string) (l : list (string * A)) : option A :=
  match l with
  | [] => None
  | (k', v) :: rest => if String.eqb k k' then Some v else alist_get k rest
  end.

Definition located (dir : string) (folder : plugin_folder) (m : manifest) : manifest :=
  {| name := name m;
     displayName := displayName m;
     pluginType := pluginType m;
     entryPoint := entryPoint m;
     communication := communication m;
     systemPromptPlaceholders := systemPromptPlaceholders m;
     configSchema := configSchema m;
     pluginSpecificEnvConfig := default ∅ (config_env folder);
     basePath := Some (dir ++ "/" ++ folder_name folder);
     isDistributed := isDistributed m;
     serverId := serverId m |}.

Definition isPreprocessor (m : manifest) : bool :=
  bool_decide (pluginType m = "messagePreprocessor")
  || bool_decide (pluginType m = "hybridservice").

Definition isService (m : manifest) : bool :=
  bool_decide (pluginType m = "service")
  || bool_decide (pluginType m = "hybridservice").

(** [m.entryPoint.script && m.communication?.protocol === 'direct'] *)
Definition directScript (m : manifest) : bool :=
  match entryPoint m, communication m with
  | Some e, Some c => Js.truthy (script e) && bool_decide (protocol c = "direct")
  | _, _ => false
  end.

(** The body of the loop over the directory entries. *)
Definition scanFolder (dir : string) (st : scan_state) (folder : plugin_folder)
  : scan_state :=
  if negb (is_directory folder) then st
  else
    match manifest_json folder with
    | None => st
    | Some parsed =>
        if incomplete parsed then st
        else
          match scanned st !! name parsed with
          | Some _ => st
          | None =>
              let m := located dir folder parsed in
              let st1 := {| scanned := <[name m := m]> (scanned st);
                            discoveredPreprocessors := discoveredPreprocessors st;
                            services := services st |} in
              if (isPreprocessor m || isService m) && directScript m then
                match script_module folder with
                | None => st1
                | Some md =>
                    if has_initialize md && initialize_throws md then st1
                    else
                      {| scanned := scanned st1;
                         discoveredPreprocessors :=
                           if isPreprocessor m && has_processMessages md
                           then alist_set (name m) md (discoveredPreprocessors st1)
                           else discoveredPreprocessors st1;
                         services :=
                           if isService m
                           then <[name m := (m, md)]> (services st1)
                           else services st1 |}
                end
              else st1
          end
    end.

(** The saved order, as [JSON.parse] gives it: only an array is read, and only
    its strings can be members of the set of discovered names. *)
Definition savedNames (saved : option json) : list string :=
  match saved with
  | Some (JArr items) =>
      omap (λ v, match v with JStr n => Some n | _ => None end) items
  | _ => []
  end.

(** The loop over the saved order: a name still in [availablePlugins] is
    pushed to [finalOrder] and deleted from the set. *)
Fixpoint keepSaved (savedOrder availablePlugins finalOrder : list string)
  : list string * list string :=
  match savedOrder with
  | [] => (finalOrder, availablePlugins)
  | pluginName :: rest =>
      if bool_decide (pluginName ∈ availablePlugins)
      then keepSaved rest
             (filter (λ n, n ≠ pluginName) availablePlugins)
             (finalOrder ++ [pluginName])
      else keepSaved rest availablePlugins finalOrder
  end.

(** [Array.from(availablePlugins).sort()] *)
Definition sortNames (names : list string) : list string :=
  merge_sort Js.le names.

(** The names of the order file; none when the file is missing, cannot be
    read or is no JSON. *)
Definition savedOrder (file : order_file) : list string :=
  match file with
  | OrderContent text => savedNames (Json.parse text)
  | OrderMissing | OrderUnreadable => []
  end.

Definition reconcileOrder (file : order_file) (discovered : list string)
  : list string :=
  let '(finalOrder, availablePlugins) :=
    keepSaved (savedOrder file) discovered [] in
  finalOrder ++ sortNames availablePlugins.

(** The order file after the load: it is written only when [fs.access] found
    no file and the final order is not empty. *)
Definition orderFileAfter (fs : file_system) (finalOrder : list string) : order_file :=
  match orderFile fs, finalOrder with
  | OrderMissing, _ :: _ =>
      if orderFileWritable fs
      then OrderContent (Json.stringify_names finalOrder)
      else OrderMissing
  | file, _ => file
  end.

(** The synchronous start of [loadPlugins]: the manifests that are not
    distributed are kept, the three tables are cleared. *)
Definition resetForReload (pm : PluginManager) : PluginManager :=
  {| plugins := filter (λ kv : string * manifest, isDistributed kv.2 = false)
                       (plugins pm);
     staticPlaceholderValues := ∅;
     messagePreprocessors := ∅;
     preprocessorOrder := preprocessorOrder pm;
     serviceModules := ∅ |}.

Definition registerPreprocessors (discovered : list (string * plugin_module))
    (finalOrder : list string) : gmap string plugin_module :=
  foldl (λ acc pluginName,
           match alist_get pluginName discovered with
           | Some md => <[pluginName := md]> acc
           | None => acc
           end) ∅ finalOrder.

(** The loop over the entries of the plugin directory. *)
Definition scanAll (dir : string) (pm0 : PluginManager)
    (folders : list plugin_folder) : scan_state :=
  foldl (scanFolder dir)
        {| scanned := plugins pm0;
           discoveredPreprocessors := [];
           services := serviceModules pm0 |}
        folders.

Definition loadPlugins (fs : file_system) (pm : PluginManager)
  : PluginManager * order_file :=
  let pm0 := resetForReload pm in
  match pluginFolders fs with
  | None => (pm0, orderFile fs)
  | Some folders =>
      let st := scanAll (PLUGIN_DIR fs) pm0 folders in
      let finalOrder :=
        reconcileOrder (orderFile fs) (map fst (discoveredPreprocessors st)) in
      ({| plugins := scanned st;
          staticPlaceholderValues := staticPlaceholderValues pm0;
          messagePreprocessors :=
            registerPreprocessors (discoveredPreprocessors st) finalOrder;
          preprocessorOrder := finalOrder;
          serviceModules := services st |},
       orderFileAfter fs finalOrder)
  end.

(** ** [executePlugin]: one invocation of a stdio plugin *)

(** A call of the promise's [resolve] or [reject]. *)
Inductive settlement :=
| Resolve (value : json)
| Reject (message : string).

(** What the child process and the timer deliver to the handlers. *)
Inductive process_event :=
| StdoutData (data : string)
| StderrData (data : string)
| ProcessError (message : string)
| ProcessExit (code : option Z) (signal : option string)
| TimerFires.

(** The variables the handlers close over, and the calls of [resolve] and
    [reject] made so far, oldest first.  [timerOff] holds once the timer was
    cleared or has fired; [killed] once [kill('SIGKILL')] was called. *)
Record execution := {
  outputBuffer : string;
  errorOutput : string;
  processExited : bool;
  initialResponseSent : bool;
  timerOff : bool;
  killed : bool;
  settlements : list settlement
}.

Definition spawned : execution :=
  {| outputBuffer := EmptyString; errorOutput := EmptyString;
     processExited := false; initialResponseSent := false;
     timerOff := false; killed := false; settlements := [] |}.

Definition settle (s : settlement) (ex : execution) : execution :=
  {| outputBuffer := outputBuffer ex; errorOutput := errorOutput ex;
     processExited := processExited ex;
     initialResponseSent := initialResponseSent ex;
     timerOff := timerOff ex; killed := killed ex;
     settlements := settlements ex ++ [s] |}.

(** The text from the character after an opening brace up to the first
    closing brace that white space or the end of the text follows. *)
Fixpoint lazyClose (s : string) : option string :=
  match s with
  | EmptyString => None
  | String c rest =>
      let closes :=
        Ascii.eqb c "}" &&
        match rest with
        | EmptyString => true
        | _ => Js.startsWithSpace rest
        end in
      if closes then Some (String c EmptyString)
      else match lazyClose rest with
           | Some t => Some (String c t)
           | None => None
           end
  end.

(** The first group of the leftmost match of the regular expression of the
    stdout handler: an opening brace, as few characters as possible, a closing
    brace, and then white space or the end of the buffer. *)
Fixpoint potentialJsonMatch (buffer : string) : option string :=
  match buffer with
  | EmptyString => None
  | String c rest =>
      if Ascii.eqb c "{" then
        match lazyClose rest with
        | Some t => Some (String c t)
        | None => potentialJsonMatch rest
        end
      else potentialJsonMatch rest
  end.

(** [v && (v.status === "success" || v.status === "error")] *)
Definition statusOk (v : json) : bool :=
  Json.is_text "success" (Json.field "status" v)
  || Json.is_text "error" (Json.field "status" v).

Section handlers.
Variable pluginName : string.
Variable isAsyncPlugin : bool.

Definition onStdout (data : string) (ex : execution) : execution :=
  if processExited ex || (isAsyncPlugin && initialResponseSent ex) then ex
  else
    let ex1 :=
      {| outputBuffer := outputBuffer ex ++ data; errorOutput := errorOutput ex;
         processExited := processExited ex;
         initialResponseSent := initialResponseSent ex;
         timerOff := timerOff ex; killed := killed ex;
         settlements := settlements ex |} in
    match potentialJsonMatch (outputBuffer ex1) with
    | Some jsonString =>
        match Json.parse jsonString with
        | Some parsedOutput =>
            if statusOk parsedOutput && isAsyncPlugin
               && negb (initialResponseSent ex1)
            then
              settle (Resolve parsedOutput)
                {| outputBuffer := outputBuffer ex1;
                   errorOutput := errorOutput ex1;
                   processExited := processExited ex1;
                   initialResponseSent := true;
                   timerOff := timerOff ex1; killed := killed ex1;
                   settlements := settlements ex1 |}
            else ex1
        | None => ex1
        end
    | None => ex1
    end.

Definition onStderr (data : string) (ex : execution) : execution :=
  {| outputBuffer := outputBuffer ex; errorOutput := errorOutput ex ++ data;
     processExited := processExited ex;
     initialResponseSent := initialResponseSent ex;
     timerOff := timerOff ex; killed := killed ex;
     settlements := settlements ex |}.

(** [processExited = true; clearTimeout(timeoutId)] *)
Definition exited (ex : execution) : execution :=
  {| outputBuffer := outputBuffer ex; errorOutput := errorOutput ex;
     processExited := true;
     initialResponseSent := initialResponseSent ex;
     timerOff := true; killed := killed ex;
     settlements := settlements ex |}.

Definition onError (message : string) (ex : execution) : execution :=
  let ex1 := exited ex in
  if initialResponseSent ex1 then ex1
  else settle (Reject (Js.lit "Failed to start plugin '" ++ pluginName
                         ++ Js.lit "': " ++ message)) ex1.

Definition codeText (code : option Z) : string :=
  match code with
  | Some z => pretty z
  | None => "null"
  end.

Definition nonZeroExitMessage (code : option Z) (ex : execution) : string :=
  Js.lit "Plugin '" ++ pluginName ++ Js.lit "' exited with code "
    ++ codeText code ++ "."
    ++ (if Js.truthy (Js.trim (outputBuffer ex))
        then " Stdout: " ++ Js.substring0 200 (Js.trim (outputBuffer ex))
        else EmptyString)
    ++ (if Js.truthy (Js.trim (errorOutput ex))
        then " Stderr: " ++ Js.substring0 200 (Js.trim (errorOutput ex))
        else EmptyString).

Definition zeroExitMessage (ex : execution) : string :=
  Js.lit "Plugin '" ++ pluginName
    ++ Js.lit "' exited successfully but did not provide a valid initial JSON response. Stdout: "
    ++ Js.substring0 200 (Js.trim (outputBuffer ex)).

(** [parsedOutput.pluginStderr = errorOutput.trim()] when the trimmed standard
    error is not empty. *)
Definition withStderr (ex : execution) (parsedOutput : json) : json :=
  match parsedOutput with
  | JObj fields =>
      if Js.truthy (Js.trim (errorOutput ex))
      then JObj (Json.obj_set "pluginStderr" (JStr (Js.trim (errorOutput ex))) fields)
      else parsedOutput
  | _ => parsedOutput
  end.

(** The final standard output read as a status object. *)
Definition finalOutput (ex : execution) : option json :=
  match Json.parse (Js.trim (outputBuffer ex)) with
  | Some parsedOutput =>
      if statusOk parsedOutput then Some parsedOutput else None
  | None => None
  end.

Definition onExit (code : option Z) (signal : option string) (ex : execution)
  : execution :=
  let ex1 := exited ex in
  if isAsyncPlugin && initialResponseSent ex1 then ex1
  else if bool_decide (signal = Some "SIGKILL") then
    if initialResponseSent ex1 then ex1
    else settle (Reject (Js.lit "Plugin '" ++ pluginName
                           ++ Js.lit "' execution timed out or was killed.")) ex1
  else
    match finalOutput ex1 with
    | Some parsedOutput =>
        if initialResponseSent ex1 then ex1
        else settle (Resolve (withStderr ex1 parsedOutput)) ex1
    | None =>
        if initialResponseSent ex1 then ex1
        else if bool_decide (code = Some 0%Z)
             then settle (Reject (zeroExitMessage ex1)) ex1
             else settle (Reject (nonZeroExitMessage code ex1)) ex1
    end.

(** [pluginProcess.kill('SIGKILL'); reject(new Error(message))]; the timer
    has fired. *)
Definition killAndReject (message : string) (ex : execution) : execution :=
  settle (Reject message)
    {| outputBuffer := outputBuffer ex; errorOutput := errorOutput ex;
       processExited := processExited ex;
       initialResponseSent := initialResponseSent ex;
       timerOff := true; killed := true;
       settlements := settlements ex |}.

Definition onTimer (ex : execution) : execution :=
  if timerOff ex then ex
  else if negb (processExited ex) && negb (initialResponseSent ex) && isAsyncPlugin
  then killAndReject (Js.lit "Plugin '" ++ pluginName
                        ++ Js.lit "' initial response timed out.") ex
  else if negb (processExited ex) && negb isAsyncPlugin
  then killAndReject (Js.lit "Plugin '" ++ pluginName
                        ++ Js.lit "' execution timed out.") ex
  else
    {| outputBuffer := outputBuffer ex; errorOutput := errorOutput ex;
       processExited := processExited ex;
       initialResponseSent := initialResponseSent ex;
       timerOff := true; killed := killed ex;
       settlements := settlements ex |}.

Definition handle (ex : execution) (ev : process_event) : execution :=
  match ev with
  | StdoutData data => onStdout data ex
  | StderrData data => onStderr data ex
  | ProcessError message => onError message ex
  | ProcessExit code signal => onExit code signal ex
  | TimerFires => onTimer ex
  end.

(** The handlers run over the events of one child, in the order of arrival. *)
Definition run (events : list process_event) (ex : execution) : execution :=
  foldl handle ex events.

End handlers.

(** The state of the promise [executePlugin] returns: a promise keeps the
    first call of [resolve] or [reject] and ignores the later ones. *)
Inductive promise :=
| Pending
| Settled (s : settlement).

Definition promiseOf (ex : execution) : promise :=
  match settlements ex with
  | [] => Pending
  | s :: _ => Settled s
  end.

Definition resolves (s : settlement) : bool :=
  match s with Resolve _ => true | Reject _ => false end.

(** How often [resolve] was called. *)
Definition resolveCalls (ex : execution) : nat :=
  length (filter (λ s, resolves s = true) (settlements ex)).

(** The child process of one invocation: whether writing to its standard
    input throws, and the events it and the timer deliver afterwards. *)
Record child_process := {
  stdinError : option string;
  events : list process_event
}.

(** [(type === 'synchronous' || type === 'asynchronous') &&
     communication?.protocol === 'stdio'] *)
Definition stdioPlugin (plugin : manifest) : bool :=
  (bool_decide (pluginType plugin = "synchronous")
   || bool_decide (pluginType plugin = "asynchronous"))
  && match communication plugin with
     | Some c => bool_decide (protocol c = "stdio")
     | None => false
     end.

Definition protocolText (plugin : manifest) : string :=
  match communication plugin with
  | Some c => protocol c
  | None => "undefined"
  end.

(** [executePlugin], with the child a parameter; the environment handed to
    the child is not part of the model. *)
Definition executePlugin (pm : PluginManager) (child : child_process)
    (pluginName : string) : promise :=
  match plugins pm !! pluginName with
  | None =>
      Settled (Reject (Js.lit "[PluginManager executePlugin] Plugin '"
                         ++ pluginName ++ Js.lit "' not found."))
  | Some plugin =>
      if negb (stdioPlugin plugin) then
        Settled (Reject (Js.lit "[PluginManager executePlugin] Plugin '"
                           ++ pluginName ++ Js.lit "' (type: " ++ pluginType plugin
                           ++ ", protocol: " ++ protocolText plugin
                           ++ ") is not a supported stdio plugin. Expected synchronous or asynchronous stdio plugin."))
      else if negb (match entryPoint plugin with
                    | Some e => Js.truthy (command e)
                    | None => false
                    end) then
        Settled (Reject (Js.lit "[PluginManager executePlugin] Entry point command undefined for plugin '"
                           ++ pluginName ++ Js.lit "'."))
      else
        let isAsyncPlugin := bool_decide (pluginType plugin = "asynchronous") in
        let ex0 :=
          match stdinError child with
          | Some message =>
              settle (Reject (Js.lit "Stdin write error for '" ++ pluginName
                                ++ Js.lit "': " ++ message)) spawned
          | None => spawned
          end in
        promiseOf (run pluginName isAsyncPlugin (events child) ex0)
  end.

(** ** [FileFetcherServer.fetchFile] *)

(** A [Buffer] is represented by its base64 text. *)
Inductive read_result :=
| ReadOk (buffer : string)
| ReadMissing                    (* the error code is ENOENT *)
| ReadFails (message : string).

(** What [executeDistributedTool(serverId, 'internal_request_file', ...)]
    gives: a success with file data, any other result (with the text that
    stands for its [error] in the message built from it), or an exception. *)
Inductive remote_reply :=
| RemoteFile (fileData : string) (mimeType : option string)
| RemoteRefusal (error : string)
| RemoteThrows (message : string).

(** What one call of [fetchFile] reads from its surroundings: the clock (on
    entry, when the failure cache is consulted, when a failure is recorded),
    [fileURLToPath] (a path, or the message of the error it throws),
    [mime.lookup], the two reads, and the WebSocket server. *)
Record fetch_io := {
  now : Z;
  nowAtCheck : Z;
  nowAtFailure : Z;
  filePath : string + string;
  mimeOfPath : option string;
  cachedRead : read_result;
  localRead : read_result;
  serverLinked : bool;
  serverOfIp : option string;
  remoteReply : remote_reply
}.

(** The two module-level maps of the file fetcher.  The timer that deletes an
    entry of [recentRequests] after twice the expiration time is left out: by
    then the entry no longer passes the test that reads it. *)
Record fetcher := {
  recentRequests : gmap string Z;
  failedFetchCache : gmap string (Z * string)
}.

Definition REQ_CACHE_EXPIRATION_MS : Z := 5000.
Definition CACHE_EXPIRATION_MS : Z := 30000.

Inductive fetch_result :=
| Fetched (buffer mimeType : string)
| FetchFails (message : string).

Definition truthyText (o : option string) : bool :=
  match o with
  | Some t => Js.truthy t
  | None => false
  end.

(** The last resort of [fetchFile]: the file is asked from the distributed
    server the request came from.  A failure is recorded in the failure
    cache. *)
Definition fetchRemote (io : fetch_io) (fileUrl : string) (requestIp : option string)
    (mimeType : string) (ft : fetcher) : fetch_result * fetcher :=
  if negb (truthyText requestIp) then
    (FetchFails "无法确定请求来源，因为缺少 requestIp。", ft)
  else if negb (serverLinked io) then
    (FetchFails "FileFetcherServer 尚未初始化。", ft)
  else if negb (truthyText (serverOfIp io)) then
    (FetchFails ("根据IP [" ++ default EmptyString requestIp
                   ++ "] 未找到任何已知的分布式服务器。"), ft)
  else
    let sid := default EmptyString (serverOfIp io) in
    let failed (message : string) :=
      (FetchFails ("通过 WebSocket 从服务器 " ++ sid
                     ++ " 请求文件时发生错误: " ++ message),
       {| recentRequests := recentRequests ft;
          failedFetchCache :=
            <[fileUrl := (nowAtFailure io, message)]> (failedFetchCache ft) |}) in
    match remoteReply io with
    | RemoteFile fileData remoteMime =>
        (Fetched fileData
           (if truthyText remoteMime then default EmptyString remoteMime
            else mimeType), ft)
    | RemoteRefusal error =>
        failed ("从服务器 " ++ sid ++ " 获取文件失败: " ++ error)
    | RemoteThrows message => failed message
    end.

Definition fetchFile (io : fetch_io) (fileUrl : string) (requestIp : option string)
    (ft : fetcher) : fetch_result * fetcher :=
  let looping :=
    match recentRequests ft !! fileUrl with
    | Some lastRequestTime =>
        bool_decide (now io - lastRequestTime < REQ_CACHE_EXPIRATION_MS)%Z
    | None => false
    end in
  let ft1 := {| recentRequests := <[fileUrl := now io]> (recentRequests ft);
                failedFetchCache := failedFetchCache ft |} in
  if looping then
    (FetchFails ("在 " ++ pretty REQ_CACHE_EXPIRATION_MS
                   ++ "ms 内检测到对同一文件 '" ++ fileUrl
                   ++ "' 的重复请求。为防止无限循环，已中断操作。"), ft1)
  else if negb (Js.startsWith "file://" fileUrl) then
    (FetchFails "FileFetcher 目前只支持 file:// 协议。", ft1)
  else
    match filePath io with
    | inr message => (FetchFails message, ft1)
    | inl path =>
        let mimeType :=
          if truthyText (mimeOfPath io) then default EmptyString (mimeOfPath io)
          else "application/octet-stream" in
        match cachedRead io with
        | ReadOk buffer => (Fetched buffer mimeType, ft1)
        | ReadFails message =>
            (FetchFails ("读取缓存文件时发生意外错误: " ++ message), ft1)
        | ReadMissing =>
            match localRead io with
            | ReadOk buffer => (Fetched buffer mimeType, ft1)
            | ReadFails message =>
                (FetchFails ("读取本地文件时发生意外错误: " ++ message), ft1)
            | ReadMissing =>
                match failedFetchCache ft1 !! fileUrl with
                | Some (timestamp, error) =>
                    if bool_decide (nowAtCheck io - timestamp < CACHE_EXPIRATION_MS)%Z
                    then
                      (FetchFails ("文件获取在短时间内已失败，为防止循环已中断。错误: "
                                     ++ error), ft1)
                    else
                      fetchRemote io fileUrl requestIp mimeType
                        {| recentRequests := recentRequests ft1;
                           failedFetchCache := delete fileUrl (failedFetchCache ft1) |}
                | None => fetchRemote io fileUrl requestIp mimeType ft1
                end
            end
        end
    end.

(** ** [processToolCall] *)

(** An exception: an [Error] whose message is the given text, or one whose
    message is [JSON.stringify] of the given object (reading it back with
    [JSON.parse] gives the object). *)
Inductive thrown :=
| ErrorText (message : string)
| ErrorJson (errorObject : json).

Definition messageOf (e : thrown) : string :=
  match e with
  | ErrorText message => message
  | ErrorJson errorObject => Json.stringify errorObject
  end.

(** How a call of [processToolCall] ends; [Hangs] when a promise it awaits
    never settles. *)
Inductive call_result :=
| Returns (value : json)
| Throws (e : thrown)
| Hangs.

(** The surroundings of the dispatcher.  Every interaction takes the number
    of interactions made before it, so that one answer may differ from the
    next. *)
Record world := {
  wsLinked : bool;     (* [this.webSocketServer] is set *)
  distributedTool : nat → string → string → list (string * json) → promise;
  chromeCommand : nat → option json → list (string * json) → promise;
  serviceCall : nat → string → list (string * json) → promise;
  child : nat → string → option string → child_process;
  fetchIo : nat → fetch_io;
  localTimestamp : nat → string
}.

(** The state threaded through a dispatch: the number of interactions made,
    the maps of the file fetcher, and a record of the input handed to each
    call of [executePlugin], oldest first. *)
Record dispatcher := {
  ticks : nat;
  fileFetcher : fetcher;
  executions : list (option string)
}.

Definition tick (st : dispatcher) : dispatcher :=
  {| ticks := S (ticks st); fileFetcher := fileFetcher st;
     executions := executions st |}.

(** The dispatcher after a call of [executePlugin] with the given input. *)
Definition executed (executionParam : option string) (st : dispatcher) : dispatcher :=
  {| ticks := S (ticks st); fileFetcher := fileFetcher st;
     executions := executions st ++ [executionParam] |}.

(** The dispatcher after a call of [fetchFile]. *)
Definition fetched (ft : fetcher) (st : dispatcher) : dispatcher :=
  {| ticks := S (ticks st); fileFetcher := ft; executions := executions st |}.

(** The message of the [TypeError] of the engine is not modelled. *)
Definition typeError : thrown := ErrorText "TypeError".

(** The text of a value used as a property key: [String(v)].  The elements
    of an array are joined by commas, [null] giving the empty text. *)
Fixpoint propertyKey (v : json) : string :=
  match v with
  | JStr t => t
  | JBool true => "true"
  | JBool false => "false"
  | JNull => "null"
  | JNum n => n
  | JArr items =>
      Json.join ","
        (map (λ item, match item with
                      | JNull => EmptyString
                      | _ => propertyKey item
                      end) items)
  | JObj _ => "[object Object]"
  end.

(** [o.k = v] on the value [o]: a property of an array is not kept. *)
Definition setProperty (k : string) (v : json) (o : json) : json :=
  match o with
  | JObj fields => JObj (Json.obj_set k v fields)
  | _ => o
  end.

(** The end of the [try] block: the result is wrapped unless it is an object,
    and it receives [MaidName] and [timestamp]. *)
Definition finalResult (maidNameFromArgs : option json) (stamp : string)
    (resultFromPlugin : option json) : json :=
  let finalResultObject :=
    match resultFromPlugin with
    | Some (JObj fields) => JObj fields
    | Some (JArr items) => JArr items
    | Some v => JObj [("original_plugin_output", v)]
    | None => JObj []
    end in
  let withMaid :=
    match maidNameFromArgs with
    | Some maid => setProperty "MaidName" maid finalResultObject
    | None => finalResultObject
    end in
  setProperty "timestamp" (JStr stamp) withMaid.

(** The [catch] block at the end of [processToolCall]. *)
Definition normalizedError (maidNameFromArgs : option json) (stamp : string)
    (e : thrown) : thrown :=
  let errorObject :=
    match e with
    | ErrorJson o => o
    | ErrorText message =>
        match Json.parse message with
        | Some o => o
        | None =>
            JObj [("plugin_execution_error",
                   JStr (if Js.truthy message then message
                         else "Unknown plugin execution error"))]
        end
    end in
  match errorObject with
  | JObj _ | JArr _ =>
      let withMaid :=
        match maidNameFromArgs with
        | Some maid =>
            if Json.truthy_opt (Json.field "MaidName" errorObject) then errorObject
            else setProperty "MaidName" maid errorObject
        | None => errorObject
        end in
      ErrorJson
        (if Json.truthy_opt (Json.field "timestamp" withMaid) then withMaid
         else setProperty "timestamp" (JStr stamp) withMaid)
  | _ => typeError
  end.

(** The arguments of the retry: the failed parameter gives way to a base64
    parameter of the same index, or [image_url] to [image_base64]. *)
Definition retryArgs (toolArgs : list (string * json)) (failedParameter : option json)
    (dataUri : string) : option (list (string * json)) :=
  match failedParameter with
  | Some failedParam =>
      if Json.truthy failedParam
         && Json.truthy_opt (Json.obj_get (propertyKey failedParam) toolArgs)
      then
        match failedParam with
        | JStr p =>
            Some (Json.obj_set ("image_base64_" ++ Js.removeFirst "image_url_" p)
                    (JStr dataUri) (Json.obj_delete p toolArgs))
        | _ => None   (* [failedParam.replace] is no function *)
        end
      else Some (Json.obj_set "image_base64" (JStr dataUri)
                   (Json.obj_delete "image_url" toolArgs))
  | None => Some (Json.obj_set "image_base64" (JStr dataUri)
                    (Json.obj_delete "image_url" toolArgs))
  end.

(** What the body of the [try] block comes to. *)
Inductive attempt :=
| Value (resultFromPlugin : option json)   (* falls through to the common end *)
| Raise (e : thrown)                       (* caught by the final [catch] *)
| Direct (value : json)                    (* [return] inside the block *)
| Stuck.

Definition awaited (p : promise) : attempt :=
  match p with
  | Settled (Resolve v) => Value (Some v)
  | Settled (Reject message) => Raise (ErrorText message)
  | Pending => Stuck
  end.

Definition fetchFailure (pluginOutput : json) (message : string) : thrown :=
  ErrorJson
    (JObj (("plugin_error",
            JStr ("Plugin reported local file not found, but remote fetch failed: "
                    ++ message))
           :: match Json.field "error" pluginOutput with
              | Some err => [("original_plugin_error", err)]
              | None => []
              end)).

(** [toolArgs && toolArgs.maid ? toolArgs.maid : null] *)
Definition maidNameOf (toolArgs : list (string * json)) : option json :=
  match Json.obj_get "maid" toolArgs with
  | Some maid => if Json.truthy maid then Some maid else None
  | None => None
  end.

(** The input of the child: the arguments as JSON, or nothing when there is
    no argument. *)
Definition executionParamOf (toolArgs : list (string * json)) : option string :=
  match toolArgs with
  | [] => None
  | _ => Some (Json.stringify (JObj toolArgs))
  end.

(** The error of a plugin that reports a failure other than the missing
    file. *)
Definition reportedError (toolName : string) (pluginOutput : json) : thrown :=
  ErrorJson
    (JObj [("plugin_error",
            match Json.field "error" pluginOutput with
            | Some err =>
                if Json.truthy err then err
                else JStr (Js.lit "Plugin '" ++ toolName
                             ++ Js.lit "' reported an unspecified error.")
            | None =>
                JStr (Js.lit "Plugin '" ++ toolName
                        ++ Js.lit "' reported an unspecified error.")
            end)]).

Section dispatch.
Variable w : world.
Variable pm : PluginManager.

(** The result of a successful local plugin: a string is parsed when it is
    JSON and wrapped when it is not. *)
Definition localResult (pluginOutput : json) : option json :=
  match Json.field "result" pluginOutput with
  | Some (JStr text) =>
      match Json.parse text with
      | Some v => Some v
      | None => Some (JObj [("original_plugin_output", JStr text)])
      end
  | other => other
  end.

Fixpoint processToolCall (fuel : nat) (toolName : string)
    (toolArgs : list (string * json)) (requestIp : option string)
    (st : dispatcher) : option (call_result * dispatcher) :=
  match fuel with
  | O => None
  | S fuel' =>
      match plugins pm !! toolName with
      | None =>
          Some (Throws (ErrorText (Js.lit "[PluginManager] Plugin '" ++ toolName
                                     ++ Js.lit "' not found for tool call.")), st)
      | Some plugin =>
          let maidNameFromArgs := maidNameOf toolArgs in
          let direct :=
            match communication plugin with
            | Some c => bool_decide (protocol c = "direct")
            | None => false
            end in
          let tried : option (attempt * dispatcher) :=
            if isDistributed plugin then
              if negb (wsLinked w) then
                Some (Raise (ErrorText "[PluginManager] WebSocketServer is not initialized. Cannot call distributed tool."), st)
              else
                Some (awaited (distributedTool w (ticks st)
                                 (default "undefined" (serverId plugin)) toolName toolArgs),
                      tick st)
            else if bool_decide (toolName = "ChromeControl") && direct then
              if negb (wsLinked w) then
                Some (Raise (ErrorText "[PluginManager] WebSocketServer is not initialized. Cannot call ChromeControl tool."), st)
              else
                Some (awaited (chromeCommand w (ticks st)
                                 (Json.obj_get "command" toolArgs)
                                 (Json.obj_delete "command" toolArgs)),
                      tick st)
            else if bool_decide (pluginType plugin = "hybridservice") && direct then
              match serviceModules pm !! toolName with
              | Some (_, md) =>
                  if has_processToolCall md then
                    Some (awaited (serviceCall w (ticks st) toolName toolArgs), tick st)
                  else
                    Some (Raise (ErrorText (Js.lit "[PluginManager] Hybrid service plugin '"
                                              ++ toolName
                                              ++ Js.lit "' does not have a processToolCall function.")), st)
              | None =>
                  Some (Raise (ErrorText (Js.lit "[PluginManager] Hybrid service plugin '"
                                            ++ toolName
                                            ++ Js.lit "' does not have a processToolCall function.")), st)
              end
            else if negb (stdioPlugin plugin) then
              Some (Raise (ErrorText (Js.lit "[PluginManager] Local plugin '" ++ toolName
                                        ++ Js.lit "' (type: " ++ pluginType plugin
                                        ++ ") is not a supported stdio plugin for direct tool call.")), st)
            else
              let executionParam := executionParamOf toolArgs in
              match executePlugin pm (child w (ticks st) toolName executionParam) toolName with
              | Pending => Some (Stuck, executed executionParam st)
              | Settled (Reject message) =>
                  Some (Raise (ErrorText message), executed executionParam st)
              | Settled (Resolve pluginOutput) =>
                  let st1 := executed executionParam st in
                  if Json.is_text "success" (Json.field "status" pluginOutput)
                  then Some (Value (localResult pluginOutput), st1)
                  else if Json.is_text "FILE_NOT_FOUND_LOCALLY" (Json.field "code" pluginOutput)
                          && Json.truthy_opt (Json.field "fileUrl" pluginOutput)
                          && truthyText requestIp
                  then
                    match Json.field "fileUrl" pluginOutput with
                    | Some (JStr fileUrl) =>
                        match fetchFile (fetchIo w (ticks st1)) fileUrl requestIp
                                (fileFetcher st1) with
                        | (FetchFails message, ft) =>
                            Some (Raise (fetchFailure pluginOutput message),
                                  fetched ft st1)
                        | (Fetched buffer mimeType, ft) =>
                            let st2 := fetched ft st1 in
                            let dataUri := "data:" ++ mimeType ++ ";base64," ++ buffer in
                            match retryArgs toolArgs
                                    (Json.field "failedParameter" pluginOutput) dataUri with
                            | None =>
                                Some (Raise (fetchFailure pluginOutput (messageOf typeError)), st2)
                            | Some newToolArgs =>
                                match processToolCall fuel' toolName newToolArgs requestIp st2 with
                                | None => None
                                | Some (Returns v, st3) => Some (Direct v, st3)
                                | Some (Throws e, st3) =>
                                    Some (Raise (fetchFailure pluginOutput (messageOf e)), st3)
                                | Some (Hangs, st3) => Some (Stuck, st3)
                                end
                            end
                        end
                    | _ =>
                        (* [fileUrl.startsWith] is no function *)
                        Some (Raise (fetchFailure pluginOutput (messageOf typeError)),
                              tick st1)
                    end
                  else Some (Raise (reportedError toolName pluginOutput), st1)
              end in
          match tried with
          | None => None
          | Some (Value resultFromPlugin, st1) =>
              Some (Returns (finalResult maidNameFromArgs
                               (localTimestamp w (ticks st1)) resultFromPlugin),
                    tick st1)
          | Some (Raise e, st1) =>
              Some (Throws (normalizedError maidNameFromArgs
                              (localTimestamp w (ticks st1)) e),
                    tick st1)
          | Some (Direct v, st1) => Some (Returns v, st1)
          | Some (Stuck, st1) => Some (Hangs, st1)
          end
      end
  end.

End dispatch.

(** ** [_executeStaticPluginCommand] *)

(** One run of the command of a static plugin.  The promise settles with a
    [static_outcome]: the trimmed standard output, or the message of an
    error.  The handlers are those of the source; the standard input of the
    child is not written. *)
Module Static.

Record execution := {
  output : string;
  errorOutput : string;
  processExited : bool;
  timerOff : bool;
  killed : bool;
  settlements : list static_outcome
}.

Definition spawned : execution :=
  {| output := EmptyString; errorOutput := EmptyString; processExited := false;
     timerOff := false; killed := false; settlements := [] |}.

Definition settle (s : static_outcome) (ex : execution) : execution :=
  {| output := output ex; errorOutput := errorOutput ex;
     processExited := processExited ex; timerOff := timerOff ex;
     killed := killed ex; settlements := settlements ex ++ [s] |}.

Section handlers.
Variable plugin : manifest.

Definition onStdout (data : string) (ex : execution) : execution :=
  {| output := output ex ++ data; errorOutput := errorOutput ex;
     processExited := processExited ex; timerOff := timerOff ex;
     killed := killed ex; settlements := settlements ex |}.

Definition onStderr (data : string) (ex : execution) : execution :=
  {| output := output ex; errorOutput := errorOutput ex ++ data;
     processExited := processExited ex; timerOff := timerOff ex;
     killed := killed ex; settlements := settlements ex |}.

(** [processExited = true; clearTimeout(timeoutId)] *)
Definition exited (ex : execution) : execution :=
  {| output := output ex; errorOutput := errorOutput ex;
     processExited := true; timerOff := true;
     killed := killed ex; settlements := settlements ex |}.

Definition onError (message : string) (ex : execution) : execution :=
  settle (StaticRejected message) (exited ex).

Definition exitMessage (code : option Z) (ex : execution) : string :=
  "Static plugin " ++ name plugin ++ " exited with code " ++ codeText code
    ++ ". Stderr: " ++ Js.trim (errorOutput ex).

Definition onExit (code : option Z) (signal : option string) (ex : execution)
  : execution :=
  let ex1 := exited ex in
  if bool_decide (signal = Some "SIGKILL") then ex1
  else if bool_decide (code = Some 0%Z)
       then settle (StaticResolved (Js.trim (output ex1))) ex1
       else settle (StaticRejected (exitMessage code ex1)) ex1.

Definition timeoutMessage : string :=
  Js.lit "Static plugin '" ++ name plugin ++ Js.lit "' execution timed out.".

Definition onTimer (ex : execution) : execution :=
  if timerOff ex then ex
  else if negb (processExited ex) then
    settle (StaticRejected timeoutMessage)
      {| output := output ex; errorOutput := errorOutput ex;
         processExited := processExited ex; timerOff := true;
         killed := true; settlements := settlements ex |}
  else
    {| output := output ex; errorOutput := errorOutput ex;
       processExited := processExited ex; timerOff := true;
       killed := killed ex; settlements := settlements ex |}.

Definition handle (ex : execution) (ev : process_event) : execution :=
  match ev with
  | StdoutData data => onStdout data ex
  | StderrData data => onStderr data ex
  | ProcessError message => onError message ex
  | ProcessExit code signal => onExit code signal ex
  | TimerFires => onTimer ex
  end.

Definition run (events : list process_event) (ex : execution) : execution :=
  foldl handle ex events.

End handlers.

End Static.

(** [!plugin || plugin.pluginType !== 'static' || !plugin.entryPoint ||
     !plugin.entryPoint.command] *)
Definition invalidStatic (plugin : manifest) : bool :=
  negb (bool_decide (pluginType plugin = "static"))
  || negb (match entryPoint plugin with
           | Some e => Js.truthy (command e)
           | None => false
           end).

(** [_executeStaticPluginCommand]: how the promise settles, [None] when it
    never does.  The environment handed to the child is not part of the
    model. *)
Definition _executeStaticPluginCommand (plugin : manifest) (child : child_process)
  : option static_outcome :=
  if invalidStatic plugin then
    Some (StaticRejected ("Invalid static plugin or command for " ++ name plugin))
  else head (Static.settlements (Static.run plugin (events child) Static.spawned)).

(** ** [initializeStaticPlugins] *)

(** [`[${plugin.displayName} a-zheng-zai-jia-zai-zhong... ]`] *)
Definition loadingText (plugin : manifest) : string :=
  "[" ++ default "undefined" (displayName plugin) ++ " a-zheng-zai-jia-zai-zhong... ]".

(** The body of the loop: the placeholders of a static plugin are set to the
    loading text. *)
Definition setLoading (values : gmap string string) (plugin : manifest)
  : gmap string string :=
  if bool_decide (pluginType plugin = "static")
  then foldl (λ acc placeholder, <[placeholder := loadingText plugin]> acc)
             values (systemPromptPlaceholders plugin)
  else values.

(** What [initializeStaticPlugins] does before it returns.  [pluginValues] is
    what [this.plugins.values()] yields, in the order of the map.  The first
    refresh of each static plugin is started here and writes to the table
    later, when its child has ended: it is a call of
    [_updateStaticPluginValue] made on the state this function leaves.  The
    scheduled refreshes are such calls as well; the schedule itself is not
    part of the model. *)
Definition initializeStaticPlugins (pluginValues : list manifest)
    (pm : PluginManager) : PluginManager :=
  set_staticPlaceholderValues (λ values, foldl setLoading values pluginValues) pm.

(** ** [executeMessagePreprocessor] *)



(** ** The environment of a child ([executePlugin]) *)

(** [String(value)] for a value of the effective configuration. *)
Definition envText (v : config_value) : option string :=
  match v with
  | CUndefined => None
  | CInt n => Some (Js.numberText n)
  | CBool true => Some "true"
  | CBool false => Some "false"
  | CStr s => Some s
  end.

(** Truthiness of a value of the effective configuration. *)
Definition configTruthy (v : config_value) : bool :=
  match v with
  | CUndefined => false
  | CInt (Js.Zero _) => false
  | CInt _ => true
  | CBool b => b
  | CStr s => Js.truthy s
  end.

(** [{ ...process.env }] with every defined value of the effective
    configuration written over it. *)
Definition envForProcess (globalEnv : gmap string string)
    (pluginConfig : gmap string config_value) : gmap string string :=
  omap envText pluginConfig ∪ globalEnv.

(** [additionalEnv], built in the order of the source. *)
Definition additionalEnv (globalEnv : gmap string string) (pm : PluginManager)
    (projectBasePath : option string) (plugin : manifest) (pluginName : string)
    (requestIp : option string) : gmap string string :=
  let pluginConfig := _getPluginConfig globalEnv plugin in
  let env1 : gmap string string :=
    if truthyText projectBasePath
    then {["PROJECT_BASE_PATH" := default EmptyString projectBasePath]}
    else ∅ in
  let env2 :=
    if truthyText requestIp
    then <["VCP_REQUEST_IP" := default EmptyString requestIp]> env1
    else env1 in
  let env3 :=
    if truthyText (globalEnv !! "PORT")
    then <["SERVER_PORT" := default EmptyString (globalEnv !! "PORT")]> env2
    else env2 in
  let env4 :=
    match getResolvedPluginConfigValue globalEnv pm "ImageServer" "Image_Key" with
    | Some imageServerKey =>
        if configTruthy imageServerKey
        then <["IMAGESERVER_IMAGE_KEY" :=
                 default EmptyString (envText imageServerKey)]> env3
        else env3
    | None => env3
    end in
  let env5 :=
    if bool_decide (pluginType plugin = "asynchronous") then
      let callbackBaseUrl :=
        match pluginConfig !! "CALLBACK_BASE_URL" with
        | Some v => if configTruthy v then envText v
                    else globalEnv !! "CALLBACK_BASE_URL"
        | None => globalEnv !! "CALLBACK_BASE_URL"
        end in
      <["PLUGIN_NAME_FOR_CALLBACK" := pluginName]>
        (if truthyText callbackBaseUrl
         then <["CALLBACK_BASE_URL" := default EmptyString callbackBaseUrl]> env4
         else env4)
    else env4 in
  <["PYTHONIOENCODING" := "utf-8"]> env5.

(** [{ ...envForProcess, ...additionalEnv }]: the environment of the child. *)
Definition finalEnv (globalEnv : gmap string string) (pm : PluginManager)
    (projectBasePath : option string) (plugin : manifest) (pluginName : string)
    (requestIp : option string) : gmap string string :=
  additionalEnv globalEnv pm projectBasePath plugin pluginName requestIp
  ∪ envForProcess globalEnv (_getPluginConfig globalEnv plugin).

(** ** [VCPClient.sendRequest] and [AgentController] *)

Module Client.

Record http_request := {
  url : string;
  authorization : string;
  requestBody : string
}.

(** A response; reading its body does not fail. *)
Record http_response := {
  ok : bool;
  status : Z;
  responseBody : string
}.

(** What [fetch] comes to: it rejects, or it gives a response. *)
Inductive fetch_reply :=
| FetchRejects (message : string)
| FetchResponds (response : http_response).

Record VCPClient := {
  serverUrl : string;
  apiKey : option string;
  apiUrl : string
}.

(** How a call of the client or of the controller ends; the value [None] is
    [undefined]. *)
Inductive reply :=
| Replies (value : option json)
| Fails (e : thrown).

(** The message of the [SyntaxError] of the engine is not modelled. *)
Definition syntaxError : thrown := ErrorText "SyntaxError".

(** [JSON.stringify({ model, messages, stream })] *)
Definition requestOf (client : VCPClient) (messages : json) (model : string)
    (stream : bool) : http_request :=
  {| url := apiUrl client;
     authorization := "Bearer " ++ default "undefined" (apiKey client);
     requestBody :=
       Json.stringify (JObj [("model", JStr model); ("messages", messages);
                             ("stream", JBool stream)]) |}.

(** [v.k] for a value [v] that is neither [null] nor [undefined]. *)
Definition property (k : string) (v : json) : option json := Json.field k v.

Definition sendRequest (fetch : http_request → fetch_reply) (client : VCPClient)
    (messages : json) (model : string) (stream : bool) : reply :=
  match fetch (requestOf client messages model stream) with
  | FetchRejects message => Fails (ErrorText message)
  | FetchResponds response =>
      if negb (ok response) then
        Fails (ErrorText ("VCP Server returned an error: " ++ pretty (status response)))
      else if stream then Replies (Some (JStr (responseBody response)))
      else
        match Json.parse (responseBody response) with
        | None => Fails syntaxError
        | Some JNull => Fails typeError
        | Some jsonResponse =>
            match property "choices" jsonResponse with
            | Some choices =>
                if Json.truthy choices then
                  match property "message" choices with
                  | Some message =>
                      if Json.truthy message
                      then Replies (property "content" message)
                      else Replies (Some jsonResponse)
                  | None => Replies (Some jsonResponse)
                  end
                else Replies (Some jsonResponse)
            | None => Replies (Some jsonResponse)
            end
        end
  end.

End Client.

Module Agent.
Import Client.

Record AgentController := {
  agentName : string;
  groupName : string;
  vcpClient : VCPClient;
  isOrchestratorController : bool
}.

(** [_getLLMResponse]: an error of the client becomes a text. *)
Definition _getLLMResponse (fetch : http_request → fetch_reply)
    (agent : AgentController) (prompt : string) : option json :=
  let messages := JArr [JObj [("role", JStr "user"); ("content", JStr prompt)]] in
  let modelToUse :=
    if isOrchestratorController agent then "OrchestratorLLM" else agentName agent in
  match sendRequest fetch (vcpClient agent) messages modelToUse false with
  | Replies result => result
  | Fails e =>
      Some (JStr ("(Error: Could not get a response from the language model: "
                    ++ messageOf e ++ ")"))
  end.

(** [decide]: an agent that is no orchestrator answers [null] when the
    response is the word "pass". *)
Definition decide (fetch : http_request → fetch_reply) (agent : AgentController)
    (instruction : string) : reply :=
  let response := _getLLMResponse fetch agent instruction in
  if negb (isOrchestratorController agent) && Json.truthy_opt response then
    match response with
    | Some (JStr text) =>
        if bool_decide (Js.toLowerCase (Js.trim text) = "pass")
        then Replies (Some JNull)
        else Replies response
    | _ => Fails typeError    (* [response.trim] is no function *)
    end
  else Replies response.

End Agent.

(** ** [getPreprocessorOrder] and [hotReloadPluginsAndOrder] *)

Module Info.

(** An entry of the list that [getPreprocessorOrder] returns. *)
Record preprocessor_info := {
  name : string;
  displayName : option string;
  description : option string
}.

End Info.

(** [getPreprocessorOrder]; [description] stands for the [description]
    property of a manifest, which the record of the manifest does not
    hold. *)
Definition getPreprocessorOrder (description : manifest → option string)
    (pm : PluginManager) : list Info.preprocessor_info :=
  map (λ pluginName,
         match plugins pm !! pluginName with
         | Some m =>
             {| Info.name := pluginName;
                Info.displayName := displayName m;
                Info.description := description m |}
         | None =>
             {| Info.name := pluginName;
                Info.displayName := Some pluginName;
                Info.description := Some "N/A" |}
         end)
      (preprocessorOrder pm).

(** [hotReloadPluginsAndOrder]: a load, and then the order; with the value
    returned come the manager and the order file as the load leaves them. *)
Definition hotReloadPluginsAndOrder (description : manifest → option string)
    (fs : file_system) (pm : PluginManager)
  : list Info.preprocessor_info * PluginManager * order_file :=
  let '(loaded, file) := loadPlugins fs pm in
  (getPreprocessorOrder description loaded, loaded, file).

(** The value a refresh leaves under a declared placeholder, from the value
    found there. *)
Definition refreshed (pluginName : string) (outcome : static_outcome)
    (prior : option string) : string :=
  match outcome, prior with
  | StaticResolved newValue, _ =>
      if Js.truthy (Js.trim newValue) then Js.trim newValue
      else default (unavailableSentinel pluginName) prior
  | StaticRejected message, None => errorSentinel pluginName message
  | StaticRejected message, Some v =>
      if negb (Js.truthy v) || Js.startsWith "[Error" v
      then errorSentinel pluginName message
      else v
  end.

(** The reconciled order in the words of the specification: the saved names
    that were discovered, each once, in the saved order, and then the
    discovered names that the saved order lacks, sorted. *)
Fixpoint firsts (names : list string) : list string :=
  match names with
  | [] => []
  | n :: rest => n :: filter (λ x, x ≠ n) (firsts rest)
  end.

Definition keptNames (saved discovered : list string) : list string :=
  firsts (filter (λ n, n ∈ discovered) saved).

Definition newNames (saved discovered : list string) : list string :=
  sortNames (filter (λ n, n ∉ saved) discovered).

(** Every entry of the map is stored under its own name. *)
Definition keyedByName (known : gmap string manifest) : Prop :=
  ∀ key m, known !! key = Some m → name m = key.

(** How often the child is reported to have exited. *)
Definition isExit (ev : process_event) : bool :=
  match ev with
  | ProcessExit _ _ => true
  | _ => false
  end.

Definition exitCount (events : list process_event) : nat :=
  length (filter (λ ev, isExit ev = true) events).

Definition isData (ev : process_event) : bool :=
  match ev with
  | StdoutData _ | StderrData _ => true
  | _ => false
  end.

(** Everything the child wrote to its standard output, and to its standard
    error. *)
Fixpoint stdoutOf (events : list process_event) : string :=
  match events with
  | [] => EmptyString
  | StdoutData data :: rest => data ++ stdoutOf rest
  | _ :: rest => stdoutOf rest
  end.

Fixpoint stderrOf (events : list process_event) : string :=
  match events with
  | [] => EmptyString
  | StderrData data :: rest => data ++ stderrOf rest
  | _ :: rest => stderrOf rest
  end.

(** The closure variables when a child that wrote [out] and [err] has exited
    and nothing has settled the promise before. *)
Definition atExit (out err : string) : execution :=
  {| outputBuffer := out; errorOutput := err;
     processExited := true; initialResponseSent := false;
     timerOff := true; killed := false; settlements := [] |}.

(** The number of calls of [resolve] still to come: none after the
    acknowledgement, one for each exit once the child has exited, and at most
    one otherwise when the child exits at most once. *)
Definition resolveBudget (ex : execution) (events : list process_event) : nat :=
  if initialResponseSent ex then 0
  else if processExited ex then exitCount events
  else max 1 (exitCount events).

(** The child is known to have ended, or the call to have been answered:
    [processExited] or [initialResponseSent] is set, or the timer is off. *)
Definition ended (ex : execution) : bool :=
  processExited ex || initialResponseSent ex || timerOff ex.

(** The event says that the child has ended, or that the time is up. *)
Definition isFinal (ev : process_event) : bool := negb (isData ev).

(** What the scan keeps true of its state: the names of the discovered
    preprocessors are distinct, each of them is the name of a scanned
    preprocessor plugin with a direct script, its module has
    [processMessages], and every service module belongs to a scanned service
    plugin. *)
Definition scanInvariant (st : scan_state) : Prop :=
  NoDup (discoveredPreprocessors st).*1
  ∧ (∀ n md, (n, md) ∈ discoveredPreprocessors st →
       has_processMessages md = true
       ∧ ∃ m, scanned st !! n = Some m ∧ isPreprocessor m = true
              ∧ directScript m = true)
  ∧ (∀ n m md, services st !! n = Some (m, md) →
       scanned st !! n = Some m ∧ isService m = true).

(** The value carries a timestamp: it is an object with a [timestamp]
    property, or an array (on which the property set by the dispatcher is
    lost when the value is written as JSON). *)
Definition stamped (v : json) : Prop :=
  match v with
  | JObj fields => is_Some (Json.obj_get "timestamp" fields)
  | JArr _ => True
  | _ => False
  end.

(** The names that [executePlugin] sets in the environment of a child
    itself. *)
Definition reservedNames : list string :=
  ["PROJECT_BASE_PATH"; "VCP_REQUEST_IP"; "SERVER_PORT"; "IMAGESERVER_IMAGE_KEY";
   "CALLBACK_BASE_URL"; "PLUGIN_NAME_FOR_CALLBACK"; "PYTHONIOENCODING"].

(** The request an agent sends for an instruction. *)
Definition requestFor (agent : Agent.AgentController) (instruction : string)
  : Client.http_request :=
  Client.requestOf (Agent.vcpClient agent)
    (JArr [JObj [("role", JStr "user"); ("content", JStr instruction)]])
    (if Agent.isOrchestratorController agent then "OrchestratorLLM"
     else Agent.agentName agent)
    false.

(** The plugin directory with another order file. *)
Definition withOrderFile (file : order_file) (fs : file_system) : file_system :=
  {| PLUGIN_DIR := PLUGIN_DIR fs; pluginFolders := pluginFolders fs;
     orderFile := file; orderFileWritable := orderFileWritable fs |}.

(** What follows the first name in the text of [stringify_names]. *)
Fixpoint namesTail (names : list string) : string :=
  match names with
  | [] => String "010" "]"
  | n :: rest => "," ++ String "010" "  " ++ Json.quote n ++ namesTail rest
  end.

(** The stdout handler takes the buffer for an acknowledgement: the text it
    picks from the buffer parses as JSON with status "success" or "error". *)
Definition acknowledges (buffer : string) : bool :=
  match potentialJsonMatch buffer with
  | Some jsonString =>
      match Json.parse jsonString with
      | Some parsedOutput => statusOk parsedOutput
      | None => false
      end
  | None => false
  end.

(** The buffers the stdout handler sees while the events arrive, starting
    from the buffer [buffer]. *)
Fixpoint buffersSeen (buffer : string) (events : list process_event) : list string :=
  match events with
  | [] => []
  | StdoutData data :: rest => (buffer ++ data) :: buffersSeen (buffer ++ data) rest
  | _ :: rest => buffersSeen buffer rest
  end.

(** * Sample inputs *)

Definition sampleEntry : entry_point :=
  {| command := "node main.js"; script := EmptyString |}.

(** A static plugin that declares one placeholder and two typed keys. *)
Definition weatherReporter : manifest :=
  {| name := "WeatherReporter";
     displayName := Some "Weather";
     pluginType := "static";
     entryPoint := Some sampleEntry;
     communication := Some {| protocol := "stdio"; timeout := None |};
     systemPromptPlaceholders := ["{{VCPWeatherInfo}}"];
     configSchema := list_to_map [("Retries", "integer"); ("Verbose", "boolean")];
     pluginSpecificEnvConfig :=
       list_to_map [("Retries", "three"); ("Verbose", "TRUE"); ("API_KEY", "k-1")];
     basePath := Some "Plugin/WeatherReporter";
     isDistributed := false;
     serverId := None |}.

(** A remote node pushed an empty value for the placeholder. *)
Definition emptyPush : PluginManager :=
  updateDistributedStaticPlaceholders "S1" "node-1"
    [("{{VCPWeatherInfo}}", EmptyString)] constructor.

(** A tool as a remote node announces it. *)
Definition announced (toolName : string) : manifest :=
  {| name := toolName;
     displayName := None;
     pluginType := "synchronous";
     entryPoint := Some sampleEntry;
     communication := Some {| protocol := "stdio"; timeout := None |};
     systemPromptPlaceholders := [];
     configSchema := ∅;
     pluginSpecificEnvConfig := ∅;
     basePath := None;
     isDistributed := false;
     serverId := None |}.

(** The fifth scenario of the specification: session [S1] announces the tools
    [T1] and [T2] and pushes the placeholder [PH1]. *)
Definition sessionS1 : PluginManager :=
  updateDistributedStaticPlaceholders "S1" "node-1" [("PH1", "v")]
    (registerDistributedTools "S1" [announced "T1"; announced "T2"] constructor).

(** A plugin directory entry that holds a synchronous stdio plugin. *)
Definition toolFolder (toolName : string) : plugin_folder :=
  {| folder_name := toolName;
     is_directory := true;
     manifest_json := Some (announced toolName);
     config_env := None;
     script_module := None |}.

Definition preprocessorModule (modulePath : string) : plugin_module :=
  {| module_path := modulePath; has_initialize := true;
     initialize_throws := false; has_processMessages := true;
     has_processToolCall := false |}.

(** A plugin directory entry that holds a message preprocessor. *)
Definition preprocessorFolder (pluginName : string) : plugin_folder :=
  {| folder_name := pluginName;
     is_directory := true;
     manifest_json :=
       Some {| name := pluginName;
               displayName := None;
               pluginType := "messagePreprocessor";
               entryPoint := Some {| command := EmptyString; script := "index.js" |};
               communication := Some {| protocol := "direct"; timeout := None |};
               systemPromptPlaceholders := [];
               configSchema := ∅;
               pluginSpecificEnvConfig := ∅;
               basePath := None;
               isDistributed := false;
               serverId := None |};
     config_env := None;
     script_module := Some (preprocessorModule pluginName) |}.

Definition directory (folders : list plugin_folder) (file : order_file) : file_system :=
  {| PLUGIN_DIR := "Plugin"; pluginFolders := Some folders;
     orderFile := file; orderFileWritable := true |}.

(** The manager loads a directory that holds the local plugin [Old]; then a
    remote session registers [T1]. *)
Definition beforeReload : PluginManager :=
  registerDistributedTools "S1" [announced "T1"]
    (loadPlugins (directory [toolFolder "Old"] OrderMissing) constructor).1.

(** Meanwhile the directory has lost [Old] and gained [New]. *)
Definition changedDirectory : file_system :=
  directory [toolFolder "New"] OrderMissing.

(** Session [S1] registers the tool [T1] with a manager that has no plugin
    of that name. *)
Definition remoteFirst : PluginManager :=
  registerDistributedTools "S1" [announced "T1"] constructor.

(** The plugin directory holds a local plugin named [T1]. *)
Definition collidingDirectory : file_system :=
  directory [toolFolder "T1"] OrderMissing.

(** The states the manager can be in: those the operations produce from the
    state the constructor leaves. *)
Inductive reachable : PluginManager → Prop :=
| reach_constructor : reachable constructor
| reach_loadPlugins fs pm :
    reachable pm → reachable (loadPlugins fs pm).1
| reach_register sid tools pm :
    reachable pm → reachable (registerDistributedTools sid tools pm)
| reach_unregister sid pm :
    reachable pm → reachable (unregisterAllDistributedTools sid pm)
| reach_push sid serverName placeholders pm :
    reachable pm →
    reachable (updateDistributedStaticPlaceholders sid serverName placeholders pm)
| reach_refresh plugin outcome pm :
    reachable pm → reachable (_updateStaticPluginValue plugin outcome pm).

(** The fourth scenario of the specification: the order file lists [B], [A]
    and [C]; the directory holds the preprocessors [A], [B] and [D]. *)
Definition savedBAC : string := Js.lit "['B','A','C']".

Definition scenarioFour : file_system :=
  directory [preprocessorFolder "A"; preprocessorFolder "B"; preprocessorFolder "D"]
            (OrderContent savedBAC).

Definition newline : string := String "010" EmptyString.

(** The third scenario of the specification: the acknowledgement, and what
    the child writes later. *)
Definition queuedAck : string :=
  Js.lit "{'status':'success','result':'queued'}" ++ newline.

Definition queuedRun : list process_event :=
  [StdoutData queuedAck;
   StdoutData (Js.lit "{'status':'error','error':'late'}" ++ newline);
   ProcessExit (Some 0%Z) None].

(** An acknowledgement printed with indentation: its inner object closes
    before a line break. *)
Definition indentedAck : string :=
  "{" ++ newline
  ++ Js.lit "  'status': 'success'," ++ newline
  ++ Js.lit "  'result': {" ++ newline
  ++ Js.lit "    'taskId': 't1'" ++ newline
  ++ "  }" ++ newline
  ++ "}" ++ newline.

(** A synchronous child that prints no JSON, writes a diagnosis to its
    standard error and exits with code 0. *)
Definition silentFailure : list process_event :=
  [StdoutData "starting"; StderrData "ModuleNotFoundError: requests";
   ProcessExit (Some 0%Z) None].

(** The same child, exiting with code 1. *)
Definition loudFailure : list process_event :=
  [StdoutData "starting"; StderrData "ModuleNotFoundError: requests";
   ProcessExit (Some 1%Z) None].

(** The sixth scenario of the specification, with two images.  The plugin
    reads [image_url_1] and [image_url_2] and reports the first of them as
    not found locally; given neither, it succeeds. *)
Definition imageManager : PluginManager :=
  (loadPlugins (directory [toolFolder "ImageTool"] OrderMissing) constructor).1.

Definition missingFile (url param : string) : string :=
  Js.lit "{'status':'error','code':'FILE_NOT_FOUND_LOCALLY','error':'not found locally','fileUrl':'"
    ++ url ++ Js.lit "','failedParameter':'" ++ param ++ Js.lit "'}".

Definition exitsWith (output : string) (code : Z) : child_process :=
  {| stdinError := None;
     events := [StdoutData output; ProcessExit (Some code) None] |}.

Definition imageTool (input : option string) : child_process :=
  let args :=
    match input with
    | Some text => default (JObj []) (Json.parse text)
    | None => JObj []
    end in
  match Json.field "image_url_1" args, Json.field "image_url_2" args with
  | Some (JStr url), _ => exitsWith (missingFile url "image_url_1") 1
  | _, Some (JStr url) => exitsWith (missingFile url "image_url_2") 1
  | _, _ =>
      exitsWith (Js.lit "{'status':'success','result':'two images described'}") 0
  end.

(** A plugin that reports the same file as missing whatever it is given. *)
Definition stubbornTool (input : option string) : child_process :=
  exitsWith (missingFile "file:///img/a.png" "image_url_1") 1.

(** The node [S1] at 10.0.0.7 serves every file asked of it; nothing is
    cached or readable locally.  The clock advances one second per
    interaction. *)
Definition servedBy (path : string) (n : nat) : fetch_io :=
  {| now := 1000 * Z.of_nat n; nowAtCheck := 1000 * Z.of_nat n;
     nowAtFailure := 1000 * Z.of_nat n;
     filePath := inl path; mimeOfPath := Some "image/png";
     cachedRead := ReadMissing; localRead := ReadMissing;
     serverLinked := true; serverOfIp := Some "S1";
     remoteReply := RemoteFile "iVBORw0KGgo=" None |}.

Definition surroundings (plugin : option string → child_process) : world :=
  {| wsLinked := true;
     distributedTool := λ _ _ _ _, Pending;
     chromeCommand := λ _ _ _, Pending;
     serviceCall := λ _ _ _, Pending;
     child := λ _ _ input, plugin input;
     fetchIo := λ n, servedBy (if (n <=? 1)%nat then "/img/a.png" else "/img/b.png") n;
     localTimestamp := λ _, "2026-01-01T12:00:00.000+08:00" |}.

Definition idle : dispatcher :=
  {| ticks := 0;
     fileFetcher := {| recentRequests := ∅; failedFetchCache := ∅ |};
     executions := [] |}.

Definition twoImages : list (string * json) :=
  [("image_url_1", JStr "file:///img/a.png");
   ("image_url_2", JStr "file:///img/b.png");
   ("prompt", JStr "describe")].

(** The arguments of the first retry in that scenario. *)
Definition afterFirstFetch : list (string * json) :=
  [("image_url_2", JStr "file:///img/b.png");
   ("prompt", JStr "describe");
   ("image_base64_1", JStr "data:image/png;base64,iVBORw0KGgo=")].

Definition afterSecondFetch : list (string * json) :=
  [("prompt", JStr "describe");
   ("image_base64_1", JStr "data:image/png;base64,iVBORw0KGgo=");
   ("image_base64_2", JStr "data:image/png;base64,iVBORw0KGgo=")].

(** Two sessions, each with one tool. *)
Definition twoSessions : PluginManager :=
  registerDistributedTools "S2" [announced "T3"]
    (registerDistributedTools "S1" [announced "T1"] constructor).

(** The node [S1] answers that it has no such file. *)
Definition refusedBy (path : string) (n : nat) : fetch_io :=
  {| now := 1000 * Z.of_nat n; nowAtCheck := 1000 * Z.of_nat n;
     nowAtFailure := 1000 * Z.of_nat n;
     filePath := inl path; mimeOfPath := Some "image/png";
     cachedRead := ReadMissing; localRead := ReadMissing;
     serverLinked := true; serverOfIp := Some "S1";
     remoteReply := RemoteRefusal "no such file" |}.

Definition noRequests : fetcher :=
  {| recentRequests := ∅; failedFetchCache := ∅ |}.

(** A child that writes a line and then hangs until the timer fires. *)
Definition hangingChild : child_process :=
  {| stdinError := None;
     events := [StdoutData "working"; TimerFires;
                ProcessExit None (Some "SIGKILL")] |}.

(** A child whose standard input is closed. *)
Definition closedInput : child_process :=
  {| stdinError := Some "write EPIPE";
     events := [ProcessExit (Some 1%Z) None] |}.

(** The weather reporter prints its report and a warning. *)
Definition weatherChild : child_process :=
  {| stdinError := None;
     events := [StdoutData " sunny, 21 C"; StderrData "cache miss";
                StdoutData newline; ProcessExit (Some 0%Z) None;
                StdoutData "late"] |}.

(** White space outside ASCII, by the bytes of its UTF-8 form: U+00A0,
    U+3000 and U+FEFF. *)
Definition noBreakSpace : string := String "194" (String "160" EmptyString).
Definition ideographicSpace : string :=
  String "227" (String "128" (String "128" EmptyString)).
Definition byteOrderMark : string :=
  String "239" (String "187" (String "191" EmptyString)).

(** The weather reporter prints one character between an ideographic space
    and a no-break space. *)
Definition paddedChild : child_process :=
  {| stdinError := None;
     events := [StdoutData (ideographicSpace ++ "晴" ++ noBreakSpace);
                ProcessExit (Some 0%Z) None] |}.

(** The weather reporter is killed from outside. *)
Definition killedChild : child_process :=
  {| stdinError := None;
     events := [StdoutData "sun"; ProcessExit None (Some "SIGKILL"); TimerFires] |}.

(** A server that answers every request with a chat completion. *)
Definition completion : string :=
  Js.lit "{'id':'c1','choices':[{'message':{'role':'assistant','content':'pass'}}]}".

Definition chatServer (request : Client.http_request) : Client.fetch_reply :=
  Client.FetchResponds
    {| Client.ok := true; Client.status := 200; Client.responseBody := completion |}.

Definition groupClient : Client.VCPClient :=
  {| Client.serverUrl := "http://localhost:6005";
     Client.apiKey := Some "k";
     Client.apiUrl := "http://localhost:6005/v1/chat/completions" |}.

Definition nova : Agent.AgentController :=
  {| Agent.agentName := "Nova"; Agent.groupName := "lab";
     Agent.vcpClient := groupClient; Agent.isOrchestratorController := false |}.


(** * Properties *)

#[local] Set Warnings "-clear-no-such-hyp".

(** ** Effective configuration *)

Lemma schema_config_lookup (globalEnv : gmap string string) (m : manifest)
    (key : string) :
  map_imap (λ key expectedType,
              coerce expectedType
                <$> rawValue (pluginSpecificEnvConfig m) globalEnv key)
           (configSchema m) !! key
  = configSchema m !! key ≫= λ expectedType,
      coerce expectedType <$> rawValue (pluginSpecificEnvConfig m) globalEnv key.
Proof. by rewrite map_lookup_imap. Qed.

Lemma getPluginConfig_other_key (globalEnv : gmap string string) (m : manifest)
    (key : string) :
  key ≠ "DebugMode" →
  _getPluginConfig globalEnv m !! key
  = configSchema m !! key ≫= λ expectedType,
      coerce expectedType <$> rawValue (pluginSpecificEnvConfig m) globalEnv key.
Proof.
  intros Hkey. unfold _getPluginConfig.
  repeat case_match; rewrite ?lookup_insert_ne by done;
    apply schema_config_lookup.
Qed.

Lemma getPluginConfig_DebugMode (globalEnv : gmap string string) (m : manifest) :
  _getPluginConfig globalEnv m !! "DebugMode"
  = Some (CBool (match rawValue (pluginSpecificEnvConfig m) globalEnv "DebugMode" with
                 | Some raw => isTrue raw
                 | None => false
                 end)).
Proof.
  unfold _getPluginConfig, rawValue.
  destruct (pluginSpecificEnvConfig m !! "DebugMode") as [v|] eqn:Hown.
  { by rewrite lookup_insert_eq. }
  destruct (globalEnv !! "DebugMode") as [v|] eqn:Henv.
  { by rewrite lookup_insert_eq. }
  case_match eqn:Hcfg.
  - rewrite map_lookup_imap in Hcfg. unfold rawValue in Hcfg.
    rewrite Hown, Henv in Hcfg. by destruct (configSchema m !! "DebugMode").
  - by rewrite lookup_insert_eq.
Qed.

(** C8, as amended: a key declared in [configSchema], other than [DebugMode],
    takes the first defined of the plugin's own value and the process
    environment's, coerced by the declared type (an integer that does not
    parse gives [undefined], one that parses gives the Number that [parseInt]
    returns; a boolean is true exactly for the text "true" in any case); a
    key that is not declared has no effective value; and [DebugMode] always
    has a boolean value, false when neither source defines it. *)
Theorem getPluginConfig_effective (globalEnv : gmap string string) (m : manifest) :
  (∀ key expectedType,
      key ≠ "DebugMode" → configSchema m !! key = Some expectedType →
      _getPluginConfig globalEnv m !! key
      = coerce expectedType <$> rawValue (pluginSpecificEnvConfig m) globalEnv key)
  ∧ (∀ key, key ≠ "DebugMode" → configSchema m !! key = None →
       _getPluginConfig globalEnv m !! key = None)
  ∧ _getPluginConfig globalEnv m !! "DebugMode"
    = Some (CBool (match rawValue (pluginSpecificEnvConfig m) globalEnv "DebugMode" with
                   | Some raw => isTrue raw
                   | None => false
                   end))
  ∧ (∀ raw, Js.parseInt raw = None → coerce "integer" raw = CUndefined)
  ∧ (∀ raw n, Js.parseInt raw = Some n → coerce "integer" raw = CInt n)
  ∧ (∀ raw, coerce "boolean" raw = CBool true ↔ Js.toLowerCase raw = "true").
Proof.
  split_and!.
  - intros key ty Hkey Hty. rewrite getPluginConfig_other_key by done.
    by rewrite Hty.
  - intros key Hkey Hty. rewrite getPluginConfig_other_key by done.
    by rewrite Hty.
  - apply getPluginConfig_DebugMode.
  - intros raw Hnan. unfold coerce. simpl. by rewrite Hnan.
  - intros raw n Hn. unfold coerce. simpl. by rewrite Hn.
  - intros raw. unfold coerce, isTrue. simpl. split.
    + intros [= H]. by apply bool_decide_eq_true in H.
    + intros H. by rewrite bool_decide_eq_true_2.
Qed.

(** C8, as the claim states it, fails for a key that [configSchema] does not
    declare: the plugin's own configuration defines [API_KEY], and the
    effective configuration has no value for it. *)
Lemma getPluginConfig_undeclared_key :
  rawValue (pluginSpecificEnvConfig weatherReporter) ∅ "API_KEY" = Some "k-1"
  ∧ _getPluginConfig ∅ weatherReporter !! "API_KEY" = None.
Proof. split; reflexivity. Qed.

(** A declared integer is the double nearest to what is written, and is
    handed on as [String] prints that double. *)
Example integer_is_a_double :
  coerce "integer" "9007199254740993" = CInt (Js.Double false (2 ^ 52) 1)
  ∧ Js.numberText (Js.Double false (2 ^ 52) 1) = "9007199254740992"
  ∧ (Js.numberText <$> Js.parseInt "1000000000000000000000") = Some "1e+21"
  ∧ (Js.numberText <$> Js.parseInt "1152921504606846976")
    = Some "1152921504606847000"
  ∧ (Js.numberText <$> Js.parseInt " -42px") = Some "-42"
  ∧ Js.parseInt "px" = None.
Proof. split_and!; vm_compute; reflexivity. Qed.

Example getPluginConfig_sample :
  _getPluginConfig ∅ weatherReporter !! "Retries" = Some CUndefined
  ∧ _getPluginConfig ∅ weatherReporter !! "Verbose" = Some (CBool true)
  ∧ _getPluginConfig ∅ weatherReporter !! "DebugMode" = Some (CBool false).
Proof. repeat split; reflexivity. Qed.

(** ** Refresh of a static plugin *)

#[local] Arguments errorSentinel : simpl never.
#[local] Arguments unavailableSentinel : simpl never.

Lemma updatePlaceholder_lookup (pluginName : string) (outcome : static_outcome)
    (values : gmap string string) (placeholderKey key : string) :
  updatePlaceholder pluginName outcome values placeholderKey !! key
  = if decide (key = placeholderKey)
    then Some (refreshed pluginName outcome (values !! key))
    else values !! key.
Proof.
  unfold updatePlaceholder, refreshed.
  destruct (decide (key = placeholderKey)) as [->|Hne].
  - destruct outcome; repeat case_match; simplify_eq/=;
      rewrite ?lookup_insert_eq; try done; congruence.
  - destruct outcome; repeat case_match;
      rewrite ?lookup_insert_ne by done; done.
Qed.

Lemma errorSentinel_is_error (pluginName message : string) :
  Js.startsWith "[Error" (errorSentinel pluginName message) = true.
Proof. reflexivity. Qed.

(** Refreshing twice with the same outcome is refreshing once: a placeholder
    that a plugin declares twice ends as one that it declares once. *)
Lemma refreshed_idempotent (pluginName : string) (outcome : static_outcome)
    (prior : option string) :
  refreshed pluginName outcome (Some (refreshed pluginName outcome prior))
  = refreshed pluginName outcome prior.
Proof.
  destruct outcome as [newValue|message]; simpl.
  - by destruct (Js.truthy (Js.trim newValue)).
  - destruct prior as [v|]; simpl; [|done].
    destruct (negb (Js.truthy v) || Js.startsWith "[Error" v) eqn:Hv; simpl.
    + done.
    + by rewrite Hv.
Qed.

Lemma update_fold_lookup (pluginName : string) (outcome : static_outcome)
    (keys : list string) (values : gmap string string) (key : string) :
  foldl (updatePlaceholder pluginName outcome) values keys !! key
  = if decide (key ∈ keys)
    then Some (refreshed pluginName outcome (values !! key))
    else values !! key.
Proof.
  revert values. induction keys as [|k keys IH]; intros values; simpl.
  - done.
  - rewrite IH, updatePlaceholder_lookup.
    destruct (decide (key = k)) as [->|Hne].
    + rewrite (decide_True (P := k ∈ k :: keys)) by apply list_elem_of_here.
      destruct (decide (k ∈ keys)); [by rewrite refreshed_idempotent | done].
    + destruct (decide (key ∈ keys)) as [Hin|Hout].
      * by rewrite decide_True by (by apply list_elem_of_further).
      * by rewrite decide_False by (by intros [?|?]%elem_of_cons).
Qed.

Lemma updateStaticPluginValue_lookup (plugin : manifest) (outcome : static_outcome)
    (pm : PluginManager) (key : string) :
  staticPlaceholderValues (_updateStaticPluginValue plugin outcome pm) !! key
  = if decide (key ∈ systemPromptPlaceholders plugin)
    then Some (refreshed (name plugin) outcome (staticPlaceholderValues pm !! key))
    else staticPlaceholderValues pm !! key.
Proof. apply update_fold_lookup. Qed.

Lemma includes_here (t rest : string) : Js.includes t (t ++ rest) = true.
Proof.
  assert (String.prefix t (t ++ rest) = true) as H.
  { induction t as [|c t IH]; simpl.
    - by destruct rest.
    - by destruct (ascii_dec c c). }
  destruct (t ++ rest); simpl in *; by rewrite H.
Qed.

Lemma includes_later (t before rest : string) :
  Js.includes t rest = true → Js.includes t (before ++ rest) = true.
Proof.
  intros H. induction before as [|c before IH]; simpl; [done|].
  by rewrite IH, orb_true_r.
Qed.

(** What a refresh leaves under a placeholder that the plugin declares.
    Output that is not blank replaces the prior value, trimmed; a blank
    result installs the "data currently unavailable" text when the table has
    no entry, and keeps the entry otherwise (an empty one too); a failed
    execution installs the error text, which holds the plugin name and the
    first hundred code units of the message, when the table has no entry or
    the entry is empty or starts with "[Error", and keeps the value
    otherwise. *)
Theorem updateStaticPluginValue_rule (plugin : manifest) (pm : PluginManager)
    (key : string) :
  key ∈ systemPromptPlaceholders plugin →
  let before := staticPlaceholderValues pm !! key in
  let after outcome :=
    staticPlaceholderValues (_updateStaticPluginValue plugin outcome pm) !! key in
  (∀ output, Js.trim output ≠ EmptyString →
     after (StaticResolved output) = Some (Js.trim output))
  ∧ (∀ output, Js.trim output = EmptyString → before = None →
       after (StaticResolved output) = Some (unavailableSentinel (name plugin)))
  ∧ (∀ output v, Js.trim output = EmptyString → before = Some v →
       after (StaticResolved output) = Some v)
  ∧ (∀ message v,
       before = None ∨ before = Some EmptyString
       ∨ (before = Some v ∧ Js.startsWith "[Error" v = true) →
       after (StaticRejected message) = Some (errorSentinel (name plugin) message))
  ∧ (∀ message v,
       before = Some v → v ≠ EmptyString → Js.startsWith "[Error" v = false →
       after (StaticRejected message) = Some v)
  ∧ (∀ message,
       Js.includes (name plugin) (errorSentinel (name plugin) message) = true
       ∧ Js.includes (Js.substring0 100 message)
           (errorSentinel (name plugin) message) = true).
Proof.
  intros Hkey before after. subst before after. cbv beta.
  split_and!.
  - intros output Hout. rewrite updateStaticPluginValue_lookup, decide_True by done.
    simpl. by destruct (Js.trim output).
  - intros output Hout Hnone.
    rewrite updateStaticPluginValue_lookup, decide_True by done.
    simpl. by rewrite Hout, Hnone.
  - intros output v Hout Hsome.
    rewrite updateStaticPluginValue_lookup, decide_True by done.
    simpl. by rewrite Hout, Hsome.
  - intros message v Hprior.
    rewrite updateStaticPluginValue_lookup, decide_True by done.
    destruct Hprior as [->|[->|[-> Herr]]]; simpl; [done..|].
    by rewrite Herr, orb_true_r.
  - intros message v Hsome Hv Herr.
    rewrite updateStaticPluginValue_lookup, decide_True by done.
    rewrite Hsome. simpl. rewrite Herr. by destruct v.
  - intros message. unfold errorSentinel. split.
    + apply (includes_later _ "[Error updating "), includes_here.
    + apply (includes_later _ "[Error updating "),
        (includes_later _ (name plugin)), (includes_later _ ": "), includes_here.
Qed.

Lemma updateStaticPluginValue_rule_witness :
  "{{VCPWeatherInfo}}" ∈ systemPromptPlaceholders weatherReporter
  ∧ staticPlaceholderValues
      (_updateStaticPluginValue weatherReporter (StaticResolved " sunny ") constructor)
      !! "{{VCPWeatherInfo}}" = Some "sunny".
Proof.
  assert ("{{VCPWeatherInfo}}" ∈ systemPromptPlaceholders weatherReporter) as Hin.
  { apply list_elem_of_here. }
  split; [exact Hin|].
  apply (proj1 (updateStaticPluginValue_rule weatherReporter constructor
                  "{{VCPWeatherInfo}}" Hin)).
  discriminate.
Defined.

(** C3 fails on the code when the prior value is the empty string (here
    pushed by a remote node): the branch of the failed refresh tests the value
    for truth and overwrites it with the error text, although it is present
    and no error sentinel, while the branch of the empty result tests the
    table with [has], takes the same value for an existing one and installs
    no "unavailable" text.  The two branches disagree on what a prior value
    is. *)
Theorem updateStaticPluginValue_empty_prior :
  staticPlaceholderValues emptyPush !! "{{VCPWeatherInfo}}" = Some EmptyString
  ∧ Js.startsWith "[Error" EmptyString = false
  ∧ staticPlaceholderValues
      (_updateStaticPluginValue weatherReporter (StaticRejected "spawn ENOENT")
         emptyPush) !! "{{VCPWeatherInfo}}"
    = Some "[Error updating WeatherReporter: spawn ENOENT...]"
  ∧ staticPlaceholderValues
      (_updateStaticPluginValue weatherReporter (StaticResolved EmptyString)
         emptyPush) !! "{{VCPWeatherInfo}}"
    = Some EmptyString.
Proof. repeat split; reflexivity. Qed.

(** ** The manifest map: registration, eviction, reload *)

Lemma registerTool_keeps (sid : string) (known : gmap string manifest)
    (tool : manifest) (key : string) (m : manifest) :
  known !! key = Some m → registerTool sid known tool !! key = Some m.
Proof.
  intros Hkey. unfold registerTool.
  destruct (incomplete tool); [done|].
  destruct (known !! name tool) eqn:Hname; [done|].
  rewrite lookup_insert_ne; [done|]. congruence.
Qed.

Lemma registerTool_keyed (sid : string) (known : gmap string manifest)
    (tool : manifest) :
  keyedByName known → keyedByName (registerTool sid known tool).
Proof.
  intros Hkeyed key m. unfold registerTool.
  destruct (incomplete tool); [apply Hkeyed|].
  destruct (known !! name tool) eqn:Hname; [apply Hkeyed|].
  rewrite lookup_insert. case_decide as Heq.
  - intros [= <-]. by subst key.
  - apply Hkeyed.
Qed.

Lemma register_fold_keeps (sid : string) (tools : list manifest)
    (known : gmap string manifest) (key : string) (m : manifest) :
  known !! key = Some m → foldl (registerTool sid) known tools !! key = Some m.
Proof.
  revert known. induction tools as [|tool tools IH]; intros known Hkey; simpl.
  - done.
  - by apply IH, registerTool_keeps.
Qed.

Lemma register_fold_keyed (sid : string) (tools : list manifest)
    (known : gmap string manifest) :
  keyedByName known → keyedByName (foldl (registerTool sid) known tools).
Proof.
  revert known. induction tools as [|tool tools IH]; intros known Hkeyed; simpl.
  - done.
  - by apply IH, registerTool_keyed.
Qed.

Lemma scanFolder_keeps (dir : string) (st : scan_state) (folder : plugin_folder)
    (key : string) (m : manifest) :
  scanned st !! key = Some m → scanned (scanFolder dir st folder) !! key = Some m.
Proof.
  intros Hkey. unfold scanFolder.
  destruct (is_directory folder); simpl; [|done].
  destruct (manifest_json folder) as [parsed|]; [|done].
  destruct (incomplete parsed); [done|].
  destruct (scanned st !! name parsed) eqn:Hname; [done|].
  assert (name parsed ≠ key) by congruence.
  repeat case_match; simpl; by rewrite lookup_insert_ne.
Qed.

Lemma scanFolder_keyed (dir : string) (st : scan_state) (folder : plugin_folder) :
  keyedByName (scanned st) → keyedByName (scanned (scanFolder dir st folder)).
Proof.
  intros Hkeyed key m. unfold scanFolder.
  destruct (is_directory folder); simpl; [|apply Hkeyed].
  destruct (manifest_json folder) as [parsed|]; [|apply Hkeyed].
  destruct (incomplete parsed); [apply Hkeyed|].
  destruct (scanned st !! name parsed) eqn:Hname; [apply Hkeyed|].
  assert (∀ known : gmap string manifest,
            known = <[name parsed := located dir folder parsed]> (scanned st) →
            known !! key = Some m → name m = key) as Hins.
  { intros known ->. rewrite lookup_insert. case_decide as Heq.
    - intros [= <-]. by subst key.
    - apply Hkeyed. }
  repeat case_match; simpl; by apply Hins.
Qed.

Lemma scan_keeps (dir : string) (folders : list plugin_folder) (st : scan_state)
    (key : string) (m : manifest) :
  scanned st !! key = Some m →
  scanned (foldl (scanFolder dir) st folders) !! key = Some m.
Proof.
  revert st. induction folders as [|folder folders IH]; intros st Hkey; simpl.
  - done.
  - by apply IH, scanFolder_keeps.
Qed.

Lemma scan_keyed (dir : string) (folders : list plugin_folder) (st : scan_state) :
  keyedByName (scanned st) →
  keyedByName (scanned (foldl (scanFolder dir) st folders)).
Proof.
  revert st. induction folders as [|folder folders IH]; intros st Hkeyed; simpl.
  - done.
  - by apply IH, scanFolder_keyed.
Qed.

Lemma loadPlugins_plugins (fs : file_system) (pm : PluginManager) :
  plugins (loadPlugins fs pm).1
  = match pluginFolders fs with
    | None => plugins (resetForReload pm)
    | Some folders => scanned (scanAll (PLUGIN_DIR fs) (resetForReload pm) folders)
    end.
Proof. unfold loadPlugins. by destruct (pluginFolders fs). Qed.

Lemma resetForReload_lookup (pm : PluginManager) (key : string) (m : manifest) :
  plugins (resetForReload pm) !! key = Some m
  ↔ plugins pm !! key = Some m ∧ isDistributed m = false.
Proof. unfold resetForReload; simpl. by rewrite map_lookup_filter_Some. Qed.

(** A manifest that is not distributed stays in the map over a reload,
    whatever the plugin directory holds. *)
Lemma loadPlugins_keeps_local (fs : file_system) (pm : PluginManager)
    (key : string) (m : manifest) :
  plugins pm !! key = Some m → isDistributed m = false →
  plugins (loadPlugins fs pm).1 !! key = Some m.
Proof.
  intros Hkey Hlocal. rewrite loadPlugins_plugins.
  assert (plugins (resetForReload pm) !! key = Some m) as Hkept.
  { by apply resetForReload_lookup. }
  destruct (pluginFolders fs); [|done]. by apply scan_keeps.
Qed.

Lemma unregister_lookup (sid : string) (pm : PluginManager) (key : string)
    (m : manifest) :
  plugins (unregisterAllDistributedTools sid pm) !! key = Some m
  ↔ plugins pm !! key = Some m
    ∧ ¬ (isDistributed m = true ∧ serverId m = Some sid).
Proof.
  unfold unregisterAllDistributedTools; simpl. by rewrite map_lookup_filter_Some.
Qed.

Lemma reachable_keyed (pm : PluginManager) :
  reachable pm → keyedByName (plugins pm).
Proof.
  induction 1 as [|fs pm _ IH|sid tools pm _ IH|sid pm _ IH| |]; try done.
  - rewrite loadPlugins_plugins.
    assert (keyedByName (plugins (resetForReload pm))) as Hreset.
    { intros key m [Hkey _]%resetForReload_lookup. by apply IH. }
    destruct (pluginFolders fs); [|done]. by apply scan_keyed.
  - by apply register_fold_keyed.
  - intros key m [Hkey _]%unregister_lookup. by apply IH.
Qed.

(** In every state the manager can reach no two entries of the manifest map
    share a name; a distributed tool whose name is registered already leaves
    the map as it is, and so does a plugin folder that the scan meets under a
    name of its map: the scan of a reload starts from the manifests that are
    not distributed, and keeps those. *)
Lemma names_unique_first_seen_wins :
  (∀ pm, reachable pm →
     ∀ k1 k2 m1 m2,
       plugins pm !! k1 = Some m1 → plugins pm !! k2 = Some m2 →
       name m1 = name m2 → k1 = k2)
  ∧ (∀ sid tools pm key m,
       plugins pm !! key = Some m →
       plugins (registerDistributedTools sid tools pm) !! key = Some m)
  ∧ (∀ sid known tool,
       is_Some (known !! name tool) → registerTool sid known tool = known)
  ∧ (∀ dir folders st key m,
       scanned st !! key = Some m →
       scanned (foldl (scanFolder dir) st folders) !! key = Some m)
  ∧ (∀ dir st folder parsed,
       manifest_json folder = Some parsed → is_Some (scanned st !! name parsed) →
       scanFolder dir st folder = st)
  ∧ (∀ fs pm key m,
       plugins pm !! key = Some m → isDistributed m = false →
       plugins (loadPlugins fs pm).1 !! key = Some m).
Proof.
  split_and!.
  - intros pm Hreach k1 k2 m1 m2 H1 H2 Hname.
    apply reachable_keyed in Hreach.
    apply Hreach in H1, H2. congruence.
  - intros sid tools pm key m Hkey. by apply register_fold_keeps.
  - intros sid known tool [m Hm]. unfold registerTool.
    rewrite Hm. by destruct (incomplete tool).
  - intros dir folders st key m. apply scan_keeps.
  - intros dir st folder parsed Hparsed [m Hm]. unfold scanFolder.
    rewrite Hparsed, Hm. destruct (is_directory folder); simpl; [|done].
    by destruct (incomplete parsed).
  - intros fs pm key m. apply loadPlugins_keeps_local.
Qed.

Example first_registration_wins :
  (displayName <$> plugins (registerDistributedTools "S2" [announced "T1"] sessionS1) !! "T1")
  = Some (Some "[云端] T1")
  ∧ (serverId <$> plugins (registerDistributedTools "S2" [announced "T1"] sessionS1) !! "T1")
    = Some (Some "S1").
Proof. split; reflexivity. Qed.

(** C9 fails on the code: session [S1] has registered the tool [T1], and
    then a load finds a local plugin of that name in the directory.  The
    scan does skip a folder whose name is in its map, but the load has
    dropped the distributed entries before the scan starts: the remote [T1],
    which was there first, is gone, and the local plugin stands under its
    name. *)
Theorem reload_replaces_first_seen :
  plugins remoteFirst !! "T1"
  = Some (markDistributed "S1" (announced "T1"))
  ∧ isDistributed (markDistributed "S1" (announced "T1")) = true
  ∧ plugins (loadPlugins collidingDirectory remoteFirst).1 !! "T1"
    = Some (located "Plugin" (toolFolder "T1") (announced "T1"))
  ∧ isDistributed (located "Plugin" (toolFolder "T1") (announced "T1")) = false.
Proof. split_and!; reflexivity. Qed.

(** C1 fails on the code: the reload keeps the manifests that are not
    distributed and drops the distributed ones.  Here the directory has lost
    [Old] and gained [New] while the session of [T1] is still open: after the
    reload the remote [T1] is gone and the stale [Old] is still there. *)
Theorem loadPlugins_drops_remote_keeps_stale :
  (isDistributed <$> plugins beforeReload !! "T1") = Some true
  ∧ plugins (loadPlugins changedDirectory beforeReload).1 !! "T1" = None
  ∧ plugins (loadPlugins changedDirectory beforeReload).1 !! "Old"
    = plugins beforeReload !! "Old"
  ∧ is_Some (plugins beforeReload !! "Old")
  ∧ is_Some (plugins (loadPlugins changedDirectory beforeReload).1 !! "New").
Proof. split_and!; try reflexivity; by eexists. Qed.

(** No distributed manifest is left by a reload, unless the scan finds a
    folder of that name. *)
Lemma loadPlugins_drops_distributed (pm : PluginManager) (file : order_file)
    (key : string) (m : manifest) :
  plugins pm !! key = Some m → isDistributed m = true →
  plugins (loadPlugins (directory [] file) pm).1 !! key = None.
Proof.
  intros Hkey Hremote. rewrite loadPlugins_plugins. simpl.
  apply eq_None_not_Some. intros [m' [Hm' Hlocal]%resetForReload_lookup].
  congruence.
Qed.

(** C2 fails on the code: after session [S1] has ended its tools are gone,
    but the placeholder it pushed is still in the table, and it is still
    served. *)
Theorem unregister_leaves_placeholder :
  is_Some (plugins sessionS1 !! "T1")
  ∧ plugins (unregisterAllDistributedTools "S1" sessionS1) !! "T1" = None
  ∧ plugins (unregisterAllDistributedTools "S1" sessionS1) !! "T2" = None
  ∧ staticPlaceholderValues (unregisterAllDistributedTools "S1" sessionS1) !! "PH1"
    = Some "v"
  ∧ getPlaceholderValue (unregisterAllDistributedTools "S1" sessionS1) "PH1" = "v".
Proof. split_and!; try reflexivity; by eexists. Qed.

(** The manifest half of the eviction is complete. *)
Lemma unregister_evicts_tools (sid : string) (pm : PluginManager) (key : string)
    (m : manifest) :
  plugins (unregisterAllDistributedTools sid pm) !! key = Some m →
  isDistributed m = true → serverId m ≠ Some sid.
Proof. intros [_ Hnot]%unregister_lookup Hremote Hsid. by apply Hnot. Qed.

(** The placeholder half removes a placeholder only when the table also has
    an entry under its [distributedKey], which no operation writes. *)
Lemma unregister_keeps_placeholder (sid : string) (pm : PluginManager)
    (placeholder : string) :
  staticPlaceholderValues pm !! distributedKey placeholder sid = None →
  staticPlaceholderValues (unregisterAllDistributedTools sid pm) !! placeholder
  = staticPlaceholderValues pm !! placeholder.
Proof.
  intros Hkey. unfold unregisterAllDistributedTools; simpl.
  destruct (staticPlaceholderValues pm !! placeholder) as [v|] eqn:Hv.
  - by apply map_lookup_filter_Some.
  - apply map_lookup_filter_None. left. done.
Qed.

Lemma loadPlugins_keeps_local_witness :
  is_Some (plugins beforeReload !! "Old")
  ∧ plugins (loadPlugins changedDirectory beforeReload).1 !! "Old"
    = Some (located "Plugin" (toolFolder "Old") (announced "Old")).
Proof.
  split; [by eexists|].
  apply (loadPlugins_keeps_local changedDirectory beforeReload "Old");
    reflexivity.
Defined.

Lemma unregister_evicts_tools_witness :
  plugins (unregisterAllDistributedTools "S1" twoSessions) !! "T1" = None
  ∧ serverId (markDistributed "S2" (announced "T3")) ≠ Some "S1".
Proof.
  split; [reflexivity|].
  apply (unregister_evicts_tools "S1" twoSessions "T3"); reflexivity.
Defined.

Lemma unregister_keeps_placeholder_witness :
  staticPlaceholderValues sessionS1 !! distributedKey "PH1" "S1" = None
  ∧ staticPlaceholderValues (unregisterAllDistributedTools "S1" sessionS1) !! "PH1"
    = Some "v".
Proof.
  split; [reflexivity|].
  rewrite (unregister_keeps_placeholder "S1" sessionS1 "PH1"); reflexivity.
Defined.

(** A reload of a directory that has not changed finds every plugin in the
    map already and skips it: the preprocessors that the first load
    registered are registered no more. *)
Example reload_loses_preprocessors :
  preprocessorOrder (loadPlugins scenarioFour constructor).1 = ["B"; "A"; "D"]
  ∧ preprocessorOrder
      (loadPlugins scenarioFour (loadPlugins scenarioFour constructor).1).1 = []
  ∧ messagePreprocessors
      (loadPlugins scenarioFour (loadPlugins scenarioFour constructor).1).1 = ∅.
Proof. split_and!; vm_compute; reflexivity. Qed.


Example reload_forgets_push :
  staticPlaceholderValues sessionS1 !! "PH1" = Some "v"
  ∧ staticPlaceholderValues
      (loadPlugins (directory [] OrderMissing) sessionS1).1 !! "PH1" = None.
Proof. split; reflexivity. Qed.

(** ** The order of the preprocessors *)

Lemma filter_iff_elem (P Q : string → Prop) `{!∀ x, Decision (P x)}
    `{!∀ x, Decision (Q x)} (l : list string) :
  (∀ x, x ∈ l → P x ↔ Q x) → filter P l = filter Q l.
Proof.
  induction l as [|x l IH]; intros Hiff; [done|].
  rewrite !filter_cons.
  rewrite IH by (intros y Hy; apply Hiff; by apply list_elem_of_further).
  apply decide_ext, Hiff, list_elem_of_here.
Qed.

Lemma firsts_filter (P : string → Prop) `{!∀ x, Decision (P x)}
    (names : list string) :
  filter P (firsts names) = firsts (filter P names).
Proof.
  induction names as [|n names IH]; [done|]. simpl.
  rewrite !filter_cons. destruct (decide (P n)) as [Hn|Hn]; simpl.
  - rewrite <- IH, !list_filter_filter. f_equal.
    apply list_filter_iff. naive_solver.
  - rewrite <- IH. apply list_filter_filter_l. intros x Hx ->. done.
Qed.

Lemma elem_of_firsts (names : list string) (n : string) :
  n ∈ firsts names ↔ n ∈ names.
Proof.
  induction names as [|x names IH]; [done|]. simpl.
  rewrite !elem_of_cons, list_elem_of_filter, IH.
  destruct (decide (n = x)); naive_solver.
Qed.

Lemma NoDup_firsts (names : list string) : NoDup (firsts names).
Proof.
  induction names as [|x names IH]; simpl; constructor.
  - rewrite list_elem_of_filter. naive_solver.
  - by apply NoDup_filter.
Qed.


(** The loop over the saved order comes to the two lists of the
    specification. *)
Lemma keepSaved_spec (saved availablePlugins finalOrder : list string) :
  keepSaved saved availablePlugins finalOrder
  = ((finalOrder ++ keptNames saved availablePlugins)%list,
     filter (λ n, n ∉ saved) availablePlugins).
Proof.
  unfold keptNames.
  revert availablePlugins finalOrder.
  induction saved as [|x saved IH]; intros available final; simpl.
  - rewrite app_nil_r. f_equal. symmetry.
    induction available as [|a available IHa]; [done|].
    rewrite filter_cons_True by apply not_elem_of_nil. by rewrite IHa.
  - rewrite filter_cons. destruct (decide (x ∈ available)) as [Hin|Hout].
    + rewrite bool_decide_eq_true_2 by done. rewrite IH. simpl.
      rewrite <- app_assoc. simpl. f_equal.
      * do 2 f_equal. rewrite firsts_filter. f_equal.
        rewrite list_filter_filter. apply list_filter_iff.
        intros n. rewrite list_elem_of_filter. naive_solver.
      * rewrite list_filter_filter. apply list_filter_iff.
        intros n. rewrite not_elem_of_cons. naive_solver.
    + rewrite bool_decide_eq_false_2 by done. rewrite IH. f_equal.
      apply filter_iff_elem. intros n Hn. rewrite not_elem_of_cons.
      split; [|naive_solver]. intros Hr. split; [|done]. by intros ->.
Qed.

Lemma reconcileOrder_spec (file : order_file) (discovered : list string) :
  reconcileOrder file discovered
  = (keptNames (savedOrder file) discovered
     ++ newNames (savedOrder file) discovered)%list.
Proof. unfold reconcileOrder. by rewrite keepSaved_spec. Qed.


Lemma unitsLeb_total (a b : list N) :
  Js.unitsLeb a b = true ∨ Js.unitsLeb b a = true.
Proof.
  revert b. induction a as [|x a IH]; intros [|y b]; simpl; auto.
  destruct (N.lt_total x y) as [Hlt|[->|Hgt]].
  - left. apply N.ltb_lt in Hlt. by rewrite Hlt.
  - rewrite N.eqb_refl, N.ltb_irrefl. simpl. apply IH.
  - right. apply N.ltb_lt in Hgt. by rewrite Hgt.
Qed.

#[local] Instance le_total : Total Js.le.
Proof.
  intros s t. unfold Js.le.
  destruct (unitsLeb_total (Js.units s) (Js.units t)) as [-> | ->]; [by left|by right].
Qed.




(** ** One invocation of a stdio plugin *)

Lemma resolveCalls_settle (s : settlement) (ex : execution) :
  resolveCalls (settle s ex)
  = (resolveCalls ex + if resolves s then 1 else 0)%nat.
Proof.
  unfold resolveCalls, settle; simpl.
  rewrite filter_app, length_app. f_equal.
  by destruct s.
Qed.

(** Once the acknowledgement is sent no handler settles the promise. *)
Lemma handle_after_ack (pluginName : string) (ev : process_event) (ex : execution) :
  initialResponseSent ex = true →
  settlements (handle pluginName true ex ev) = settlements ex
  ∧ initialResponseSent (handle pluginName true ex ev) = true.
Proof.
  intros Hsent. destruct ev; simpl.
  - unfold onStdout. rewrite Hsent. simpl. by rewrite orb_true_r.
  - done.
  - unfold onError. simpl. by rewrite Hsent.
  - unfold onExit. simpl. by rewrite Hsent.
  - unfold onTimer. rewrite Hsent. simpl.
    by destruct (timerOff ex), (processExited ex).
Qed.

Lemma run_after_ack (pluginName : string) (events : list process_event)
    (ex : execution) :
  initialResponseSent ex = true →
  settlements (run pluginName true events ex) = settlements ex
  ∧ initialResponseSent (run pluginName true events ex) = true.
Proof.
  revert ex. induction events as [|ev events IH]; intros ex Hsent; [done|].
  simpl. destruct (handle_after_ack pluginName ev ex Hsent) as [Hsame Hstill].
  destruct (IH _ Hstill) as [Hrest Hend]. by rewrite Hrest, Hsame.
Qed.

(** What the stdout handler of an asynchronous plugin does. *)
Lemma onStdout_async (data : string) (ex : execution) :
  processExited ex = false → initialResponseSent ex = false →
  match potentialJsonMatch (outputBuffer ex ++ data) with
  | Some jsonString =>
      match Json.parse jsonString with
      | Some parsedOutput =>
          if statusOk parsedOutput
          then settlements (onStdout true data ex)
               = (settlements ex ++ [Resolve parsedOutput])%list
               ∧ initialResponseSent (onStdout true data ex) = true
          else settlements (onStdout true data ex) = settlements ex
               ∧ initialResponseSent (onStdout true data ex) = false
      | None => settlements (onStdout true data ex) = settlements ex
                ∧ initialResponseSent (onStdout true data ex) = false
      end
  | None => settlements (onStdout true data ex) = settlements ex
            ∧ initialResponseSent (onStdout true data ex) = false
  end.
Proof.
  intros Hexit Hsent. unfold onStdout. rewrite Hexit, Hsent. simpl.
  destruct (potentialJsonMatch (outputBuffer ex ++ data)) as [js|]; [|done].
  destruct (Json.parse js) as [v|]; [|done].
  by destruct (statusOk v).
Qed.

Lemma exitCount_cons (ev : process_event) (events : list process_event) :
  exitCount (ev :: events)
  = ((if isExit ev then 1 else 0) + exitCount events)%nat.
Proof.
  unfold exitCount. rewrite filter_cons.
  destruct (isExit ev); by case_decide.
Qed.

(** Counts the resolving calls on both sides of a goal. *)
Ltac count_resolves :=
  rewrite ?resolveCalls_settle; unfold resolveCalls; simpl;
  rewrite ?filter_app, ?length_app; simpl; lia.

Lemma handle_budget (pluginName : string) (ev : process_event)
    (events : list process_event) (ex : execution) :
  (resolveCalls (handle pluginName true ex ev)
   + resolveBudget (handle pluginName true ex ev) events
   ≤ resolveCalls ex + resolveBudget ex (ev :: events))%nat.
Proof.
  unfold resolveBudget. rewrite exitCount_cons.
  destruct ev as [data|data|message|code signal|]; simpl.
  - unfold onStdout.
    destruct (processExited ex) eqn:Hexit, (initialResponseSent ex) eqn:Hsent;
      simpl; rewrite ?Hexit, ?Hsent; try lia.
    repeat case_match; simpl in *; try discriminate;
      rewrite ?Hexit, ?Hsent; count_resolves.
  - count_resolves.
  - unfold onError; simpl.
    destruct (initialResponseSent ex) eqn:Hsent, (processExited ex);
      simpl; rewrite ?Hsent; count_resolves.
  - unfold onExit; simpl.
    destruct (initialResponseSent ex) eqn:Hsent; simpl; rewrite ?Hsent;
      [count_resolves|].
    destruct (processExited ex);
      repeat case_match; simpl in *; try discriminate; rewrite ?Hsent;
      count_resolves.
  - unfold onTimer.
    destruct (timerOff ex), (processExited ex) eqn:Hexit,
      (initialResponseSent ex) eqn:Hsent; simpl; rewrite ?Hexit, ?Hsent;
      count_resolves.
Qed.

Lemma run_budget (pluginName : string) (events : list process_event)
    (ex : execution) :
  (resolveCalls (run pluginName true events ex)
   ≤ resolveCalls ex + resolveBudget ex events)%nat.
Proof.
  revert ex. induction events as [|ev events IH]; intros ex; simpl.
  - lia.
  - etrans; [apply IH|]. apply handle_budget.
Qed.

(** C5, as amended: for an asynchronous plugin the stdout handler resolves
    the call when, with no acknowledgement sent and the child not exited, the
    shortest text of the buffer from its first opening brace to a closing
    brace before white space or the end parses as JSON with status "success"
    or "error", and in no other case; once the acknowledgement is sent, no
    later output, error, timer or exit calls [resolve] or [reject]; and for a
    child that exits at most once [resolve] is called at most once. *)
Theorem async_ack_once (pluginName : string) :
  (∀ data ex jsonString parsedOutput,
     processExited ex = false → initialResponseSent ex = false →
     potentialJsonMatch (outputBuffer ex ++ data) = Some jsonString →
     Json.parse jsonString = Some parsedOutput → statusOk parsedOutput = true →
     settlements (onStdout true data ex)
     = (settlements ex ++ [Resolve parsedOutput])%list
     ∧ initialResponseSent (onStdout true data ex) = true)
  ∧ (∀ data ex,
       settlements (onStdout true data ex) = settlements ex
       ∨ ∃ jsonString parsedOutput,
           potentialJsonMatch (outputBuffer ex ++ data) = Some jsonString
           ∧ Json.parse jsonString = Some parsedOutput
           ∧ statusOk parsedOutput = true
           ∧ processExited ex = false ∧ initialResponseSent ex = false)
  ∧ (∀ events ex,
       initialResponseSent ex = true →
       settlements (run pluginName true events ex) = settlements ex)
  ∧ (∀ events,
       (exitCount events ≤ 1)%nat →
       (resolveCalls (run pluginName true events spawned) ≤ 1)%nat).
Proof.
  split_and!.
  - intros data ex js v Hexit Hsent Hmatch Hparse Hstatus.
    pose proof (onStdout_async data ex Hexit Hsent) as H.
    by rewrite Hmatch, Hparse, Hstatus in H.
  - intros data ex.
    destruct (processExited ex) eqn:Hexit.
    { left. unfold onStdout. by rewrite Hexit. }
    destruct (initialResponseSent ex) eqn:Hsent.
    { left. unfold onStdout. by rewrite Hexit, Hsent. }
    pose proof (onStdout_async data ex Hexit Hsent) as H.
    destruct (potentialJsonMatch (outputBuffer ex ++ data)) as [js|];
      [|left; apply H].
    destruct (Json.parse js) as [v|] eqn:Hparse; [|left; apply H].
    destruct (statusOk v) eqn:Hstatus; [|left; apply H].
    right. by exists js, v.
  - intros events ex Hsent. by apply run_after_ack.
  - intros events Hexits.
    pose proof (run_budget pluginName events spawned) as H.
    unfold resolveBudget in H. simpl in H.
    change (resolveCalls spawned) with 0%nat in H. lia.
Qed.

Example async_ack_once_queued :
  settlements (run "Video" true queuedRun spawned)
  = [Resolve (JObj [("status", JStr "success"); ("result", JStr "queued")])].
Proof. vm_compute. reflexivity. Qed.

(** C5, as the claim states it, fails: the child prints a complete top-level
    JSON object with status "success", indented, and the call is not resolved
    on it, because the text up to the first closing brace before a line break
    is no JSON; a child that then prints more and exits has its call
    rejected, and a child that prints nothing has it rejected as well. *)
Lemma async_ack_not_at_first_object :
  Json.parse indentedAck
  = Some (JObj [("status", JStr "success");
                ("result", JObj [("taskId", JStr "t1")])])
  ∧ settlements (run "Video" true [StdoutData indentedAck] spawned) = []
  ∧ promiseOf (run "Video" true
                 [StdoutData indentedAck; StdoutData "step 1 done";
                  ProcessExit (Some 0%Z) None] spawned)
    = Settled (Reject (zeroExitMessage "Video"
                         (atExit (indentedAck ++ "step 1 done") EmptyString)))
  ∧ promiseOf (run "Video" true [ProcessExit (Some 0%Z) None] spawned)
    = Settled (Reject (zeroExitMessage "Video" (atExit EmptyString EmptyString))).
Proof. split_and!; vm_compute; reflexivity. Qed.

(** ** A synchronous plugin *)

Lemma append_empty_r (s : string) : s ++ EmptyString = s.
Proof.
  induction s as [|c s IH]; [done|].
  change (String c (s ++ EmptyString) = String c s). by rewrite IH.
Qed.

Lemma append_assoc (s t u : string) : (s ++ t) ++ u = s ++ t ++ u.
Proof.
  induction s as [|c s IH]; [done|].
  change (String c ((s ++ t) ++ u) = String c (s ++ t ++ u)). by rewrite IH.
Qed.

(** The stdout handler of a synchronous plugin only collects. *)
Lemma onStdout_sync (data : string) (ex : execution) :
  processExited ex = false →
  onStdout false data ex
  = {| outputBuffer := outputBuffer ex ++ data; errorOutput := errorOutput ex;
       processExited := false; initialResponseSent := initialResponseSent ex;
       timerOff := timerOff ex; killed := killed ex;
       settlements := settlements ex |}.
Proof.
  intros Hexit. unfold onStdout. rewrite Hexit. simpl.
  repeat case_match; try done.
  by rewrite andb_false_r in *.
Qed.

Lemma run_sync_data (pluginName : string) (events : list process_event)
    (ex : execution) :
  Forall (λ ev, isData ev = true) events → processExited ex = false →
  run pluginName false events ex
  = {| outputBuffer := outputBuffer ex ++ stdoutOf events;
       errorOutput := errorOutput ex ++ stderrOf events;
       processExited := false; initialResponseSent := initialResponseSent ex;
       timerOff := timerOff ex; killed := killed ex;
       settlements := settlements ex |}.
Proof.
  intros Hdata. revert ex.
  induction Hdata as [|ev events Hev _ IH]; intros ex Hexit; simpl.
  - rewrite !append_empty_r. destruct ex; simpl in *. by subst.
  - destruct ev as [data|data| | |]; try discriminate; simpl.
    + rewrite onStdout_sync by done. rewrite IH by done. simpl.
      by rewrite append_assoc.
    + rewrite IH by done. simpl. by rewrite append_assoc.
Qed.

(** A synchronous plugin whose child only writes and then exits, not killed
    by SIGKILL, is answered at the exit from the whole standard output,
    trimmed: when it parses as JSON with status "success" or "error" the call
    resolves with it (with the trimmed standard error attached when there is
    one) whatever the exit code; otherwise the call is rejected, on exit code
    0 with a message that carries the first 200 code units of the output, on
    any other code with a message that carries the code and the first 200
    code units of the output and of the standard error. *)
Theorem sync_result_at_exit (pluginName : string) (events : list process_event)
    (code : option Z) (signal : option string) :
  Forall (λ ev, isData ev = true) events → signal ≠ Some "SIGKILL" →
  let final := atExit (stdoutOf events) (stderrOf events) in
  promiseOf (run pluginName false (events ++ [ProcessExit code signal]) spawned)
  = Settled (match finalOutput final with
             | Some parsedOutput => Resolve (withStderr final parsedOutput)
             | None =>
                 if bool_decide (code = Some 0%Z)
                 then Reject (zeroExitMessage pluginName final)
                 else Reject (nonZeroExitMessage pluginName code final)
             end)
  ∧ zeroExitMessage pluginName final
    = Js.lit "Plugin '" ++ pluginName
      ++ Js.lit "' exited successfully but did not provide a valid initial JSON response. Stdout: "
      ++ Js.substring0 200 (Js.trim (stdoutOf events))
  ∧ finalOutput final
    = match Json.parse (Js.trim (stdoutOf events)) with
      | Some parsedOutput =>
          if statusOk parsedOutput then Some parsedOutput else None
      | None => None
      end.
Proof.
  intros Hdata Hsignal final. split_and!; [|done..].
  unfold run. rewrite foldl_app. fold (run pluginName false events spawned).
  assert (run pluginName false events spawned
          = {| outputBuffer := stdoutOf events; errorOutput := stderrOf events;
               processExited := false; initialResponseSent := false;
               timerOff := false; killed := false; settlements := [] |}) as ->.
  { by rewrite run_sync_data. }
  simpl. unfold onExit. simpl.
  rewrite bool_decide_eq_false_2 by done.
  unfold finalOutput, final, atExit. simpl.
  destruct (Json.parse (Js.trim (stdoutOf events))) as [v|]; simpl.
  - destruct (statusOk v); [done|]. by case_bool_decide.
  - by case_bool_decide.
Qed.

Lemma sync_result_at_exit_witness :
  promiseOf (run "Calc" false
               ([StdoutData (Js.lit "{'status':'success',"); StderrData "warn";
                 StdoutData (Js.lit "'result':42}" ++ newline)]
                ++ [ProcessExit (Some 1%Z) None]) spawned)
  = Settled (Resolve (JObj [("status", JStr "success"); ("result", JNum "42");
                            ("pluginStderr", JStr "warn")])).
Proof.
  rewrite (proj1 (sync_result_at_exit "Calc"
                    [StdoutData (Js.lit "{'status':'success',"); StderrData "warn";
                     StdoutData (Js.lit "'result':42}" ++ newline)]
                    (Some 1%Z) None
                    ltac:(repeat constructor) ltac:(discriminate))).
  vm_compute. reflexivity.
Defined.

(** C7 fails on the code: a child that prints no JSON and exits with code 0
    has its call rejected with a message that holds nothing of what it wrote
    to its standard error, while the same child exiting with code 1 has the
    standard error in the message. *)
Theorem sync_zero_exit_drops_stderr :
  stderrOf silentFailure = "ModuleNotFoundError: requests"
  ∧ promiseOf (run "Calc" false silentFailure spawned)
    = Settled (Reject (Js.lit "Plugin 'Calc' exited successfully but did not provide a valid initial JSON response. Stdout: starting"))
  ∧ Js.includes "ModuleNotFoundError"
      (Js.lit "Plugin 'Calc' exited successfully but did not provide a valid initial JSON response. Stdout: starting")
    = false
  ∧ promiseOf (run "Calc" false loudFailure spawned)
    = Settled (Reject (Js.lit "Plugin 'Calc' exited with code 1. Stdout: starting Stderr: ModuleNotFoundError: requests")).
Proof. split_and!; vm_compute; reflexivity. Qed.

(** ** The dispatcher and the file fallback *)

#[local] Arguments retryArgs : simpl never.
#[local] Arguments fetchFile : simpl never.

Lemma obj_get_set (k : string) (v : json) (fields : list (string * json)) :
  Json.obj_get k (Json.obj_set k v fields) = Some v.
Proof.
  induction fields as [|[k' v'] fields IH]; simpl.
  - by rewrite String.eqb_refl.
  - destruct (String.eqb k k') eqn:Hk; simpl; by rewrite ?String.eqb_refl, ?Hk.
Qed.

Lemma obj_get_set_other (k k' : string) (v : json) (fields : list (string * json)) :
  k ≠ k' → Json.obj_get k (Json.obj_set k' v fields) = Json.obj_get k fields.
Proof.
  intros Hne. apply String.eqb_neq in Hne.
  induction fields as [|[k'' v''] fields IH]; simpl.
  - by rewrite Hne.
  - destruct (String.eqb k' k'') eqn:Hk; simpl.
    + apply String.eqb_eq in Hk as <-. by rewrite Hne.
    + by rewrite IH.
Qed.

Lemma obj_get_delete (k : string) (fields : list (string * json)) :
  Json.obj_get k (Json.obj_delete k fields) = None.
Proof.
  induction fields as [|[k' v'] fields IH]; simpl; [done|].
  destruct (String.eqb k k') eqn:Hk; simpl; by rewrite ?Hk.
Qed.

Lemma obj_get_delete_other (k k' : string) (fields : list (string * json)) :
  k ≠ k' → Json.obj_get k (Json.obj_delete k' fields) = Json.obj_get k fields.
Proof.
  intros Hne. apply String.eqb_neq in Hne.
  induction fields as [|[k'' v''] fields IH]; simpl; [done|].
  destruct (String.eqb k' k'') eqn:Hk; simpl.
  - apply String.eqb_eq in Hk as <-. by rewrite Hne.
  - by rewrite IH.
Qed.

Lemma field_setProperty_other (k k' : string) (v o : json) :
  k ≠ k' → Json.field k (setProperty k' v o) = Json.field k o.
Proof.
  intros Hne. destruct o; simpl; try done. by apply obj_get_set_other.
Qed.

(** The error of a failed fallback keeps the error of the fetch and the error
    of the plugin through the final [catch]. *)
Lemma normalizedError_fetchFailure (maid : option json) (stamp : string)
    (pluginOutput : json) (message : string) :
  ∃ errorObject,
    normalizedError maid stamp (fetchFailure pluginOutput message)
    = ErrorJson errorObject
    ∧ Json.field "plugin_error" errorObject
      = Some (JStr ("Plugin reported local file not found, but remote fetch failed: "
                      ++ message))
    ∧ Json.field "original_plugin_error" errorObject
      = Json.field "error" pluginOutput.
Proof.
  unfold normalizedError, fetchFailure.
  eexists. split; [reflexivity|].
  split.
  - repeat case_match; rewrite ?field_setProperty_other by done; done.
  - repeat case_match; rewrite ?field_setProperty_other by done;
      simpl; by rewrite ?String.eqb_refl.
Qed.

Lemma removeFirst_image_url (index : string) :
  Js.removeFirst "image_url_" ("image_url_" ++ index) = index.
Proof. by destruct index. Qed.

Lemma retryArgs_image_url (toolArgs : list (string * json)) (index dataUri : string) :
  Json.truthy_opt (Json.obj_get ("image_url_" ++ index) toolArgs) = true →
  retryArgs toolArgs (Some (JStr ("image_url_" ++ index))) dataUri
  = Some (Json.obj_set ("image_base64_" ++ index) (JStr dataUri)
            (Json.obj_delete ("image_url_" ++ index) toolArgs)).
Proof.
  intros Harg. unfold retryArgs.
  change (propertyKey (JStr ("image_url_" ++ index))) with ("image_url_" ++ index).
  rewrite Harg, removeFirst_image_url. reflexivity.
Qed.

Lemma stdio_not_direct (plugin : manifest) :
  stdioPlugin plugin = true →
  match communication plugin with
  | Some c => bool_decide (protocol c = "direct")
  | None => false
  end = false.
Proof.
  unfold stdioPlugin. destruct (communication plugin) as [c|]; [|done].
  intros [_ Hc%bool_decide_eq_true]%andb_true_iff. by rewrite Hc.
Qed.

(** C4, as amended: when a local stdio plugin reports an error with the code
    FILE_NOT_FOUND_LOCALLY, a file URL and the failed parameter
    [image_url_N], and the request has an origin, the dispatcher fetches the
    file and calls itself with [image_url_N] removed and [image_base64_N] set
    to the data URI.  The call it makes is a call like any other (a plugin
    that reports another missing file is fetched for and called again), and
    its result is the result of the dispatch; when it throws, or when the
    fetch fails, the dispatch throws an error object that holds the message
    of that failure under [plugin_error] and the error of the plugin under
    [original_plugin_error]. *)
Theorem file_fallback_retry (w : world) (pm : PluginManager) (fuel : nat)
    (toolName : string) (toolArgs : list (string * json))
    (requestIp : option string) (st : dispatcher) (plugin : manifest)
    (pluginOutput : json) (fileUrl index : string) :
  plugins pm !! toolName = Some plugin →
  isDistributed plugin = false → stdioPlugin plugin = true →
  executePlugin pm (child w (ticks st) toolName (executionParamOf toolArgs)) toolName
  = Settled (Resolve pluginOutput) →
  Json.is_text "success" (Json.field "status" pluginOutput) = false →
  Json.is_text "FILE_NOT_FOUND_LOCALLY" (Json.field "code" pluginOutput) = true →
  Json.field "fileUrl" pluginOutput = Some (JStr fileUrl) →
  Js.truthy fileUrl = true →
  Json.field "failedParameter" pluginOutput = Some (JStr ("image_url_" ++ index)) →
  Json.truthy_opt (Json.obj_get ("image_url_" ++ index) toolArgs) = true →
  truthyText requestIp = true →
  let st1 := executed (executionParamOf toolArgs) st in
  let maid := maidNameOf toolArgs in
  match fetchFile (fetchIo w (ticks st1)) fileUrl requestIp (fileFetcher st1) with
  | (FetchFails message, ft) =>
      ∃ errorObject,
        processToolCall w pm (S fuel) toolName toolArgs requestIp st
        = Some (Throws (ErrorJson errorObject), tick (fetched ft st1))
        ∧ Json.field "plugin_error" errorObject
          = Some (JStr ("Plugin reported local file not found, but remote fetch failed: "
                          ++ message))
        ∧ Json.field "original_plugin_error" errorObject
          = Json.field "error" pluginOutput
  | (Fetched buffer mimeType, ft) =>
      let dataUri := "data:" ++ mimeType ++ ";base64," ++ buffer in
      let newToolArgs :=
        Json.obj_set ("image_base64_" ++ index) (JStr dataUri)
          (Json.obj_delete ("image_url_" ++ index) toolArgs) in
      Json.obj_get ("image_url_" ++ index) newToolArgs = None
      ∧ Json.obj_get ("image_base64_" ++ index) newToolArgs = Some (JStr dataUri)
      ∧ processToolCall w pm (S fuel) toolName toolArgs requestIp st
        = match processToolCall w pm fuel toolName newToolArgs requestIp
                  (fetched ft st1) with
          | None => None
          | Some (Returns v, st3) => Some (Returns v, st3)
          | Some (Throws e, st3) =>
              Some (Throws (normalizedError maid (localTimestamp w (ticks st3))
                              (fetchFailure pluginOutput (messageOf e))),
                    tick st3)
          | Some (Hangs, st3) => Some (Hangs, st3)
          end
      ∧ (∀ e stamp,
           ∃ errorObject,
             normalizedError maid stamp (fetchFailure pluginOutput (messageOf e))
             = ErrorJson errorObject
             ∧ Json.field "plugin_error" errorObject
               = Some (JStr ("Plugin reported local file not found, but remote fetch failed: "
                               ++ messageOf e))
             ∧ Json.field "original_plugin_error" errorObject
               = Json.field "error" pluginOutput)
  end.
Proof.
  intros Hplugin Hlocal Hstdio Hexec Hstatus Hcode Hurl Htruthy Hparam Harg Hip
         st1 maid.
  assert (processToolCall w pm (S fuel) toolName toolArgs requestIp st
          = match
              match fetchFile (fetchIo w (ticks st1)) fileUrl requestIp
                      (fileFetcher st1) with
              | (FetchFails message, ft) =>
                  Some (Raise (fetchFailure pluginOutput message), fetched ft st1)
              | (Fetched buffer mimeType, ft) =>
                  match processToolCall w pm fuel toolName
                          (Json.obj_set ("image_base64_" ++ index)
                             (JStr ("data:" ++ mimeType ++ ";base64," ++ buffer))
                             (Json.obj_delete ("image_url_" ++ index) toolArgs))
                          requestIp (fetched ft st1) with
                  | None => None
                  | Some (Returns v, st3) => Some (Direct v, st3)
                  | Some (Throws e, st3) =>
                      Some (Raise (fetchFailure pluginOutput (messageOf e)), st3)
                  | Some (Hangs, st3) => Some (Stuck, st3)
                  end
              end
            with
            | None => None
            | Some (Value resultFromPlugin, st') =>
                Some (Returns (finalResult maid (localTimestamp w (ticks st'))
                                 resultFromPlugin), tick st')
            | Some (Raise e, st') =>
                Some (Throws (normalizedError maid (localTimestamp w (ticks st')) e),
                      tick st')
            | Some (Direct v, st') => Some (Returns v, st')
            | Some (Stuck, st') => Some (Hangs, st')
            end) as Hstep.
  { simpl. rewrite Hplugin, Hlocal. rewrite (stdio_not_direct plugin Hstdio).
    rewrite !andb_false_r, Hstdio. simpl.
    rewrite Hexec, Hstatus, Hcode, Hurl. simpl. rewrite Htruthy, Hip. simpl.
    destruct (fetchFile _ _ _ _) as [[buffer mimeType|message] ft]; [|done].
    rewrite Hparam, (retryArgs_image_url toolArgs index) by done. done. }
  rewrite Hstep.
  destruct (fetchFile (fetchIo w (ticks st1)) fileUrl requestIp (fileFetcher st1))
    as [[buffer mimeType|message] ft].
  - cbv zeta. split_and!.
    + rewrite obj_get_set_other by (intros [=]). apply obj_get_delete.
    + apply obj_get_set.
    + by destruct (processToolCall w pm fuel toolName _ requestIp _)
        as [[[v|e|] st3]|].
    + intros e stamp. apply normalizedError_fetchFailure.
  - destruct (normalizedError_fetchFailure maid
                (localTimestamp w (ticks (fetched ft st1))) pluginOutput message)
      as (errorObject & Hnorm & Hfields).
    exists errorObject. by rewrite Hnorm.
Qed.

Lemma file_fallback_retry_witness :
  Json.obj_get "image_url_1" afterFirstFetch = None
  ∧ Json.obj_get "image_base64_1" afterFirstFetch
    = Some (JStr "data:image/png;base64,iVBORw0KGgo=").
Proof.
  pose proof (file_fallback_retry (surroundings imageTool) imageManager 4
                "ImageTool" twoImages (Some "10.0.0.7") idle
                (located "Plugin" (toolFolder "ImageTool") (announced "ImageTool"))
                (default JNull
                   (Json.parse (missingFile "file:///img/a.png" "image_url_1")))
                "file:///img/a.png" "1"
                ltac:(vm_compute; reflexivity) ltac:(reflexivity)
                ltac:(reflexivity) ltac:(vm_compute; reflexivity)
                ltac:(vm_compute; reflexivity) ltac:(vm_compute; reflexivity)
                ltac:(vm_compute; reflexivity) ltac:(reflexivity)
                ltac:(vm_compute; reflexivity) ltac:(vm_compute; reflexivity)
                ltac:(reflexivity)) as H.
  vm_compute in H. destruct H as (Hgone & Hset & _).
  split; [exact Hgone | exact Hset].
Defined.

(** C4, as the claim states it, fails: the plugin reports [image_url_1] as
    missing, the retry runs with [image_base64_1] and reports [image_url_2]
    as missing, and this failed retry is retried in its turn; the child runs
    three times and the call succeeds. *)
Lemma retry_is_retried :
  (fst <$> processToolCall (surroundings imageTool) imageManager 5 "ImageTool"
             twoImages (Some "10.0.0.7") idle)
  = Some (Returns (JObj [("original_plugin_output", JStr "two images described");
                         ("timestamp", JStr "2026-01-01T12:00:00.000+08:00")]))
  ∧ (executions ∘ snd <$> processToolCall (surroundings imageTool) imageManager 5
                            "ImageTool" twoImages (Some "10.0.0.7") idle)
    = Some [executionParamOf twoImages; executionParamOf afterFirstFetch;
            executionParamOf afterSecondFetch]
  ∧ executePlugin imageManager (imageTool (executionParamOf afterFirstFetch))
      "ImageTool"
    = Settled (Resolve (JObj [("status", JStr "error");
                              ("code", JStr "FILE_NOT_FOUND_LOCALLY");
                              ("error", JStr "not found locally");
                              ("fileUrl", JStr "file:///img/b.png");
                              ("failedParameter", JStr "image_url_2")])).
Proof. split_and!; vm_compute; reflexivity. Qed.

(** A plugin that reports the same file again is stopped by the file fetcher,
    which refuses a second request for a file within five seconds: the child
    runs twice and the call fails. *)
Example same_file_is_fetched_once :
  (executions ∘ snd <$> processToolCall (surroundings stubbornTool) imageManager 5
                          "ImageTool" twoImages (Some "10.0.0.7") idle)
  = Some [executionParamOf twoImages; executionParamOf afterFirstFetch]
  ∧ (∃ errorObject st,
       processToolCall (surroundings stubbornTool) imageManager 5 "ImageTool"
         twoImages (Some "10.0.0.7") idle
       = Some (Throws (ErrorJson errorObject), st)
       ∧ Json.field "original_plugin_error" errorObject
         = Some (JStr "not found locally")).
Proof.
  split; [vm_compute; reflexivity|].
  eexists _, _. split; vm_compute; reflexivity.
Qed.

(** The file fetcher refuses a request for a URL that it was asked for less
    than five seconds before, and notes the time of the refused request. *)
Lemma fetchFile_refuses_repeat (io : fetch_io) (fileUrl : string)
    (requestIp : option string) (ft : fetcher) (lastRequestTime : Z) :
  recentRequests ft !! fileUrl = Some lastRequestTime →
  (now io - lastRequestTime < REQ_CACHE_EXPIRATION_MS)%Z →
  ∃ message,
    fetchFile io fileUrl requestIp ft
    = (FetchFails message,
       {| recentRequests := <[fileUrl := now io]> (recentRequests ft);
          failedFetchCache := failedFetchCache ft |}).
Proof.
  intros Hlast Hsoon. unfold fetchFile. rewrite Hlast.
  rewrite bool_decide_eq_true_2 by done. by eexists.
Qed.

Lemma fetchFile_refuses_repeat_witness :
  ∃ message,
    fetchFile (servedBy "/img/a.png" 3) "file:///img/a.png" (Some "10.0.0.7")
      {| recentRequests := {["file:///img/a.png" := 1000%Z]};
         failedFetchCache := ∅ |}
    = (FetchFails message,
       {| recentRequests :=
            <["file:///img/a.png" := 3000%Z]> {["file:///img/a.png" := 1000%Z]};
          failedFetchCache := ∅ |}).
Proof.
  exact (fetchFile_refuses_repeat (servedBy "/img/a.png" 3) "file:///img/a.png"
           (Some "10.0.0.7")
           {| recentRequests := {["file:///img/a.png" := 1000%Z]};
              failedFetchCache := ∅ |} 1000%Z eq_refl eq_refl).
Defined.

(** ** The file fetcher *)

Lemma fetchRemote_requests (io : fetch_io) (fileUrl : string)
    (requestIp : option string) (mimeType : string) (ft : fetcher) :
  recentRequests (fetchRemote io fileUrl requestIp mimeType ft).2 = recentRequests ft.
Proof. unfold fetchRemote. by repeat case_match. Qed.

Lemma fetchRemote_other_url (io : fetch_io) (fileUrl : string)
    (requestIp : option string) (mimeType : string) (ft : fetcher) (url : string) :
  url ≠ fileUrl →
  failedFetchCache (fetchRemote io fileUrl requestIp mimeType ft).2 !! url
  = failedFetchCache ft !! url.
Proof.
  intros Hne. unfold fetchRemote.
  repeat case_match; simpl; by rewrite ?lookup_insert_ne.
Qed.

(** Every call of [fetchFile], whatever its outcome, notes its time as the
    latest request for its URL, and leaves the records of every other URL, in
    both maps, as they were. *)
Lemma fetchFile_notes_request (io : fetch_io) (fileUrl : string)
    (requestIp : option string) (ft : fetcher) :
  recentRequests (fetchFile io fileUrl requestIp ft).2
  = <[fileUrl := now io]> (recentRequests ft)
  ∧ ∀ url, url ≠ fileUrl →
      failedFetchCache (fetchFile io fileUrl requestIp ft).2 !! url
      = failedFetchCache ft !! url.
Proof.
  unfold fetchFile. split.
  - repeat case_match; simpl; rewrite ?fetchRemote_requests; done.
  - intros url Hne.
    repeat case_match; simpl; rewrite ?fetchRemote_other_url by done; simpl;
      by rewrite ?lookup_delete_ne.
Qed.

(** A file that [fetchFile] delivers always comes with a MIME type: the one
    of the remote reply, the one looked up from the path, or
    application/octet-stream. *)
Lemma fetchFile_mime_not_empty (io : fetch_io) (fileUrl : string)
    (requestIp : option string) (ft ft' : fetcher) (buffer mimeType : string) :
  fetchFile io fileUrl requestIp ft = (Fetched buffer mimeType, ft') →
  Js.truthy mimeType = true.
Proof.
  unfold fetchFile, fetchRemote.
  assert (Js.truthy (if truthyText (mimeOfPath io)
                     then default EmptyString (mimeOfPath io)
                     else "application/octet-stream") = true) as Hlocal.
  { destruct (mimeOfPath io) as [t|]; simpl; [|done]. by destruct (Js.truthy t) eqn:Ht. }
  intros H. repeat case_match; simplify_eq/=; try done.
  all: match goal with
       | Hm : truthyText ?o = true |- _ => by destruct o
       end.
Qed.

(** A fetch that failed at the remote server is remembered: a later request
    for the same URL, made after the five seconds of the loop guard and less
    than thirty seconds after the failure was recorded, is refused with the
    recorded error when the file is still in neither place locally; the
    remote server is not asked again, whatever it would answer now, and the
    failure cache stays as it is. *)
Lemma fetchFile_remembers_failure (io1 io2 : fetch_io) (fileUrl : string)
    (ip1 ip2 : option string) (ft : fetcher) (path1 path2 sid : string) :
  recentRequests ft !! fileUrl = None →
  failedFetchCache ft !! fileUrl = None →
  Js.startsWith "file://" fileUrl = true →
  filePath io1 = inl path1 → cachedRead io1 = ReadMissing →
  localRead io1 = ReadMissing →
  truthyText ip1 = true → serverLinked io1 = true →
  serverOfIp io1 = Some sid → Js.truthy sid = true →
  (∀ fileData mimeType, remoteReply io1 ≠ RemoteFile fileData mimeType) →
  (REQ_CACHE_EXPIRATION_MS ≤ now io2 - now io1)%Z →
  filePath io2 = inl path2 → cachedRead io2 = ReadMissing →
  localRead io2 = ReadMissing →
  (nowAtCheck io2 - nowAtFailure io1 < CACHE_EXPIRATION_MS)%Z →
  let recorded :=
    match remoteReply io1 with
    | RemoteThrows message => message
    | RemoteRefusal error => "从服务器 " ++ sid ++ " 获取文件失败: " ++ error
    | RemoteFile _ _ => EmptyString
    end in
  let ft1 := (fetchFile io1 fileUrl ip1 ft).2 in
  failedFetchCache ft1 !! fileUrl = Some (nowAtFailure io1, recorded)
  ∧ fetchFile io2 fileUrl ip2 ft1
    = (FetchFails ("文件获取在短时间内已失败，为防止循环已中断。错误: " ++ recorded),
       {| recentRequests := <[fileUrl := now io2]> (recentRequests ft1);
          failedFetchCache := failedFetchCache ft1 |}).
Proof.
  intros Hfresh Hnofail Hfile Hpath1 Hcache1 Hlocal1 Hip Hlinked Hsid Hsidt Hreply
         Hlater Hpath2 Hcache2 Hlocal2 Hsoon recorded ft1.
  assert (ft1 = {| recentRequests := <[fileUrl := now io1]> (recentRequests ft);
                   failedFetchCache :=
                     <[fileUrl := (nowAtFailure io1, recorded)]> (failedFetchCache ft) |})
    as Hft1.
  { subst ft1 recorded. unfold fetchFile.
    rewrite Hfresh, Hfile, Hpath1, Hcache1, Hlocal1. simpl. rewrite Hnofail.
    unfold fetchRemote. rewrite Hip, Hlinked, Hsid. simpl. rewrite Hsidt. simpl.
    destruct (remoteReply io1) as [fileData mimeType| |]; [|done..].
    by destruct (Hreply fileData mimeType). }
  split.
  - rewrite Hft1. simpl. by rewrite lookup_insert_eq.
  - rewrite Hft1. unfold fetchFile. simpl.
    rewrite lookup_insert_eq, bool_decide_eq_false_2 by lia.
    rewrite Hfile, Hpath2, Hcache2, Hlocal2. simpl.
    rewrite lookup_insert_eq, bool_decide_eq_true_2 by done. done.
Qed.

(** ** The promise of an invocation *)

Lemma handle_settlements (pluginName : string) (isAsync : bool)
    (ev : process_event) (ex : execution) :
  ∃ later, settlements (handle pluginName isAsync ex ev)
           = (settlements ex ++ later)%list.
Proof.
  destruct ev as [data|data|message|code signal|]; simpl.
  - unfold onStdout. repeat case_match; simpl;
      first [by exists [] ; rewrite app_nil_r | by eexists].
  - exists []. by rewrite app_nil_r.
  - unfold onError. simpl. case_match; simpl;
      first [by exists [] ; rewrite app_nil_r | by eexists].
  - unfold onExit. simpl. repeat case_match; simpl;
      first [by exists [] ; rewrite app_nil_r | by eexists].
  - unfold onTimer. repeat case_match; simpl;
      first [by exists [] ; rewrite app_nil_r | by eexists].
Qed.

Lemma run_settlements (pluginName : string) (isAsync : bool)
    (events : list process_event) (ex : execution) :
  ∃ later, settlements (run pluginName isAsync events ex)
           = (settlements ex ++ later)%list.
Proof.
  revert ex. induction events as [|ev events IH]; intros ex; simpl.
  - exists []. by rewrite app_nil_r.
  - destruct (IH (handle pluginName isAsync ex ev)) as [l2 ->].
    destruct (handle_settlements pluginName isAsync ev ex) as [l1 ->].
    exists (l1 ++ l2)%list. by rewrite app_assoc.
Qed.

(** A settled promise stays as it is, whatever the child does later. *)
Lemma promiseOf_run (pluginName : string) (isAsync : bool)
    (events : list process_event) (ex : execution) (s : settlement) :
  promiseOf ex = Settled s →
  promiseOf (run pluginName isAsync events ex) = Settled s.
Proof.
  unfold promiseOf. intros Hs.
  destruct (run_settlements pluginName isAsync events ex) as [later ->].
  by destruct (settlements ex).
Qed.

(** The closure variables are in step with the promise: once the child is
    known to have ended, the acknowledgement is sent or the timer is off, a
    call of [resolve] or [reject] has been made. *)
Lemma handle_ended (pluginName : string) (isAsync : bool)
    (ev : process_event) (ex : execution) :
  (ended ex = true → settlements ex ≠ []) →
  (ended (handle pluginName isAsync ex ev) = true →
   settlements (handle pluginName isAsync ex ev) ≠ [])
  ∧ (isFinal ev = true ∨ ended ex = true →
     ended (handle pluginName isAsync ex ev) = true).
Proof.
  unfold ended. intros Hinv.
  assert (∀ (l : list settlement) s, (l ++ [s])%list ≠ []) as Hsnoc.
  { intros l s. by destruct l. }
  destruct ev as [data|data|message|code signal|]; simpl.
  - unfold onStdout.
    destruct (processExited ex) eqn:Hexit, (initialResponseSent ex) eqn:Hsent,
      (timerOff ex) eqn:Htimer, isAsync;
      simpl in *; rewrite ?Hexit, ?Hsent, ?Htimer; simpl;
      repeat case_match; simpl; rewrite ?Hexit, ?Hsent, ?Htimer; simpl;
      split; try done; try (intros _; by apply Hinv); try (intros [|]; done).
  - unfold isFinal. simpl. split; [done|]. by intros [|].
  - unfold onError. simpl.
    destruct (initialResponseSent ex) eqn:Hsent; simpl; rewrite ?Hsent;
      split; try done.
    intros _. apply Hinv. by destruct (processExited ex).
  - unfold onExit. simpl.
    destruct (initialResponseSent ex) eqn:Hsent; simpl; rewrite ?Hsent;
      repeat case_match; simpl; rewrite ?andb_false_r in *; try discriminate;
      split; try done;
      intros _; apply Hinv; by destruct (processExited ex).
  - unfold onTimer.
    destruct (processExited ex) eqn:Hexit, (initialResponseSent ex) eqn:Hsent,
      (timerOff ex) eqn:Htimer, isAsync;
      simpl in *; rewrite ?Hexit, ?Hsent, ?Htimer; simpl;
      split; try done; try (intros _; by apply Hinv).
Qed.

Lemma run_ended (pluginName : string) (isAsync : bool)
    (events : list process_event) (ex : execution) :
  (ended ex = true → settlements ex ≠ []) →
  (ended (run pluginName isAsync events ex) = true →
   settlements (run pluginName isAsync events ex) ≠ [])
  ∧ (Exists (λ ev, isFinal ev = true) events ∨ ended ex = true →
     ended (run pluginName isAsync events ex) = true).
Proof.
  revert ex. induction events as [|ev events IH]; intros ex Hinv; simpl.
  - split; [done|]. intros [H|H]; [by apply Exists_nil in H | done].
  - destruct (handle_ended pluginName isAsync ev ex Hinv) as [Hinv' Hend].
    destruct (IH _ Hinv') as [Hinv'' Hend'].
    split; [done|]. intros [H|H].
    + apply Exists_cons in H as [H|H]; apply Hend'; [right|left]; [|done].
      apply Hend. by left.
    + apply Hend'. right. apply Hend. by right.
Qed.

(** A call of [executePlugin] is answered once the child has ended or the
    time is up: when the events of the child hold an exit, an error or the
    firing of the timer, the promise is settled, whatever the kind of the
    plugin, what the child wrote and the order of the events. *)
Theorem executePlugin_settles (pm : PluginManager) (child : child_process)
    (pluginName : string) :
  Exists (λ ev, isFinal ev = true) (events child) →
  ∃ s, executePlugin pm child pluginName = Settled s.
Proof.
  intros Hfinal. unfold executePlugin.
  destruct (plugins pm !! pluginName) as [plugin|]; [|by eexists].
  destruct (stdioPlugin plugin); simpl; [|by eexists].
  destruct (entryPoint plugin) as [e|]; simpl; [|by eexists].
  destruct (Js.truthy (command e)); simpl; [|by eexists].
  match goal with
  | |- ∃ s, promiseOf (run ?n ?a ?evs ?ex0) = _ =>
      assert (ended ex0 = true → settlements ex0 ≠ []) as Hinv
        by (destruct (stdinError child); done);
      destruct (run_ended n a evs ex0 Hinv) as [Hset Hend]
  end.
  unfold promiseOf.
  match goal with
  | |- ∃ s, match settlements ?e with _ => _ end = _ =>
      destruct (settlements e) as [|s rest] eqn:Hs
  end.
  - exfalso. apply Hset; [|done]. apply Hend. by left.
  - by exists s.
Qed.

Lemma run_app (pluginName : string) (isAsync : bool)
    (before after : list process_event) (ex : execution) :
  run pluginName isAsync (before ++ after) ex
  = run pluginName isAsync after (run pluginName isAsync before ex).
Proof. apply foldl_app. Qed.

(** The failures of a synchronous plugin other than at a regular exit.  While
    the child only writes, the call is not answered; the first event that is
    no output decides: when the time is up the child is killed and the call
    is rejected as timed out, an error of the child process rejects it as
    failed to start, and an exit by SIGKILL rejects it as timed out or
    killed; what comes after that event changes nothing. *)
Theorem sync_failure_modes (pluginName : string)
    (written rest : list process_event) :
  Forall (λ ev, isData ev = true) written →
  promiseOf (run pluginName false written spawned) = Pending
  ∧ promiseOf (run pluginName false (written ++ TimerFires :: rest) spawned)
    = Settled (Reject (Js.lit "Plugin '" ++ pluginName
                         ++ Js.lit "' execution timed out."))
  ∧ killed (run pluginName false (written ++ [TimerFires]) spawned) = true
  ∧ (∀ message,
       promiseOf (run pluginName false (written ++ ProcessError message :: rest)
                    spawned)
       = Settled (Reject (Js.lit "Failed to start plugin '" ++ pluginName
                            ++ Js.lit "': " ++ message)))
  ∧ (∀ code,
       promiseOf (run pluginName false
                    (written ++ ProcessExit code (Some "SIGKILL") :: rest) spawned)
       = Settled (Reject (Js.lit "Plugin '" ++ pluginName
                            ++ Js.lit "' execution timed out or was killed."))).
Proof.
  intros Hdata.
  pose proof (run_sync_data pluginName written spawned Hdata eq_refl) as Hrun.
  simpl in Hrun.
  split_and!.
  - by rewrite Hrun.
  - rewrite run_app, Hrun. simpl. by apply promiseOf_run.
  - by rewrite run_app, Hrun.
  - intros message. rewrite run_app, Hrun. simpl. by apply promiseOf_run.
  - intros code. rewrite run_app, Hrun. simpl. by apply promiseOf_run.
Qed.

(** When writing the input to the child throws, the call is rejected with
    the message of that error, whatever the child does afterwards. *)
Theorem stdin_error_rejects (pm : PluginManager) (child : child_process)
    (pluginName message : string) (plugin : manifest) (e : entry_point) :
  plugins pm !! pluginName = Some plugin → stdioPlugin plugin = true →
  entryPoint plugin = Some e → Js.truthy (command e) = true →
  stdinError child = Some message →
  executePlugin pm child pluginName
  = Settled (Reject (Js.lit "Stdin write error for '" ++ pluginName
                       ++ Js.lit "': " ++ message)).
Proof.
  intros Hplugin Hstdio Hentry Hcommand Hstdin. unfold executePlugin.
  rewrite Hplugin, Hstdio, Hentry, Hcommand, Hstdin. simpl.
  by apply promiseOf_run.
Qed.

(** ** The command of a static plugin *)

Lemma static_run_app (plugin : manifest) (before after : list process_event)
    (ex : Static.execution) :
  Static.run plugin (before ++ after) ex
  = Static.run plugin after (Static.run plugin before ex).
Proof. apply foldl_app. Qed.

Lemma static_run_data (plugin : manifest) (written : list process_event)
    (ex : Static.execution) :
  Forall (λ ev, isData ev = true) written →
  Static.run plugin written ex
  = {| Static.output := Static.output ex ++ stdoutOf written;
       Static.errorOutput := Static.errorOutput ex ++ stderrOf written;
       Static.processExited := Static.processExited ex;
       Static.timerOff := Static.timerOff ex;
       Static.killed := Static.killed ex;
       Static.settlements := Static.settlements ex |}.
Proof.
  intros Hdata. revert ex.
  induction Hdata as [|ev written Hev _ IH]; intros ex; simpl.
  - rewrite !append_empty_r. by destruct ex.
  - destruct ev as [data|data| | |]; try discriminate; simpl;
      rewrite IH; simpl; by rewrite append_assoc.
Qed.

Lemma static_handle_settlements (plugin : manifest) (ev : process_event)
    (ex : Static.execution) :
  ∃ later, Static.settlements (Static.handle plugin ex ev)
           = (Static.settlements ex ++ later)%list.
Proof.
  destruct ev as [data|data|message|code signal|]; simpl.
  - exists []. by rewrite app_nil_r.
  - exists []. by rewrite app_nil_r.
  - by eexists.
  - unfold Static.onExit. repeat case_match; simpl;
      first [by exists [] ; rewrite app_nil_r | by eexists].
  - unfold Static.onTimer. repeat case_match; simpl;
      first [by exists [] ; rewrite app_nil_r | by eexists].
Qed.

(** The first call of [resolve] or [reject] is the outcome. *)
Lemma static_head_run (plugin : manifest) (events : list process_event)
    (ex : Static.execution) (outcome : static_outcome) :
  head (Static.settlements ex) = Some outcome →
  head (Static.settlements (Static.run plugin events ex)) = Some outcome.
Proof.
  revert ex. induction events as [|ev events IH]; intros ex Hhead; [done|].
  simpl. apply IH.
  destruct (static_handle_settlements plugin ev ex) as [later ->].
  by destruct (Static.settlements ex).
Qed.

(** The outcome of the command of a static plugin whose child writes and then
    exits, not killed by SIGKILL: on exit code 0 the trimmed standard output,
    whatever the child wrote to its standard error; on any other code (or
    none) an error whose message holds the code and the whole trimmed
    standard error.  What happens after the exit changes nothing. *)
Theorem static_command_at_exit (plugin : manifest) (child : child_process)
    (written rest : list process_event) (code : option Z)
    (signal : option string) :
  invalidStatic plugin = false →
  Forall (λ ev, isData ev = true) written → signal ≠ Some "SIGKILL" →
  events child = (written ++ ProcessExit code signal :: rest)%list →
  _executeStaticPluginCommand plugin child
  = Some (if bool_decide (code = Some 0%Z)
          then StaticResolved (Js.trim (stdoutOf written))
          else StaticRejected
                 ("Static plugin " ++ name plugin ++ " exited with code "
                    ++ codeText code ++ ". Stderr: " ++ Js.trim (stderrOf written))).
Proof.
  intros Hvalid Hdata Hsignal Hevents. unfold _executeStaticPluginCommand.
  rewrite Hvalid, Hevents, static_run_app.
  rewrite (static_run_data plugin written) by done.
  simpl. apply static_head_run. unfold Static.onExit. simpl.
  rewrite bool_decide_eq_false_2 by done. by case_bool_decide.
Qed.

(** A static child that is killed by SIGKILL while the timer is still on
    leaves the refresh without an answer: the exit handler clears the timer
    and returns, so that neither [resolve] nor [reject] is called, whatever
    the child writes and whenever the timer would have fired. *)
Theorem static_command_killed_is_pending (plugin : manifest)
    (child : child_process) (written rest : list process_event)
    (code : option Z) :
  invalidStatic plugin = false →
  Forall (λ ev, isData ev = true) written →
  Forall (λ ev, isData ev = true ∨ ev = TimerFires) rest →
  events child = (written ++ ProcessExit code (Some "SIGKILL") :: rest)%list →
  _executeStaticPluginCommand plugin child = None.
Proof.
  intros Hvalid Hdata Hrest Hevents. unfold _executeStaticPluginCommand.
  rewrite Hvalid, Hevents, static_run_app.
  rewrite (static_run_data plugin written) by done.
  simpl. unfold Static.onExit. simpl. clear Hevents.
  match goal with
  | |- head (Static.settlements (Static.run _ _ ?ex)) = None =>
      assert (Static.timerOff ex = true ∧ Static.settlements ex = []) as Hex
        by done;
      generalize dependent ex
  end.
  induction Hrest as [|ev rest Hev _ IH]; intros ex [Htimer Hnone]; simpl.
  - by rewrite Hnone.
  - apply IH. destruct Hev as [Hev| ->].
    + destruct ev; try discriminate; simpl; done.
    + simpl. unfold Static.onTimer. by rewrite Htimer.
Qed.

(** One step of [trimStart]. *)
Lemma trimStart_eq (s : string) :
  Js.trimStart s
  = match s with
    | String c1 s1 =>
        if Js.is_space c1 then Js.trimStart s1
        else
          match s1 with
          | String c2 s2 =>
              if Js.is_space2 c1 c2 then Js.trimStart s2
              else
                match s2 with
                | String c3 s3 =>
                    if Js.is_space3 c1 c2 c3 then Js.trimStart s3 else s
                | EmptyString => s
                end
          | EmptyString => s
          end
    | EmptyString => EmptyString
    end.
Proof. by destruct s. Qed.

Lemma trimStart_fixed (s : string) :
  Js.startsWithSpace s = false → Js.trimStart s = s.
Proof.
  intros H. rewrite trimStart_eq.
  destruct s as [|c1 s1]; [done|]. simpl in H.
  apply orb_false_elim in H as [-> H].
  destruct s1 as [|c2 s2]; [done|].
  apply orb_false_elim in H as [-> H].
  destruct s2 as [|c3 s3]; [done|]. by rewrite H.
Qed.

(** An induction along the white space that [trimStart] drops. *)
Lemma trimStart_ind (P : string → string → Prop) :
  (∀ c s, Js.is_space c = true →
          P s (Js.trimStart s) → P (String c s) (Js.trimStart s)) →
  (∀ c1 c2 s, Js.is_space c1 = false → Js.is_space2 c1 c2 = true →
              P s (Js.trimStart s) → P (String c1 (String c2 s)) (Js.trimStart s)) →
  (∀ c1 c2 c3 s, Js.is_space c1 = false → Js.is_space2 c1 c2 = false →
                 Js.is_space3 c1 c2 c3 = true →
                 P s (Js.trimStart s) →
                 P (String c1 (String c2 (String c3 s))) (Js.trimStart s)) →
  (∀ s, Js.startsWithSpace s = false → P s s) →
  ∀ s, P s (Js.trimStart s).
Proof.
  intros H1 H2 H3 Hstop s.
  assert (∀ n s, (String.length s < n)%nat → P s (Js.trimStart s)) as Hall;
    [|apply (Hall (S (String.length s))); lia].
  clear s. induction n as [|n IH]; intros s Hlen; [lia|].
  destruct (Js.startsWithSpace s) eqn:Hs.
  2:{ rewrite trimStart_fixed by done. by apply Hstop. }
  destruct s as [|c1 s1]; [done|]. simpl in Hs, Hlen.
  rewrite trimStart_eq.
  destruct (Js.is_space c1) eqn:Hc1.
  { apply H1; [done|]. apply IH. lia. }
  destruct s1 as [|c2 s2]; [done|]. simpl in Hs, Hlen.
  destruct (Js.is_space2 c1 c2) eqn:Hc2.
  { apply H2; [done..|]. apply IH. lia. }
  destruct s2 as [|c3 s3]; [done|]. simpl in Hs, Hlen.
  rewrite Hs. apply H3; [done..|]. apply IH. lia.
Qed.

Lemma trimStart_stops (s : string) :
  Js.startsWithSpace (Js.trimStart s) = false.
Proof. by apply (trimStart_ind (λ _ t, Js.startsWithSpace t = false)). Qed.

Lemma trimStart_idempotent (s : string) :
  Js.trimStart (Js.trimStart s) = Js.trimStart s.
Proof. apply trimStart_fixed, trimStart_stops. Qed.

Lemma trimStart_app_blank (s t : string) :
  Js.trimStart s = EmptyString → Js.trimStart (s ++ t) = Js.trimStart t.
Proof.
  apply (trimStart_ind
           (λ s r, r = EmptyString → Js.trimStart (s ++ t) = Js.trimStart t)).
  - intros c s' Hc IH Hr.
    change (Js.trimStart (String c (s' ++ t)) = Js.trimStart t).
    rewrite trimStart_eq, Hc. by apply IH.
  - intros c1 c2 s' Hc1 Hc2 IH Hr.
    change (Js.trimStart (String c1 (String c2 (s' ++ t))) = Js.trimStart t).
    rewrite trimStart_eq, Hc1, Hc2. by apply IH.
  - intros c1 c2 c3 s' Hc1 Hc2 Hc3 IH Hr.
    change (Js.trimStart (String c1 (String c2 (String c3 (s' ++ t))))
            = Js.trimStart t).
    rewrite trimStart_eq, Hc1, Hc2, Hc3. by apply IH.
  - by intros s' _ ->.
Qed.

Lemma blank_app (s t : string) :
  Js.blank s = true → Js.blank t = true → Js.blank (s ++ t) = true.
Proof.
  unfold Js.blank. intros Hs Ht.
  rewrite trimStart_app_blank; [done|]. by destruct (Js.trimStart s).
Qed.

(** What [trimEnd] drops is white space. *)
Lemma trimEnd_split (s : string) :
  ∃ dropped, s = Js.trimEnd s ++ dropped ∧ Js.blank dropped = true.
Proof.
  induction s as [|c s (dropped & Hs & Hblank)]; [by exists EmptyString|].
  cbn [Js.trimEnd]. destruct (Js.blank (String c s)) eqn:Hb.
  - by exists (String c s).
  - exists dropped. split; [|done].
    change (String c s = String c (Js.trimEnd s ++ dropped)). by rewrite <- Hs.
Qed.

Lemma trimEnd_idempotent (s : string) : Js.trimEnd (Js.trimEnd s) = Js.trimEnd s.
Proof.
  induction s as [|c s IH]; [done|].
  cbn [Js.trimEnd]. destruct (Js.blank (String c s)) eqn:Hb; [done|].
  cbn [Js.trimEnd]. rewrite IH.
  destruct (Js.blank (String c (Js.trimEnd s))) eqn:Hkept; [|done].
  destruct (trimEnd_split s) as (dropped & Hs & Hblank).
  rewrite Hs in Hb.
  change (Js.blank (String c (Js.trimEnd s) ++ dropped) = false) in Hb.
  by rewrite blank_app in Hb.
Qed.

Lemma startsWithSpace_app (s t : string) :
  Js.startsWithSpace s = true → Js.startsWithSpace (s ++ t) = true.
Proof.
  destruct s as [|c1 [|c2 [|c3 s3]]]; [done|..].
  - change (String c1 EmptyString ++ t) with (String c1 t). simpl.
    rewrite !orb_false_r. by intros ->.
  - change (String c1 (String c2 EmptyString) ++ t) with (String c1 (String c2 t)).
    simpl. rewrite !orb_false_r.
    intros [->| ->]%orb_true_iff; [done|]. by rewrite !orb_true_r.
  - done.
Qed.

Lemma trimStart_trimEnd (s : string) :
  Js.trimStart s = s → Js.trimStart (Js.trimEnd s) = Js.trimEnd s.
Proof.
  intros Hs. apply trimStart_fixed.
  destruct (Js.startsWithSpace (Js.trimEnd s)) eqn:Hstart; [|done].
  destruct (trimEnd_split s) as (dropped & Hsplit & _).
  apply (startsWithSpace_app _ dropped) in Hstart. rewrite <- Hsplit in Hstart.
  by rewrite <- Hs, trimStart_stops in Hstart.
Qed.

(** Trimming a trimmed text changes nothing. *)
Lemma trim_idempotent (s : string) : Js.trim (Js.trim s) = Js.trim s.
Proof.
  unfold Js.trim.
  rewrite trimStart_trimEnd by apply trimStart_idempotent.
  apply trimEnd_idempotent.
Qed.

(** White space is what [trim] of the engine takes for it, also outside
    ASCII, and [substring] counts UTF-16 code units: a character of the basic
    plane is one of them whatever the number of its bytes, a character beyond
    it is two. *)
Example trim_and_substring :
  Js.trim (ideographicSpace ++ "晴" ++ noBreakSpace) = "晴"
  ∧ Js.trim (ideographicSpace ++ noBreakSpace ++ String "010" EmptyString)
    = EmptyString
  ∧ Js.trim (byteOrderMark ++ " {} " ++ String "013" EmptyString) = "{}"
  ∧ Js.trim "a b" = "a b"
  ∧ Js.substring0 2 "晴天雨" = "晴天"
  ∧ Js.substring0 3 "a😀b" = "a😀"
  ∧ Js.units "a😀b" = [97; 55357; 56832; 98]%N
  ∧ _executeStaticPluginCommand weatherReporter paddedChild
    = Some (StaticResolved "晴").
Proof. split_and!; vm_compute; reflexivity. Qed.

(** A refresh, from the child to the table: when the child of a static plugin
    writes text that is not blank and exits with code 0, every placeholder
    the plugin declares is served with the trimmed standard output
    afterwards, whatever the table held. *)
Theorem static_refresh_publishes_output (plugin : manifest)
    (child : child_process) (written rest : list process_event)
    (signal : option string) (pm : PluginManager) :
  invalidStatic plugin = false →
  Forall (λ ev, isData ev = true) written → signal ≠ Some "SIGKILL" →
  events child = (written ++ ProcessExit (Some 0%Z) signal :: rest)%list →
  Js.truthy (Js.trim (stdoutOf written)) = true →
  ∃ outcome,
    _executeStaticPluginCommand plugin child = Some outcome
    ∧ ∀ placeholder,
        placeholder ∈ systemPromptPlaceholders plugin →
        getPlaceholderValue (_updateStaticPluginValue plugin outcome pm) placeholder
        = Js.trim (stdoutOf written).
Proof.
  intros Hvalid Hdata Hsignal Hevents Htext.
  exists (StaticResolved (Js.trim (stdoutOf written))). split.
  - unfold _executeStaticPluginCommand.
    rewrite Hvalid, Hevents, static_run_app.
    rewrite (static_run_data plugin written) by done.
    simpl. apply static_head_run. unfold Static.onExit. simpl.
    by rewrite bool_decide_eq_false_2 by done.
  - intros placeholder Hin. unfold getPlaceholderValue.
    rewrite updateStaticPluginValue_lookup, decide_True by done.
    simpl. by rewrite trim_idempotent, !Htext.
Qed.

(** ** The start of the static plugins *)

#[local] Arguments loadingText : simpl never.

Lemma loading_fold_lookup (text : string) (keys : list string)
    (values : gmap string string) (key : string) :
  foldl (λ acc placeholder, <[placeholder := text]> acc) values keys !! key
  = if decide (key ∈ keys) then Some text else values !! key.
Proof.
  revert values. induction keys as [|k keys IH]; intros values; [done|].
  cbn [foldl]. rewrite IH. destruct (decide (key = k)) as [->|Hne].
  - rewrite (decide_True (P := k ∈ k :: keys)) by apply list_elem_of_here.
    rewrite lookup_insert_eq. by case_decide.
  - rewrite lookup_insert_ne by done.
    destruct (decide (key ∈ keys)) as [Hin|Hout].
    + by rewrite decide_True by (by apply list_elem_of_further).
    + by rewrite decide_False by (by intros [?|?]%elem_of_cons).
Qed.

Lemma setLoading_lookup (values : gmap string string) (plugin : manifest)
    (key : string) :
  setLoading values plugin !! key
  = if bool_decide (pluginType plugin = "static")
       && bool_decide (key ∈ systemPromptPlaceholders plugin)
    then Some (loadingText plugin) else values !! key.
Proof.
  unfold setLoading. case_bool_decide; simpl; [|done].
  rewrite loading_fold_lookup. by repeat case_decide; case_bool_decide.
Qed.

Lemma initialize_lookup (pluginValues : list manifest)
    (values : gmap string string) (key : string) :
  (∃ p, p ∈ pluginValues ∧ pluginType p = "static"
        ∧ key ∈ systemPromptPlaceholders p
        ∧ foldl setLoading values pluginValues !! key = Some (loadingText p))
  ∨ ((∀ p, p ∈ pluginValues → pluginType p = "static" →
           key ∉ systemPromptPlaceholders p)
     ∧ foldl setLoading values pluginValues !! key = values !! key).
Proof.
  induction pluginValues as [|p pluginValues IH] using rev_ind.
  - right. split; [|done]. by intros p ?%elem_of_nil.
  - rewrite foldl_app. cbn [foldl]. rewrite setLoading_lookup.
    case_bool_decide as Hstatic; simpl.
    + case_bool_decide as Hdeclares.
      * left. exists p. split_and!; try done. apply elem_of_app. right.
        apply list_elem_of_here.
      * destruct IH as [(q & Hq & Hrest)|[Hnone Hsame]].
        -- left. exists q. split; [|done]. apply elem_of_app. by left.
        -- right. split; [|done].
           intros q [Hq|Hq%list_elem_of_singleton]%elem_of_app;
             [by apply Hnone | by subst q].
    + destruct IH as [(q & Hq & Hrest)|[Hnone Hsame]].
      * left. exists q. split; [|done]. apply elem_of_app. by left.
      * right. split; [|done].
        intros q [Hq|Hq%list_elem_of_singleton]%elem_of_app;
             [by apply Hnone | by subst q].
Qed.

(** The start of the static plugins sets every placeholder that a static
    plugin declares to the loading text of such a plugin, and this text is
    what is served.  The text counts as a value: a first refresh that fails,
    or that gives blank output, leaves it in place (unless the display name
    makes it start with "[Error"), so that neither the error text nor the
    "unavailable" text is ever installed for a placeholder that was
    initialised. *)
Theorem failed_first_refresh_keeps_loading (pluginValues : list manifest)
    (pm : PluginManager) (plugin : manifest) (placeholder : string) :
  plugin ∈ pluginValues → pluginType plugin = "static" →
  placeholder ∈ systemPromptPlaceholders plugin →
  let initialized := initializeStaticPlugins pluginValues pm in
  ∃ p, p ∈ pluginValues ∧ pluginType p = "static"
       ∧ placeholder ∈ systemPromptPlaceholders p
       ∧ staticPlaceholderValues initialized !! placeholder = Some (loadingText p)
       ∧ getPlaceholderValue initialized placeholder = loadingText p
       ∧ (Js.startsWith "[Error" (loadingText p) = false →
          ∀ refreshedPlugin outcome,
            match outcome with
            | StaticResolved newValue => Js.truthy (Js.trim newValue) = false
            | StaticRejected _ => True
            end →
            staticPlaceholderValues
              (_updateStaticPluginValue refreshedPlugin outcome initialized)
              !! placeholder
            = Some (loadingText p)).
Proof.
  intros Hin Hstatic Hdeclares initialized.
  destruct (initialize_lookup pluginValues (staticPlaceholderValues pm) placeholder)
    as [(p & Hp & Hpstatic & Hpdeclares & Hvalue)|[Hnone _]];
    [|by destruct (Hnone plugin Hin Hstatic)].
  assert (Js.truthy (loadingText p) = true) as Htruthy by done.
  exists p. split_and!; try done.
  - unfold getPlaceholderValue, initialized, initializeStaticPlugins. simpl.
    by rewrite Hvalue, Htruthy.
  - intros Hnoerror refreshedPlugin outcome Houtcome.
    rewrite updateStaticPluginValue_lookup.
    case_decide; [|done].
    unfold initialized, initializeStaticPlugins. simpl. rewrite Hvalue.
    destruct outcome as [newValue|message]; unfold refreshed.
    + by rewrite Houtcome.
    + by rewrite Htruthy, Hnoerror.
Qed.

(** ** Remote sessions *)

Lemma registerTool_lookup (sid : string) (known : gmap string manifest)
    (tool : manifest) (key : string) (m : manifest) :
  registerTool sid known tool !! key = Some m →
  known !! key = Some m
  ∨ (known !! key = None ∧ incomplete tool = false ∧ name tool = key
     ∧ m = markDistributed sid tool).
Proof.
  unfold registerTool.
  destruct (incomplete tool); [by left|].
  destruct (known !! name tool) eqn:Hname; [by left|].
  rewrite lookup_insert. case_decide as Heq.
  - intros [= <-]. right. by subst key.
  - by left.
Qed.

Lemma register_fold_lookup (sid : string) (tools : list manifest)
    (known : gmap string manifest) (key : string) (m : manifest) :
  foldl (registerTool sid) known tools !! key = Some m →
  known !! key = Some m
  ∨ (known !! key = None
     ∧ ∃ tool, tool ∈ tools ∧ incomplete tool = false ∧ name tool = key
               ∧ m = markDistributed sid tool).
Proof.
  revert known. induction tools as [|tool tools IH]; intros known; simpl.
  - by left.
  - intros [Hm|(Hnone & tool' & Hin & Htool)]%IH.
    + apply registerTool_lookup in Hm as [Hm|(Hnone & Hc & Hn & ->)]; [by left|].
      right. split; [done|]. exists tool. split; [apply list_elem_of_here | done].
    + right. split.
      * destruct (known !! key) as [m'|] eqn:Hkey; [|done].
        by rewrite (registerTool_keeps sid known tool key m' Hkey) in Hnone.
      * exists tool'. split; [by apply list_elem_of_further | done].
Qed.

Lemma register_fold_registers (sid : string) (tools : list manifest)
    (known : gmap string manifest) (tool : manifest) :
  tool ∈ tools → incomplete tool = false →
  is_Some (foldl (registerTool sid) known tools !! name tool).
Proof.
  revert known. induction tools as [|t tools IH]; intros known Hin Hcomplete.
  - by apply elem_of_nil in Hin.
  - simpl. apply elem_of_cons in Hin as [->|Hin]; [|by apply IH].
    assert (is_Some (registerTool sid known t !! name t)) as [m Hm].
    { unfold registerTool. rewrite Hcomplete.
      destruct (known !! name t) eqn:Hname; [by rewrite Hname|].
      by rewrite lookup_insert_eq. }
    exists m. by apply register_fold_keeps.
Qed.

(** What a registration adds: every entry of the map afterwards was there
    before, or is a tool of the list, stored under its name and marked as
    distributed, with the session as its server and the cloud prefix before
    its display name; and every complete tool of the list is in the map
    afterwards, under its name (as announced now, or as registered before). *)
Theorem registered_tools_are_marked (sid : string) (tools : list manifest)
    (pm : PluginManager) :
  (∀ key m,
     plugins (registerDistributedTools sid tools pm) !! key = Some m →
     plugins pm !! key = Some m
     ∨ (plugins pm !! key = None
        ∧ isDistributed m = true ∧ serverId m = Some sid ∧ name m = key
        ∧ ∃ tool, tool ∈ tools ∧ name tool = key
                  ∧ displayName m = Some (cloudPrefix ++ shownName tool)
                  ∧ pluginType m = pluginType tool
                  ∧ entryPoint m = entryPoint tool))
  ∧ (∀ tool, tool ∈ tools → incomplete tool = false →
       is_Some (plugins (registerDistributedTools sid tools pm) !! name tool)).
Proof.
  split.
  - intros key m [Hm|(Hnone & tool & Hin & Hc & Hn & ->)]%register_fold_lookup;
      [by left|].
    right. split_and!; try done. by exists tool.
  - intros tool Hin Hcomplete. by apply register_fold_registers.
Qed.

(** Registering the tools of a session and then ending the session leaves the
    manifest map as it was, provided that the map held no tool of that
    session before. *)
Theorem register_unregister_round_trip (sid : string) (tools : list manifest)
    (pm : PluginManager) :
  (∀ key m, plugins pm !! key = Some m →
            isDistributed m = true → serverId m = Some sid → False) →
  plugins (unregisterAllDistributedTools sid (registerDistributedTools sid tools pm))
  = plugins pm.
Proof.
  intros Hfree. apply map_eq. intros key. apply option_eq. intros m.
  rewrite unregister_lookup. split.
  - intros [[Hm|(_ & tool & _ & _ & _ & ->)]%register_fold_lookup Hnot]; [done|].
    destruct Hnot. done.
  - intros Hm. split.
    + by apply register_fold_keeps.
    + intros [Hd Hs]. by apply (Hfree key m).
Qed.

Lemma push_fold_lookup (placeholders : list (string * string))
    (values : gmap string string) (key : string) :
  key ∉ placeholders.*1 →
  foldl (λ acc kv, <[kv.1 := kv.2]> acc) values placeholders !! key
  = values !! key.
Proof.
  revert values. induction placeholders as [|[k v] placeholders IH];
    intros values Hkey; simpl; [done|].
  rewrite fmap_cons, not_elem_of_cons in Hkey. destruct Hkey as [Hne Hout].
  rewrite IH by done. simpl. by rewrite lookup_insert_ne.
Qed.

(** The placeholders a remote node pushes are written under their bare
    names: each pushed value is what the table holds afterwards, whatever it
    held before (a value that a local static plugin wrote, or another node
    pushed, is replaced), and it is the value served when it is not empty;
    a placeholder that is not in the push keeps its entry. *)
Theorem pushed_placeholder_is_served (sid serverName : string)
    (placeholders : list (string * string)) (pm : PluginManager) :
  NoDup placeholders.*1 →
  let pushed := updateDistributedStaticPlaceholders sid serverName placeholders pm in
  (∀ placeholder value,
     (placeholder, value) ∈ placeholders →
     staticPlaceholderValues pushed !! placeholder = Some value
     ∧ (Js.truthy value = true → getPlaceholderValue pushed placeholder = value))
  ∧ (∀ placeholder,
       placeholder ∉ placeholders.*1 →
       staticPlaceholderValues pushed !! placeholder
       = staticPlaceholderValues pm !! placeholder).
Proof.
  intros Hnodup pushed. subst pushed.
  assert (∀ placeholder value (values : gmap string string),
            NoDup placeholders.*1 → (placeholder, value) ∈ placeholders →
            foldl (λ acc kv, <[kv.1 := kv.2]> acc) values placeholders !! placeholder
            = Some value) as Hset.
  { clear. induction placeholders as [|[k v] placeholders IH];
      intros placeholder value values Hnodup Hin; simpl.
    - by apply elem_of_nil in Hin.
    - rewrite fmap_cons in Hnodup. apply NoDup_cons in Hnodup as [Hk Hnodup].
      apply elem_of_cons in Hin as [[= -> ->]|Hin].
      + rewrite push_fold_lookup by done. simpl. by rewrite lookup_insert_eq.
      + by apply IH. }
  split.
  - intros placeholder value Hin.
    pose proof (Hset placeholder value (staticPlaceholderValues pm) Hnodup Hin) as Hv.
    split; [done|]. intros Htruthy. unfold getPlaceholderValue.
    unfold updateDistributedStaticPlaceholders in *. simpl in *.
    by rewrite Hv, Htruthy.
  - intros placeholder Hout. by apply push_fold_lookup.
Qed.

(** ** The scan of the plugin directory *)

Lemma alist_set_keys {A} (k : string) (v : A) (l : list (string * A)) :
  (alist_set k v l).*1 = if decide (k ∈ l.*1) then l.*1 else (l.*1 ++ [k])%list.
Proof.
  induction l as [|[k' v'] l IH]; [done|].
  cbn [alist_set fmap list_fmap fst].
  destruct (String.eqb k k') eqn:Hk; cbn [fmap list_fmap fst].
  - apply String.eqb_eq in Hk as ->.
    by rewrite decide_True by apply list_elem_of_here.
  - apply String.eqb_neq in Hk. rewrite IH.
    destruct (decide (k ∈ l.*1)) as [Hin|Hout].
    + by rewrite decide_True by (by apply list_elem_of_further).
    + by rewrite decide_False by (by intros [?|?]%elem_of_cons).
Qed.

Lemma alist_set_elem {A} (k : string) (v : A) (l : list (string * A))
    (n : string) (x : A) :
  (n, x) ∈ alist_set k v l → (n = k ∧ x = v) ∨ (n, x) ∈ l.
Proof.
  induction l as [|[k' v'] l IH]; simpl.
  - intros [[= -> ->]|[]%elem_of_nil]%elem_of_cons. by left.
  - destruct (String.eqb k k'); intros [[= -> ->]|Hin]%elem_of_cons.
    + by left.
    + right. by apply list_elem_of_further.
    + right. apply list_elem_of_here.
    + destruct (IH Hin) as [?|?]; [by left|]. right. by apply list_elem_of_further.
Qed.

Lemma alist_get_Some {A} (k : string) (l : list (string * A)) (v : A) :
  alist_get k l = Some v → (k, v) ∈ l.
Proof.
  induction l as [|[k' v'] l IH]; simpl; [done|].
  destruct (String.eqb k k') eqn:Hk.
  - apply String.eqb_eq in Hk as ->. intros [= ->]. apply list_elem_of_here.
  - intros H. by apply list_elem_of_further, IH.
Qed.

Lemma alist_get_is_Some {A} (k : string) (l : list (string * A)) :
  is_Some (alist_get k l) ↔ k ∈ l.*1.
Proof.
  induction l as [|[k' v'] l IH]; simpl.
  - split; [by intros [? ?] | by intros ?%elem_of_nil].
  - destruct (String.eqb k k') eqn:Hk.
    + apply String.eqb_eq in Hk as ->. split; [|by eexists].
      intros _. apply list_elem_of_here.
    + apply String.eqb_neq in Hk. rewrite IH, elem_of_cons. naive_solver.
Qed.

Lemma scanFolder_invariant (dir : string) (st : scan_state) (folder : plugin_folder) :
  scanInvariant st → scanInvariant (scanFolder dir st folder).
Proof.
  intros (Hnodup & Hpre & Hsvc). unfold scanFolder.
  destruct (is_directory folder); simpl; [|done].
  destruct (manifest_json folder) as [parsed|]; [|done].
  destruct (incomplete parsed); [done|].
  destruct (scanned st !! name parsed) eqn:Hname; [done|].
  set (m := located dir folder parsed).
  assert (name m = name parsed) as Hm by done.
  assert (scanInvariant
            {| scanned := <[name m := m]> (scanned st);
               discoveredPreprocessors := discoveredPreprocessors st;
               services := services st |}) as Hst1.
  { split_and!; simpl; [done|..].
    - intros n md Hin. destruct (Hpre n md Hin) as (Hpm & m' & Hm' & Hrest).
      split; [done|]. exists m'. split; [|done].
      rewrite lookup_insert_ne; [done|]. simpl. congruence.
    - intros n m' md Hin. destruct (Hsvc n m' md Hin) as [Hm' Hs].
      split; [|done]. rewrite lookup_insert_ne; [done|]. simpl. congruence. }
  destruct ((isPreprocessor m || isService m) && directScript m) eqn:Hkind;
    [|done].
  destruct (script_module folder) as [md|]; [|done].
  destruct (has_initialize md && initialize_throws md); [done|].
  apply andb_true_iff in Hkind as [_ Hdirect].
  destruct Hst1 as (_ & Hpre1 & Hsvc1). simpl in Hpre1, Hsvc1.
  split_and!; simpl.
  - destruct (isPreprocessor m && has_processMessages md); [|done].
    rewrite alist_set_keys. case_decide; [done|].
    apply NoDup_app. split_and!; [done| |apply NoDup_singleton].
    intros n Hn ->%list_elem_of_singleton. done.
  - intros n md'.
    destruct (isPreprocessor m && has_processMessages md) eqn:Hp; [|apply Hpre1].
    apply andb_true_iff in Hp as [Hp Hpm].
    intros [[-> ->]|Hin]%alist_set_elem; [|by apply Hpre1].
    split; [done|]. exists m. by rewrite lookup_insert_eq.
  - intros n m' md'. destruct (isService m) eqn:Hs; [|apply Hsvc1].
    rewrite lookup_insert. case_decide as Heq; [|apply Hsvc1].
    intros [= <- <-]. subst n. by rewrite lookup_insert_eq.
Qed.

Lemma scan_invariant (dir : string) (folders : list plugin_folder) (st : scan_state) :
  scanInvariant st → scanInvariant (foldl (scanFolder dir) st folders).
Proof.
  revert st. induction folders as [|folder folders IH]; intros st Hinv; simpl.
  - done.
  - by apply IH, scanFolder_invariant.
Qed.

Lemma scanAll_invariant (dir : string) (pm : PluginManager)
    (folders : list plugin_folder) :
  scanInvariant (scanAll dir (resetForReload pm) folders).
Proof.
  apply scan_invariant. split_and!; simpl.
  - apply NoDup_nil_2.
  - by intros n md ?%elem_of_nil.
  - intros n m md. by rewrite lookup_empty.
Qed.

Lemma registerPreprocessors_lookup (discovered : list (string * plugin_module))
    (finalOrder : list string) (n : string) :
  registerPreprocessors discovered finalOrder !! n
  = if decide (n ∈ finalOrder) then alist_get n discovered else None.
Proof.
  unfold registerPreprocessors.
  assert (∀ acc : gmap string plugin_module,
            foldl (λ acc pluginName,
                     match alist_get pluginName discovered with
                     | Some md => <[pluginName := md]> acc
                     | None => acc
                     end) acc finalOrder !! n
            = if decide (n ∈ finalOrder)
              then match alist_get n discovered with
                   | Some md => Some md
                   | None => acc !! n
                   end
              else acc !! n) as Hfold.
  { induction finalOrder as [|x order IH]; intros acc; [done|].
    cbn [foldl]. rewrite IH. destruct (decide (n = x)) as [->|Hne].
    - rewrite (decide_True (P := x ∈ x :: order)) by apply list_elem_of_here.
      destruct (alist_get x discovered) as [md|] eqn:Hget.
      + rewrite lookup_insert_eq. by case_decide.
      + by case_decide.
    - assert (∀ acc' : gmap string plugin_module,
                  match alist_get x discovered with
                  | Some md => <[x := md]> acc'
                  | None => acc'
                  end !! n = acc' !! n) as Hother.
      { intros acc'. destruct (alist_get x discovered); [|done].
        by rewrite lookup_insert_ne. }
      rewrite Hother.
      destruct (decide (n ∈ order)) as [Hin|Hout].
      + by rewrite decide_True by (by apply list_elem_of_further).
      + by rewrite decide_False by (by intros [?|?]%elem_of_cons). }
  rewrite Hfold, lookup_empty. case_decide; [|done].
  by destruct (alist_get n discovered).
Qed.

Lemma reconcileOrder_elem (file : order_file) (discovered : list string) (n : string) :
  n ∈ reconcileOrder file discovered ↔ n ∈ discovered.
Proof.
  rewrite reconcileOrder_spec, elem_of_app. unfold keptNames, newNames, sortNames.
  rewrite elem_of_firsts, merge_sort_Permutation, !list_elem_of_filter.
  destruct (decide (n ∈ savedOrder file)); naive_solver.
Qed.

Lemma reconcileOrder_NoDup (file : order_file) (discovered : list string) :
  NoDup discovered → NoDup (reconcileOrder file discovered).
Proof.
  intros Hnodup. rewrite reconcileOrder_spec. apply NoDup_app. split_and!.
  - apply NoDup_firsts.
  - intros n. unfold keptNames, newNames, sortNames.
    rewrite elem_of_firsts, merge_sort_Permutation, !list_elem_of_filter.
    naive_solver.
  - unfold newNames, sortNames. rewrite merge_sort_Permutation.
    by apply NoDup_filter.
Qed.

(** After a load that could list the plugin directory, the order of the
    preprocessors and the registered modules agree: the order names each
    preprocessor once, a name is in the order exactly when a module is
    registered under it, every registered module has [processMessages] and
    belongs to a plugin of the manifest map that is a message preprocessor
    (or hybrid service) with a direct script; and every service module
    belongs to a service plugin of the map. *)
Theorem loadPlugins_registers_order (fs : file_system) (pm : PluginManager)
    (folders : list plugin_folder) :
  pluginFolders fs = Some folders →
  let loaded := (loadPlugins fs pm).1 in
  NoDup (preprocessorOrder loaded)
  ∧ (∀ n, n ∈ preprocessorOrder loaded ↔ is_Some (messagePreprocessors loaded !! n))
  ∧ (∀ n md, messagePreprocessors loaded !! n = Some md →
       has_processMessages md = true
       ∧ ∃ m, plugins loaded !! n = Some m ∧ isPreprocessor m = true
              ∧ directScript m = true)
  ∧ (∀ n m md, serviceModules loaded !! n = Some (m, md) →
       plugins loaded !! n = Some m ∧ isService m = true).
Proof.
  intros Hfolders loaded. subst loaded. unfold loadPlugins. rewrite Hfolders.
  simpl.
  destruct (scanAll_invariant (PLUGIN_DIR fs) pm folders) as (Hnodup & Hpre & Hsvc).
  set (st := scanAll (PLUGIN_DIR fs) (resetForReload pm) folders) in *.
  split_and!.
  - by apply reconcileOrder_NoDup.
  - intros n. rewrite registerPreprocessors_lookup.
    case_decide as Hin.
    + split; [|done]. intros _. apply alist_get_is_Some.
      by apply reconcileOrder_elem in Hin.
    + split; [done|]. by intros [? ?].
  - intros n md. rewrite registerPreprocessors_lookup.
    case_decide; [|done]. intros Hget%alist_get_Some. by apply Hpre.
  - apply Hsvc.
Qed.

Lemma scanFolder_lookup (dir : string) (st : scan_state) (folder : plugin_folder)
    (key : string) (m : manifest) :
  scanned (scanFolder dir st folder) !! key = Some m →
  scanned st !! key = Some m
  ∨ (scanned st !! key = None ∧ is_directory folder = true
     ∧ ∃ parsed, manifest_json folder = Some parsed ∧ incomplete parsed = false
                 ∧ name parsed = key ∧ m = located dir folder parsed).
Proof.
  unfold scanFolder.
  destruct (is_directory folder); simpl; [|by left].
  destruct (manifest_json folder) as [parsed|]; [|by left].
  destruct (incomplete parsed) eqn:Hcomplete; [by left|].
  destruct (scanned st !! name parsed) eqn:Hname; [by left|].
  assert (∀ known : gmap string manifest,
            known = <[name parsed := located dir folder parsed]> (scanned st) →
            known !! key = Some m →
            scanned st !! key = Some m
            ∨ (scanned st !! key = None ∧ true = true
               ∧ ∃ parsed', Some parsed = Some parsed' ∧ incomplete parsed' = false
                            ∧ name parsed' = key
                            ∧ m = located dir folder parsed')) as Hins.
  { intros known ->. rewrite lookup_insert. case_decide as Heq.
    - intros [= <-]. right. subst key. split_and!; try done. by exists parsed.
    - by left. }
  repeat case_match; simpl; by apply Hins.
Qed.

Lemma scan_lookup (dir : string) (folders : list plugin_folder) (st : scan_state)
    (key : string) (m : manifest) :
  scanned (foldl (scanFolder dir) st folders) !! key = Some m →
  scanned st !! key = Some m
  ∨ (scanned st !! key = None
     ∧ ∃ folder parsed,
         folder ∈ folders ∧ is_directory folder = true
         ∧ manifest_json folder = Some parsed ∧ incomplete parsed = false
         ∧ name parsed = key ∧ m = located dir folder parsed).
Proof.
  revert st. induction folders as [|folder folders IH]; intros st; simpl.
  - by left.
  - intros [Hm|(Hnone & f & parsed & Hin & Hrest)]%IH.
    + apply scanFolder_lookup in Hm as [Hm|(Hnone & Hdir & parsed & Hrest)];
        [by left|].
      right. split; [done|]. exists folder, parsed.
      split; [apply list_elem_of_here | done].
    + right. split.
      * destruct (scanned st !! key) as [m'|] eqn:Hkey; [|done].
        by rewrite (scanFolder_keeps dir st folder key m' Hkey) in Hnone.
      * exists f, parsed. split; [by apply list_elem_of_further | done].
Qed.

Lemma scan_covers (dir : string) (folders : list plugin_folder) (st : scan_state)
    (folder : plugin_folder) (parsed : manifest) :
  folder ∈ folders → is_directory folder = true →
  manifest_json folder = Some parsed → incomplete parsed = false →
  is_Some (scanned (foldl (scanFolder dir) st folders) !! name parsed).
Proof.
  revert st. induction folders as [|f folders IH];
    intros st Hin Hdir Hparsed Hcomplete.
  - by apply elem_of_nil in Hin.
  - simpl. apply elem_of_cons in Hin as [->|Hin]; [|by apply IH].
    assert (is_Some (scanned (scanFolder dir st f) !! name parsed)) as [m Hm].
    { unfold scanFolder. rewrite Hdir, Hparsed, Hcomplete. simpl.
      destruct (scanned st !! name parsed) eqn:Hname; [by rewrite Hname|].
      repeat case_match; simpl; by rewrite lookup_insert_eq. }
    exists m. by apply scan_keeps.
Qed.

(** The scan passes over a directory whose plugins are all in the map. *)
Lemma scan_skips (dir : string) (folders : list plugin_folder) (st : scan_state) :
  (∀ folder parsed,
     folder ∈ folders → is_directory folder = true →
     manifest_json folder = Some parsed → incomplete parsed = false →
     is_Some (scanned st !! name parsed)) →
  foldl (scanFolder dir) st folders = st.
Proof.
  induction folders as [|folder folders IH]; intros Hknown; simpl; [done|].
  assert (scanFolder dir st folder = st) as ->.
  { unfold scanFolder.
    destruct (is_directory folder) eqn:Hdir; simpl; [|done].
    destruct (manifest_json folder) as [parsed|] eqn:Hparsed; [|done].
    destruct (incomplete parsed) eqn:Hcomplete; [done|].
    destruct (Hknown folder parsed) as [m ->]; try done. apply list_elem_of_here. }
  apply IH. intros f parsed Hin. apply Hknown. by apply list_elem_of_further.
Qed.

Lemma loadPlugins_lookup (fs : file_system) (pm : PluginManager)
    (key : string) (m : manifest) :
  plugins (loadPlugins fs pm).1 !! key = Some m →
  (plugins pm !! key = Some m ∧ isDistributed m = false)
  ∨ ∃ folders folder parsed,
      pluginFolders fs = Some folders ∧ folder ∈ folders
      ∧ is_directory folder = true ∧ manifest_json folder = Some parsed
      ∧ incomplete parsed = false ∧ name parsed = key
      ∧ m = located (PLUGIN_DIR fs) folder parsed.
Proof.
  rewrite loadPlugins_plugins.
  destruct (pluginFolders fs) as [folders|].
  - intros [Hm|(_ & folder & parsed & Hin & Hdir & Hparsed & Hc & Hn & ->)]%scan_lookup.
    + left. by apply resetForReload_lookup.
    + right. exists folders, folder, parsed. by split_and!.
  - intros Hm. left. by apply resetForReload_lookup.
Qed.

Lemma loadPlugins_covers (fs : file_system) (pm : PluginManager)
    (folders : list plugin_folder) (folder : plugin_folder) (parsed : manifest) :
  pluginFolders fs = Some folders → folder ∈ folders →
  is_directory folder = true → manifest_json folder = Some parsed →
  incomplete parsed = false →
  is_Some (plugins (loadPlugins fs pm).1 !! name parsed).
Proof.
  intros Hfolders Hin Hdir Hparsed Hcomplete.
  rewrite loadPlugins_plugins, Hfolders. unfold scanAll.
  by apply (scan_covers _ _ _ folder).
Qed.

(** The manifest map after a load.  An entry that is not distributed stays
    as it is, whatever the directory holds; every other entry of the map
    afterwards is the manifest of a directory entry, complete, stored under
    its name with the folder as its base path and the folder's config.env as
    its own configuration; and every complete manifest of the directory has
    its name in the map afterwards. *)
Theorem loadPlugins_entries (fs : file_system) (pm : PluginManager) :
  (∀ key m,
     plugins pm !! key = Some m → isDistributed m = false →
     plugins (loadPlugins fs pm).1 !! key = Some m)
  ∧ (∀ key m,
       plugins (loadPlugins fs pm).1 !! key = Some m →
       (plugins pm !! key = Some m ∧ isDistributed m = false)
       ∨ ∃ folders folder parsed,
           pluginFolders fs = Some folders ∧ folder ∈ folders
           ∧ is_directory folder = true ∧ manifest_json folder = Some parsed
           ∧ incomplete parsed = false ∧ name parsed = key
           ∧ m = located (PLUGIN_DIR fs) folder parsed
           ∧ basePath m = Some (PLUGIN_DIR fs ++ "/" ++ folder_name folder)
           ∧ pluginSpecificEnvConfig m = default ∅ (config_env folder))
  ∧ (∀ folders folder parsed,
       pluginFolders fs = Some folders → folder ∈ folders →
       is_directory folder = true → manifest_json folder = Some parsed →
       incomplete parsed = false →
       is_Some (plugins (loadPlugins fs pm).1 !! name parsed)).
Proof.
  split_and!.
  - intros key m. apply loadPlugins_keeps_local.
  - intros key m [Hm|(folders & folder & parsed & H)]%loadPlugins_lookup;
      [by left|].
    right. exists folders, folder, parsed.
    destruct H as (? & ? & ? & ? & ? & ? & ->). by split_and!.
  - intros folders folder parsed. apply loadPlugins_covers.
Qed.

Lemma reconcileOrder_nil (file : order_file) : reconcileOrder file [] = [].
Proof.
  destruct (reconcileOrder file []) as [|n order] eqn:Horder; [done|].
  assert (n ∈ reconcileOrder file []) as Hin by (rewrite Horder; apply list_elem_of_here).
  apply reconcileOrder_elem in Hin. by apply elem_of_nil in Hin.
Qed.

(** Loading the same directory a second time registers no module: when the
    manifests of the directory are not distributed, the second load finds
    every plugin in the map, skips it, and ends with the manifest map of the
    first load, no message preprocessor, no service module and an empty
    order, whatever the first load had registered. *)
Theorem second_load_registers_nothing (fs fs' : file_system) (pm : PluginManager)
    (folders : list plugin_folder) :
  pluginFolders fs = Some folders → pluginFolders fs' = Some folders →
  (∀ folder parsed, folder ∈ folders → manifest_json folder = Some parsed →
                    isDistributed parsed = false) →
  let first := (loadPlugins fs pm).1 in
  let second := (loadPlugins fs' first).1 in
  plugins second = plugins first
  ∧ messagePreprocessors second = ∅
  ∧ serviceModules second = ∅
  ∧ preprocessorOrder second = [].
Proof.
  intros Hfolders Hfolders' Hlocal first second.
  assert (plugins (resetForReload first) = plugins first) as Hkept.
  { unfold resetForReload; simpl. apply map_filter_id.
    intros key m Hm. simpl. subst first.
    apply loadPlugins_lookup in Hm
      as [[_ Hm]|(fs0 & folder & parsed & Hfs0 & Hin & _ & Hparsed & _ & _ & ->)];
      [done|].
    simpl. rewrite Hfolders in Hfs0. injection Hfs0 as <-.
    by apply (Hlocal folder parsed). }
  assert (scanAll (PLUGIN_DIR fs') (resetForReload first) folders
          = {| scanned := plugins first; discoveredPreprocessors := [];
               services := ∅ |}) as Hscan.
  { unfold scanAll. rewrite Hkept. apply scan_skips. simpl.
    intros folder parsed Hin Hdir Hparsed Hcomplete. subst first.
    by apply (loadPlugins_covers fs pm folders folder). }
  subst second. unfold loadPlugins. rewrite Hfolders'.
  cbv zeta. rewrite Hscan. simpl. by rewrite reconcileOrder_nil.
Qed.

(** ** Calling the preprocessors *)

Lemma loadPlugins_module (fs : file_system) (pm : PluginManager)
    (folders : list plugin_folder) (n : string) :
  pluginFolders fs = Some folders →
  (n ∈ preprocessorOrder (loadPlugins fs pm).1 →
   ∃ md m, messagePreprocessors (loadPlugins fs pm).1 !! n = Some md
           ∧ has_processMessages md = true
           ∧ plugins (loadPlugins fs pm).1 !! n = Some m)
  ∧ (n ∉ preprocessorOrder (loadPlugins fs pm).1 →
     messagePreprocessors (loadPlugins fs pm).1 !! n = None).
Proof.
  intros Hfolders. unfold loadPlugins. rewrite Hfolders. simpl.
  destruct (scanAll_invariant (PLUGIN_DIR fs) pm folders) as (_ & Hpre & _).
  rewrite registerPreprocessors_lookup. split.
  - intros Hin. rewrite decide_True by done.
    apply reconcileOrder_elem, alist_get_is_Some in Hin as [md Hmd].
    destruct (Hpre n md (alist_get_Some _ _ _ Hmd)) as (Hpm & m & Hm & _).
    by exists md, m.
  - intros Hout. by rewrite decide_False.
Qed.


(** ** The environment of a child *)

Lemma lookup_insert_if (b : bool) (k v key : string) (m : gmap string string) :
  key ≠ k → (if b then <[k := v]> m else m) !! key = m !! key.
Proof. intros Hne. destruct b; [|done]. by rewrite lookup_insert_ne. Qed.

Lemma additionalEnv_other (globalEnv : gmap string string) (pm : PluginManager)
    (projectBasePath : option string) (plugin : manifest) (pluginName : string)
    (requestIp : option string) (key : string) :
  key ∉ reservedNames →
  additionalEnv globalEnv pm projectBasePath plugin pluginName requestIp !! key
  = None.
Proof.
  unfold reservedNames. rewrite !not_elem_of_cons. intros (?&?&?&?&?&?&?&_).
  unfold additionalEnv. cbv zeta.
  rewrite lookup_insert_ne by congruence.
  assert (∀ m : gmap string string,
            m !! key = None →
            match getResolvedPluginConfigValue globalEnv pm "ImageServer" "Image_Key" with
            | Some imageServerKey =>
                if configTruthy imageServerKey
                then <["IMAGESERVER_IMAGE_KEY" :=
                         default EmptyString (envText imageServerKey)]> m
                else m
            | None => m
            end !! key = None) as Himage.
  { intros m Hm. destruct (getResolvedPluginConfigValue _ _ _ _); [|done].
    by rewrite lookup_insert_if. }
  destruct (bool_decide (pluginType plugin = "asynchronous"));
    rewrite ?(lookup_insert_ne _ "PLUGIN_NAME_FOR_CALLBACK") by congruence;
    rewrite ?(lookup_insert_if _ "CALLBACK_BASE_URL") by done;
    apply Himage; rewrite !lookup_insert_if by done;
    (destruct (truthyText projectBasePath);
     [by rewrite lookup_singleton_ne | done]).
Qed.

Lemma finalEnv_other (globalEnv : gmap string string) (pm : PluginManager)
    (projectBasePath : option string) (plugin : manifest) (pluginName : string)
    (requestIp : option string) (key : string) :
  key ∉ reservedNames →
  finalEnv globalEnv pm projectBasePath plugin pluginName requestIp !! key
  = match _getPluginConfig globalEnv plugin !! key ≫= envText with
    | Some text => Some text
    | None => globalEnv !! key
    end.
Proof.
  intros Hkey. unfold finalEnv, envForProcess.
  rewrite lookup_union, additionalEnv_other by done.
  rewrite lookup_union, lookup_omap.
  destruct (_getPluginConfig globalEnv plugin !! key ≫= envText); simpl.
  - by destruct (globalEnv !! key).
  - by destruct (globalEnv !! key).
Qed.

(** The environment of a child.  PYTHONIOENCODING is always utf-8 and the
    address of the request, when there is one, is in VCP_REQUEST_IP; these
    and the other names the manager sets itself cannot be overridden.  Under
    every other name the child sees the effective configuration of the plugin
    as text, and the environment of the server where the configuration
    defines nothing: a declared boolean is the word true or false, whatever
    the case of the raw text; a declared integer whose raw text does not
    parse leaves the value of the server's environment in place, and one
    that parses arrives as [String] prints the Number; and DebugMode is
    always set, to the word true or false. *)
Theorem child_environment (globalEnv : gmap string string) (pm : PluginManager)
    (projectBasePath : option string) (plugin : manifest) (pluginName : string)
    (requestIp : option string) :
  let env := finalEnv globalEnv pm projectBasePath plugin pluginName requestIp in
  env !! "PYTHONIOENCODING" = Some "utf-8"
  ∧ (truthyText requestIp = true → env !! "VCP_REQUEST_IP" = requestIp)
  ∧ (∀ key, key ∉ reservedNames →
       env !! key
       = match _getPluginConfig globalEnv plugin !! key ≫= envText with
         | Some text => Some text
         | None => globalEnv !! key
         end)
  ∧ (∀ key raw,
       key ∉ reservedNames → key ≠ "DebugMode" →
       configSchema plugin !! key = Some "boolean" →
       rawValue (pluginSpecificEnvConfig plugin) globalEnv key = Some raw →
       env !! key = Some (if isTrue raw then "true" else "false"))
  ∧ (∀ key raw,
       key ∉ reservedNames → key ≠ "DebugMode" →
       configSchema plugin !! key = Some "integer" →
       rawValue (pluginSpecificEnvConfig plugin) globalEnv key = Some raw →
       Js.parseInt raw = None →
       env !! key = globalEnv !! key)
  ∧ (∀ key raw n,
       key ∉ reservedNames → key ≠ "DebugMode" →
       configSchema plugin !! key = Some "integer" →
       rawValue (pluginSpecificEnvConfig plugin) globalEnv key = Some raw →
       Js.parseInt raw = Some n →
       env !! key = Some (Js.numberText n))
  ∧ (env !! "DebugMode" = Some "true" ∨ env !! "DebugMode" = Some "false").
Proof.
  intros env. subst env. split_and!.
  - unfold finalEnv. rewrite lookup_union. unfold additionalEnv.
    by rewrite lookup_insert_eq, union_Some_l.
  - intros Hip. unfold finalEnv. rewrite lookup_union.
    assert (additionalEnv globalEnv pm projectBasePath plugin pluginName requestIp
              !! "VCP_REQUEST_IP" = requestIp) as ->.
    { unfold additionalEnv. cbv zeta. rewrite Hip.
      rewrite lookup_insert_ne by done.
      assert (∀ m : gmap string string,
                match getResolvedPluginConfigValue globalEnv pm "ImageServer"
                        "Image_Key" with
                | Some imageServerKey =>
                    if configTruthy imageServerKey
                    then <["IMAGESERVER_IMAGE_KEY" :=
                             default EmptyString (envText imageServerKey)]> m
                    else m
                | None => m
                end !! "VCP_REQUEST_IP" = m !! "VCP_REQUEST_IP") as Himage.
      { intros m. destruct (getResolvedPluginConfigValue _ _ _ _); [|done].
        by rewrite lookup_insert_if. }
      destruct (bool_decide (pluginType plugin = "asynchronous"));
        rewrite ?(lookup_insert_ne _ "PLUGIN_NAME_FOR_CALLBACK") by done;
        rewrite ?(lookup_insert_if _ "CALLBACK_BASE_URL") by done;
        rewrite Himage, lookup_insert_if by done;
        rewrite lookup_insert_eq; by destruct requestIp. }
    destruct requestIp; [by rewrite union_Some_l | done].
  - intros key. apply finalEnv_other.
  - intros key raw Hkey Hdebug Hschema Hraw. rewrite finalEnv_other by done.
    rewrite getPluginConfig_other_key, Hschema by done. simpl. rewrite Hraw.
    simpl. unfold coerce. simpl. by destruct (isTrue raw).
  - intros key raw Hkey Hdebug Hschema Hraw Hnan. rewrite finalEnv_other by done.
    rewrite getPluginConfig_other_key, Hschema by done. simpl. rewrite Hraw.
    simpl. unfold coerce. simpl. by rewrite Hnan.
  - intros key raw n Hkey Hdebug Hschema Hraw Hn. rewrite finalEnv_other by done.
    rewrite getPluginConfig_other_key, Hschema by done. simpl. rewrite Hraw.
    simpl. unfold coerce. simpl. by rewrite Hn.
  - rewrite finalEnv_other by (unfold reservedNames; set_solver).
    rewrite getPluginConfig_DebugMode. simpl.
    destruct (rawValue _ _ _) as [raw|]; [|by right].
    destruct (isTrue raw); [by left | by right].
Qed.

(** ** The shape of what the dispatcher returns and throws *)

Lemma setProperty_stamped (k : string) (v o : json) :
  stamped o → stamped (setProperty k v o).
Proof.
  destruct o as [| | | |items|fields]; simpl; try done.
  intros [t Ht]. destruct (decide ("timestamp" = k)) as [<-|Hne].
  - rewrite obj_get_set. by eexists.
  - rewrite obj_get_set_other by done. by eexists.
Qed.

Lemma setProperty_timestamp (v o : json) :
  match o with JObj _ | JArr _ => True | _ => False end →
  stamped (setProperty "timestamp" v o).
Proof.
  destruct o as [| | | |items|fields]; simpl; try done.
  intros _. rewrite obj_get_set. by eexists.
Qed.

Lemma finalResult_stamped (maid : option json) (stamp : string)
    (resultFromPlugin : option json) :
  stamped (finalResult maid stamp resultFromPlugin).
Proof.
  unfold finalResult. apply setProperty_timestamp.
  destruct maid as [m|];
    destruct resultFromPlugin as [[| | | |items|fields]|]; done.
Qed.

Lemma normalizedError_stamped (maid : option json) (stamp : string) (e : thrown) :
  normalizedError maid stamp e = typeError
  ∨ ∃ errorObject,
      normalizedError maid stamp e = ErrorJson errorObject ∧ stamped errorObject.
Proof.
  unfold normalizedError.
  set (errorObject := match e with
                      | ErrorJson o => o
                      | ErrorText message => _
                      end).
  assert (∀ o, match o with JObj _ | JArr _ => True | _ => False end →
               stamped (if Json.truthy_opt (Json.field "timestamp" o) then o
                        else setProperty "timestamp" (JStr stamp) o)) as Hstamp.
  { intros o Ho. destruct (Json.truthy_opt (Json.field "timestamp" o)) eqn:Ht;
      [|by apply setProperty_timestamp].
    destruct o as [| | | |items|fields]; simpl in *; try done.
    destruct (Json.obj_get "timestamp" fields); [by eexists | done]. }
  destruct errorObject as [| | | |items|fields] eqn:Hobj; try by left.
  - right. eexists. split; [reflexivity|]. apply Hstamp.
    destruct maid as [m|]; [|done]. by destruct (Json.truthy_opt _).
  - right. eexists. split; [reflexivity|]. apply Hstamp.
    destruct maid as [m|]; [|done]. by destruct (Json.truthy_opt _).
Qed.

(** Every answer of a dispatch to a known tool is stamped: a value that the
    call returns is an object with a [timestamp] (or an array), also when it
    is the value of a retry; an error that it throws is the JSON of an object
    with a [timestamp] (or of an array), or the type error that reading a
    property of an error text that is JSON but no object raises. *)
Theorem processToolCall_stamps (w : world) (pm : PluginManager) (fuel : nat)
    (toolName : string) (plugin : manifest) (toolArgs : list (string * json))
    (requestIp : option string) (st st' : dispatcher) (r : call_result) :
  plugins pm !! toolName = Some plugin →
  processToolCall w pm fuel toolName toolArgs requestIp st = Some (r, st') →
  match r with
  | Returns v => stamped v
  | Throws e => e = typeError ∨ ∃ errorObject, e = ErrorJson errorObject
                                               ∧ stamped errorObject
  | Hangs => True
  end.
Proof.
  intros Hplugin. revert toolArgs st st' r.
  induction fuel as [|fuel IH]; intros toolArgs st st' r; [done|].
  simpl. rewrite Hplugin.
  match goal with
  | |- match ?t with _ => _ end = _ → _ =>
      destruct t as [[[resultFromPlugin|e|v|] st1]|] eqn:Htried
  end; intros [= <- <-]; try done.
  - apply finalResult_stamped.
  - destruct (normalizedError_stamped (maidNameOf toolArgs)
                (localTimestamp w (ticks st1)) e) as [->|(o & -> & Ho)];
      [by left | right; by exists o].
  - unfold awaited in Htried.
    repeat case_match; simplify_eq/=;
    match goal with
    | H : processToolCall _ _ _ _ _ _ _ = Some (Returns _, _) |- _ =>
        by apply IH in H
    end.
Qed.

(** ** The client of the group chat and its agents *)

(** What [sendRequest] returns for a response that is a JSON object: the
    content of [choices.message] only when [choices] is itself an object with
    a [message]; in every other case, and so whenever [choices] is an array
    (the form of a chat completion), the whole response object. *)
Theorem sendRequest_returns_whole_response
    (fetch : Client.http_request → Client.fetch_reply) (client : Client.VCPClient)
    (messages : json) (model : string) (response : Client.http_response)
    (fields : list (string * json)) :
  fetch (Client.requestOf client messages model false)
  = Client.FetchResponds response →
  Client.ok response = true →
  Json.parse (Client.responseBody response) = Some (JObj fields) →
  Client.sendRequest fetch client messages model false
  = match Json.obj_get "choices" fields with
    | Some (JObj choices) =>
        match Json.obj_get "message" choices with
        | Some message =>
            if Json.truthy message
            then Client.Replies (Json.field "content" message)
            else Client.Replies (Some (JObj fields))
        | None => Client.Replies (Some (JObj fields))
        end
    | _ => Client.Replies (Some (JObj fields))
    end.
Proof.
  intros Hfetch Hok Hparse. unfold Client.sendRequest.
  rewrite Hfetch, Hok, Hparse. simpl. unfold Client.property. simpl.
  destruct (Json.obj_get "choices" fields) as [[| | | |items|choices]|]; simpl;
    try done; by repeat case_match.
Qed.

(** What an agent makes of the response.  An agent that is no orchestrator
    calls [trim] on whatever the client returned: when the server answers
    with a JSON object whose [choices] is an array or is missing, the client
    returns that object and the decision fails with a type error; when the
    client fails, the decision is the text of the error, and nothing is
    thrown.  An orchestrator returns the object as it is. *)
Theorem decide_on_chat_completion
    (fetch : Client.http_request → Client.fetch_reply)
    (agent : Agent.AgentController) (instruction : string) :
  (∀ response fields,
     fetch (requestFor agent instruction) = Client.FetchResponds response →
     Client.ok response = true →
     Json.parse (Client.responseBody response) = Some (JObj fields) →
     match Json.obj_get "choices" fields with
     | Some (JArr _) | None => True
     | _ => False
     end →
     Agent.decide fetch agent instruction
     = if Agent.isOrchestratorController agent
       then Client.Replies (Some (JObj fields))
       else Client.Fails typeError)
  ∧ (∀ e,
       Client.sendRequest fetch (Agent.vcpClient agent)
         (JArr [JObj [("role", JStr "user"); ("content", JStr instruction)]])
         (if Agent.isOrchestratorController agent then "OrchestratorLLM"
          else Agent.agentName agent) false
       = Client.Fails e →
       Agent.decide fetch agent instruction
       = Client.Replies
           (Some (JStr ("(Error: Could not get a response from the language model: "
                          ++ messageOf e ++ ")")))).
Proof.
  split.
  - intros response fields Hfetch Hok Hparse Hchoices.
    unfold Agent.decide, Agent._getLLMResponse, Client.sendRequest.
    unfold requestFor in Hfetch. rewrite Hfetch, Hok, Hparse. simpl.
    unfold Client.property. simpl.
    destruct (Json.obj_get "choices" fields) as [[| | | |items|choices]|];
      simpl; try done; by destruct (Agent.isOrchestratorController agent).
  - intros e Hfails. unfold Agent.decide, Agent._getLLMResponse.
    rewrite Hfails.
    (* the text starts with "(", so that it is not the word "pass" *)
    by destruct (Agent.isOrchestratorController agent).
Qed.

(** ** JSON values *)

(** A number is the double that its text denotes, and is written as
    [String] prints the double ([null] for an infinity); a surrogate pair
    written as two escapes is one character. *)
Example numbers_and_escapes :
  (Json.stringify
     <$> Json.parse "[1.0, 1e2, -0, 0.10, 1E-7, 12345678901234567890, 1e999]")
  = Some "[1,100,0,0.1,1e-7,12345678901234567000,null]"
  ∧ Json.parse (Js.lit "'" ++ String "092" "ud83d" ++ String "092" "ude00"
                  ++ Js.lit "'")
    = Some (JStr "😀")
  ∧ Json.parse "01" = None.
Proof. split_and!; vm_compute; reflexivity. Qed.

(** ** The order file *)

Lemma append_String (c : ascii) (s t : string) : String c s ++ t = String c (s ++ t).
Proof. reflexivity. Qed.

Lemma append_Empty (t : string) : EmptyString ++ t = t.
Proof. reflexivity. Qed.

Lemma escape_cons (c : ascii) (s : string) :
  Json.escape (String c s)
  = (if Ascii.eqb c "034" then String "\" (String "034" EmptyString)
     else if Ascii.eqb c "\" then String "\" (String "\" EmptyString)
     else if Ascii.eqb c "008" then "\b"
     else if Ascii.eqb c "009" then "\t"
     else if Ascii.eqb c "010" then "\n"
     else if Ascii.eqb c "012" then "\f"
     else if Ascii.eqb c "013" then "\r"
     else if (nat_of_ascii c <? 32)%nat then
       "\u00" ++ String (Json.hexdigit (nat_of_ascii c / 16))
                   (String (Json.hexdigit (nat_of_ascii c mod 16)) EmptyString)
     else String c EmptyString) ++ Json.escape s.
Proof. reflexivity. Qed.

(** Reading a quoted text back gives the text. *)
Lemma parse_chars_escape (s rest : string) :
  Json.parse_chars (Json.escape s ++ String "034" rest) = Some (s, rest).
Proof.
  induction s as [|c s IH]; [done|].
  rewrite escape_cons, append_assoc.
  destruct c as [[] [] [] [] [] [] [] []];
    cbv -[Json.escape String.append Json.parse_chars];
    rewrite ?append_assoc, ?append_String, ?append_Empty;
    simpl; rewrite IH; reflexivity.
Qed.

Lemma join_names_tail (n : string) (names : list string) :
  Json.join ("," ++ String "010" "  ") (map Json.quote (n :: names))
    ++ String "010" "]"
  = Json.quote n ++ namesTail names.
Proof.
  revert n. induction names as [|m names IH]; intros n; [done|].
  change (map Json.quote (n :: m :: names))
    with (Json.quote n :: map Json.quote (m :: names)).
  cbn [Json.join namesTail]. cbn [map] in IH |- *.
  rewrite !append_assoc. by rewrite IH.
Qed.

Lemma stringify_names_cons (n : string) (names : list string) :
  Json.stringify_names (n :: names)
  = "[" ++ String "010" "  " ++ Json.quote n ++ namesTail names.
Proof.
  unfold Json.stringify_names. by rewrite join_names_tail.
Qed.

Lemma parse_value_name (fuel : nat) (n rest : string) :
  Json.parse_value (S fuel) (String "010" "  " ++ Json.quote n ++ rest)
  = Some (JStr n, rest).
Proof.
  unfold Json.quote. rewrite !append_String, append_assoc, append_String, append_Empty.
  simpl. by rewrite parse_chars_escape.
Qed.

Lemma parse_elements_S (fuel : nat) (s : string) (acc : list json) :
  Json.parse_elements (S fuel) s acc
  = match Json.parse_value fuel s with
    | Some (v, r) =>
        match Json.skip_ws r with
        | String "," r' => Json.parse_elements fuel r' (acc ++ [v])
        | String "]" r' => Some (JArr (acc ++ [v]), r')
        | _ => None
        end%char
    | None => None
    end.
Proof. reflexivity. Qed.

Lemma parse_elements_names (names : list string) (n : string) (acc : list json)
    (fuel : nat) :
  (length names + 2 ≤ fuel)%nat →
  Json.parse_elements fuel (String "010" "  " ++ Json.quote n ++ namesTail names) acc
  = Some (JArr (acc ++ map JStr (n :: names)), EmptyString).
Proof.
  revert n acc fuel. induction names as [|m names IH]; intros n acc fuel Hfuel.
  - destruct fuel as [|[|fuel]]; [simpl in Hfuel; lia..|].
    rewrite parse_elements_S, parse_value_name. done.
  - destruct fuel as [|[|fuel]]; [simpl in Hfuel; lia..|].
    rewrite parse_elements_S, parse_value_name.
    change (namesTail (m :: names))
      with (String "," (String "010" "  " ++ Json.quote m ++ namesTail names)).
    cbn [Json.skip_ws Json.is_ws]. simpl in Hfuel.
    rewrite IH by lia. by rewrite <- app_assoc.
Qed.

Lemma length_append (s t : string) :
  String.length (s ++ t) = (String.length s + String.length t)%nat.
Proof.
  induction s as [|c s IH]; [done|].
  rewrite append_String. simpl. by rewrite IH.
Qed.

Lemma length_namesTail (names : list string) :
  (length names ≤ String.length (namesTail names))%nat.
Proof.
  induction names as [|n names IH]; simpl; [lia|].
  rewrite length_append. lia.
Qed.

(** The order file is read back as it was written: the names that
    [JSON.parse] finds in the text that [JSON.stringify] made of a list of
    names are the names of the list, in their order, whatever characters the
    names hold. *)
Lemma savedOrder_stringify_names (names : list string) :
  savedOrder (OrderContent (Json.stringify_names names)) = names.
Proof.
  destruct names as [|n names]; [done|].
  unfold savedOrder, Json.parse. rewrite stringify_names_cons.
  rewrite append_String, append_Empty.
  assert (Json.parse_value
            (S (S (String.length
                     (String "[" (String "010" "  " ++ Json.quote n ++ namesTail names)))))
            (String "[" (String "010" "  " ++ Json.quote n ++ namesTail names))
          = Some (JArr (map JStr (n :: names)), EmptyString)) as ->.
  { cbn [Json.parse_value Json.skip_ws Json.is_ws]. rewrite append_String.
    cbn [Json.skip_ws Json.is_ws].
    rewrite <- append_String.
    rewrite parse_elements_names; [done|].
    pose proof (length_namesTail names) as Hlen.
    cbn [String.length]. rewrite !length_append. lia. }
  simpl. f_equal. induction names as [|m names IH]; [done|].
  simpl. by rewrite IH.
Qed.

Lemma filter_all (P : string → Prop) `{!∀ x, Decision (P x)} (l : list string) :
  (∀ x, x ∈ l → P x) → filter P l = l.
Proof.
  induction l as [|x l IH]; intros Hall; [done|].
  rewrite filter_cons_True by apply Hall, list_elem_of_here.
  f_equal. apply IH. intros y Hy. by apply Hall, list_elem_of_further.
Qed.

Lemma filter_none (P : string → Prop) `{!∀ x, Decision (P x)} (l : list string) :
  (∀ x, x ∈ l → ¬ P x) → filter P l = [].
Proof.
  induction l as [|x l IH]; intros Hnone; [done|].
  rewrite filter_cons_False by apply Hnone, list_elem_of_here.
  apply IH. intros y Hy. by apply Hnone, list_elem_of_further.
Qed.

Lemma firsts_NoDup (names : list string) : NoDup names → firsts names = names.
Proof.
  induction 1 as [|n names Hn _ IH]; [done|]. simpl. rewrite IH. f_equal.
  apply filter_all. by intros x Hx ->.
Qed.

Lemma reconcileOrder_fixed (order discovered : list string) :
  NoDup order → (∀ n, n ∈ order ↔ n ∈ discovered) →
  (keptNames order discovered ++ newNames order discovered)%list = order.
Proof.
  intros Hnodup Hsame. unfold keptNames, newNames.
  rewrite filter_all by (intros n; apply Hsame).
  rewrite filter_none by (intros n Hn Hout; by apply Hout, Hsame).
  rewrite firsts_NoDup by done. apply app_nil_r.
Qed.

(** The order file is stable.  The names read from the text that
    [JSON.stringify] makes of a list of names are the names of the list, in
    their order, whatever characters they hold; and the file that a load
    leaves reproduces the load: with that file in place, a load of the same
    directory from the same state of the manager (a restart, from the state
    the constructor leaves) gives the same manager and leaves the file as it
    is. *)
Theorem order_file_is_stable :
  (∀ names, savedOrder (OrderContent (Json.stringify_names names)) = names)
  ∧ (∀ fs pm,
       loadPlugins (withOrderFile (loadPlugins fs pm).2 fs) pm = loadPlugins fs pm).
Proof.
  split; [apply savedOrder_stringify_names|].
  intros fs pm. unfold loadPlugins at 1 3. simpl.
  destruct (pluginFolders fs) as [folders|] eqn:Hfolders.
  - destruct (scanAll_invariant (PLUGIN_DIR fs) pm folders) as (Hnodup & _ & _).
    set (st := scanAll (PLUGIN_DIR fs) (resetForReload pm) folders) in *.
    set (discovered := map fst (discoveredPreprocessors st)) in *.
    change (NoDup discovered) in Hnodup.
    assert ((loadPlugins fs pm).2
            = orderFileAfter fs (reconcileOrder (orderFile fs) discovered)) as ->.
    { unfold loadPlugins. by rewrite Hfolders. }
    assert (reconcileOrder
              (orderFileAfter fs (reconcileOrder (orderFile fs) discovered))
              discovered
            = reconcileOrder (orderFile fs) discovered) as Horder.
    { unfold orderFileAfter.
      destruct (orderFile fs) eqn:Hfile; try done.
      destruct (reconcileOrder OrderMissing discovered) as [|n order] eqn:Hfirst;
        [by rewrite Hfirst|].
      destruct (orderFileWritable fs); [|by rewrite Hfirst].
      rewrite reconcileOrder_spec, savedOrder_stringify_names.
      apply reconcileOrder_fixed.
      - rewrite <- Hfirst. by apply reconcileOrder_NoDup.
      - intros x. rewrite <- Hfirst. apply reconcileOrder_elem. }
    rewrite Horder. f_equal.
    unfold orderFileAfter, withOrderFile. simpl.
    destruct (orderFile fs); try done.
    destruct (reconcileOrder OrderMissing discovered); [done|].
    by destruct (orderFileWritable fs).
  - unfold loadPlugins. by rewrite Hfolders.
Qed.

(** ** The answer of a remote tool *)

(** A tool that a session registered is called at that session: the
    dispatcher hands the name and the arguments, as they are, to the server
    that announced the tool, and stamps the answer; it runs no child and
    fetches no file.  Without a WebSocket server the call throws. *)
Theorem remote_tool_is_called_at_its_session (w : world) (sid : string)
    (tools : list manifest) (pm : PluginManager) (fuel : nat)
    (toolName : string) (toolArgs : list (string * json))
    (requestIp : option string) (st : dispatcher) :
  plugins pm !! toolName = None →
  is_Some (plugins (registerDistributedTools sid tools pm) !! toolName) →
  processToolCall w (registerDistributedTools sid tools pm) (S fuel) toolName
    toolArgs requestIp st
  = if wsLinked w then
      match distributedTool w (ticks st) sid toolName toolArgs with
      | Settled (Resolve v) =>
          Some (Returns (finalResult (maidNameOf toolArgs)
                           (localTimestamp w (S (ticks st))) (Some v)),
                tick (tick st))
      | Settled (Reject message) =>
          Some (Throws (normalizedError (maidNameOf toolArgs)
                          (localTimestamp w (S (ticks st))) (ErrorText message)),
                tick (tick st))
      | Pending => Some (Hangs, tick st)
      end
    else
      Some (Throws (normalizedError (maidNameOf toolArgs)
                      (localTimestamp w (ticks st))
                      (ErrorText "[PluginManager] WebSocketServer is not initialized. Cannot call distributed tool.")),
            tick st).
Proof.
  intros Hfree [m Hm].
  destruct (register_fold_lookup sid tools (plugins pm) toolName m Hm)
    as [Hold|(_ & tool & _ & _ & _ & ->)]; [congruence|].
  change (foldl (registerTool sid) (plugins pm) tools)
    with (plugins (registerDistributedTools sid tools pm)) in Hm.
  generalize dependent (registerDistributedTools sid tools pm). intros pm' Hm.
  simpl. rewrite Hm. simpl.
  destruct (wsLinked w); simpl; [|done].
  by destruct (distributedTool w (ticks st) sid toolName toolArgs) as [|[v|message]].
Qed.

Lemma reload_of_loaded (fs fs' : file_system) (pm : PluginManager)
    (folders : list plugin_folder) :
  pluginFolders fs = Some folders → pluginFolders fs' = Some folders →
  (∀ folder parsed, folder ∈ folders → manifest_json folder = Some parsed →
                    isDistributed parsed = false) →
  plugins (loadPlugins fs' (loadPlugins fs pm).1).1 = plugins (loadPlugins fs pm).1
  ∧ messagePreprocessors (loadPlugins fs' (loadPlugins fs pm).1).1 = ∅
  ∧ serviceModules (loadPlugins fs' (loadPlugins fs pm).1).1 = ∅
  ∧ preprocessorOrder (loadPlugins fs' (loadPlugins fs pm).1).1 = [].
Proof.
  intros Hfolders Hfolders' Hlocal.
  set (first := (loadPlugins fs pm).1).
  assert (plugins (resetForReload first) = plugins first) as Hkept.
  { unfold resetForReload; simpl. apply map_filter_id.
    intros key m Hm. simpl. subst first.
    apply loadPlugins_lookup in Hm
      as [[_ Hm]|(fs0 & folder & parsed & Hfs0 & Hin & _ & Hparsed & _ & _ & ->)];
      [done|].
    simpl. rewrite Hfolders in Hfs0. injection Hfs0 as <-.
    by apply (Hlocal folder parsed). }
  assert (scanAll (PLUGIN_DIR fs') (resetForReload first) folders
          = {| scanned := plugins first; discoveredPreprocessors := [];
               services := ∅ |}) as Hscan.
  { unfold scanAll. rewrite Hkept. apply scan_skips. simpl.
    intros folder parsed Hin Hdir Hparsed Hcomplete. subst first.
    by apply (loadPlugins_covers fs pm folders folder). }
  unfold loadPlugins. rewrite Hfolders'.
  cbv zeta. rewrite Hscan. simpl. by rewrite reconcileOrder_nil.
Qed.

(** ** The order after a hot reload *)

(** What [hotReloadPluginsAndOrder] returns: one entry for each name of the
    order the load has set, in that order; when the load could list the
    directory, every entry shows the display name and the description of the
    manifest registered under its name (the fallback to the name is not
    used); and a hot reload of the directory that the manager has loaded
    before returns the empty list, when no manifest of the directory is
    marked distributed. *)
Theorem hot_reload_order (description : manifest → option string)
    (fs : file_system) (pm : PluginManager) :
  map Info.name (hotReloadPluginsAndOrder description fs pm).1.1
  = preprocessorOrder (loadPlugins fs pm).1
  ∧ (∀ folders info,
       pluginFolders fs = Some folders →
       info ∈ (hotReloadPluginsAndOrder description fs pm).1.1 →
       ∃ m, plugins (loadPlugins fs pm).1 !! Info.name info = Some m
            ∧ Info.displayName info = displayName m
            ∧ Info.description info = description m)
  ∧ (∀ fs' folders,
       pluginFolders fs = Some folders → pluginFolders fs' = Some folders →
       (∀ folder parsed, folder ∈ folders → manifest_json folder = Some parsed →
                         isDistributed parsed = false) →
       (hotReloadPluginsAndOrder description fs' (loadPlugins fs pm).1).1.1 = []).
Proof.
  unfold hotReloadPluginsAndOrder.
  split_and!.
  - destruct (loadPlugins fs pm) as [loaded file]. simpl.
    unfold getPreprocessorOrder. rewrite map_map.
    rewrite <- (map_id (preprocessorOrder loaded)) at 2.
    apply map_ext. intros n. by destruct (plugins loaded !! n).
  - intros folders info Hfolders.
    destruct (loadPlugins fs pm) as [loaded file] eqn:Hload. simpl.
    unfold getPreprocessorOrder.
    intros (n & <- & Hn%list_elem_of_In)%list_elem_of_In%in_map_iff.
    pose proof (proj1 (loadPlugins_module fs pm folders n Hfolders)) as Hmod.
    rewrite Hload in Hmod. simpl in Hmod.
    destruct (Hmod Hn) as (md & m & _ & _ & Hm).
    exists m. by rewrite Hm.
  - intros fs' folders Hfolders Hfolders' Hlocal.
    destruct (loadPlugins fs' (loadPlugins fs pm).1) as [loaded file] eqn:Hload.
    simpl. unfold getPreprocessorOrder.
    assert (preprocessorOrder loaded = []) as ->; [|done].
    change loaded with (loaded, file).1. rewrite <- Hload.
    by apply (reload_of_loaded fs fs' pm folders).
Qed.

(** ** An asynchronous plugin that sends no acknowledgement *)

Lemma onStdout_unacknowledged (data : string) (ex : execution) :
  processExited ex = false → initialResponseSent ex = false →
  acknowledges (outputBuffer ex ++ data) = false →
  onStdout true data ex
  = {| outputBuffer := outputBuffer ex ++ data; errorOutput := errorOutput ex;
       processExited := false; initialResponseSent := false;
       timerOff := timerOff ex; killed := killed ex;
       settlements := settlements ex |}.
Proof.
  intros Hexit Hsent Hack. unfold onStdout, acknowledges in *.
  rewrite Hexit, Hsent. simpl.
  destruct (potentialJsonMatch (outputBuffer ex ++ data)) as [js|]; [|done].
  destruct (Json.parse js) as [v|]; [|done]. by rewrite Hack.
Qed.

Lemma run_unacknowledged (pluginName : string) (written : list process_event)
    (ex : execution) :
  Forall (λ ev, isData ev = true) written →
  processExited ex = false → initialResponseSent ex = false →
  Forall (λ buffer, acknowledges buffer = false)
         (buffersSeen (outputBuffer ex) written) →
  run pluginName true written ex
  = {| outputBuffer := outputBuffer ex ++ stdoutOf written;
       errorOutput := errorOutput ex ++ stderrOf written;
       processExited := false; initialResponseSent := false;
       timerOff := timerOff ex; killed := killed ex;
       settlements := settlements ex |}.
Proof.
  intros Hdata. revert ex.
  induction Hdata as [|ev written Hev _ IH]; intros ex Hexit Hsent Hack; simpl.
  - rewrite !append_empty_r. destruct ex; simpl in *. by subst.
  - destruct ev as [data|data| | |]; try discriminate; simpl in *.
    + apply Forall_cons in Hack as [Hhere Hlater].
      rewrite onStdout_unacknowledged by done.
      rewrite IH by done. simpl. by rewrite append_assoc.
    + rewrite IH by done. simpl. by rewrite append_assoc.
Qed.

(** An asynchronous plugin whose output is never taken for an acknowledgement
    while it arrives is answered when its child exits (not killed), in the
    way of a synchronous plugin: from the whole standard output, trimmed.  So
    an acknowledgement that the stdout handler does not recognise is still
    delivered at the exit, provided the child has written nothing else. *)
Theorem async_without_ack_settles_at_exit (pluginName : string)
    (written : list process_event) (code : option Z) (signal : option string) :
  Forall (λ ev, isData ev = true) written → signal ≠ Some "SIGKILL" →
  Forall (λ buffer, acknowledges buffer = false) (buffersSeen EmptyString written) →
  let final := atExit (stdoutOf written) (stderrOf written) in
  promiseOf (run pluginName true (written ++ [ProcessExit code signal]) spawned)
  = Settled (match finalOutput final with
             | Some parsedOutput => Resolve (withStderr final parsedOutput)
             | None =>
                 if bool_decide (code = Some 0%Z)
                 then Reject (zeroExitMessage pluginName final)
                 else Reject (nonZeroExitMessage pluginName code final)
             end).
Proof.
  intros Hdata Hsignal Hack final.
  rewrite run_app, (run_unacknowledged pluginName written spawned) by done.
  change (spawned.(outputBuffer) ++ stdoutOf written) with (stdoutOf written).
  change (spawned.(errorOutput) ++ stderrOf written) with (stderrOf written).
  simpl. unfold onExit. simpl.
  rewrite bool_decide_eq_false_2 by done.
  unfold finalOutput, final, atExit. simpl.
  destruct (Json.parse (Js.trim (stdoutOf written))) as [v|]; simpl.
  - destruct (statusOk v); [done|]. by case_bool_decide.
  - by case_bool_decide.
Qed.

(** ** Instances *)

Lemma fetchFile_mime_not_empty_witness :
  (fetchFile (servedBy "/img/a.png" 1) "file:///img/a.png" (Some "10.0.0.7")
     noRequests).1
  = Fetched "iVBORw0KGgo=" "image/png"
  ∧ Js.truthy "image/png" = true.
Proof.
  split; [vm_compute; reflexivity|].
  eapply (fetchFile_mime_not_empty (servedBy "/img/a.png" 1) "file:///img/a.png"
            (Some "10.0.0.7") noRequests _ "iVBORw0KGgo=" "image/png").
  vm_compute. reflexivity.
Defined.

Lemma fetchFile_remembers_failure_witness :
  (fetchFile (servedBy "/img/a.png" 8) "file:///img/a.png" None
     (fetchFile (refusedBy "/img/a.png" 1) "file:///img/a.png" (Some "10.0.0.7")
        noRequests).2).1
  = FetchFails ("文件获取在短时间内已失败，为防止循环已中断。错误: "
                  ++ "从服务器 S1 获取文件失败: no such file").
Proof.
  pose proof (fetchFile_remembers_failure (refusedBy "/img/a.png" 1)
                (servedBy "/img/a.png" 8) "file:///img/a.png" (Some "10.0.0.7") None
                noRequests "/img/a.png" "/img/a.png" "S1"
                eq_refl eq_refl eq_refl eq_refl eq_refl eq_refl eq_refl eq_refl
                eq_refl eq_refl ltac:(discriminate) ltac:(vm_compute; discriminate)
                eq_refl eq_refl eq_refl ltac:(vm_compute; reflexivity)) as [_ H].
  cbv zeta in H. by rewrite H.
Defined.

Lemma executePlugin_settles_witness :
  ∃ s, executePlugin imageManager hangingChild "ImageTool" = Settled s.
Proof.
  apply (executePlugin_settles imageManager hangingChild "ImageTool").
  apply Exists_cons_tl, Exists_cons_hd. reflexivity.
Defined.

Lemma sync_failure_modes_witness :
  promiseOf (run "ImageTool" false (events hangingChild) spawned)
  = Settled (Reject (Js.lit "Plugin 'ImageTool' execution timed out.")).
Proof.
  apply (proj1 (proj2 (sync_failure_modes "ImageTool" [StdoutData "working"]
                         [ProcessExit None (Some "SIGKILL")]
                         ltac:(repeat constructor)))).
Defined.

Lemma stdin_error_rejects_witness :
  executePlugin imageManager closedInput "ImageTool"
  = Settled (Reject (Js.lit "Stdin write error for 'ImageTool': write EPIPE")).
Proof.
  apply (stdin_error_rejects imageManager closedInput "ImageTool" "write EPIPE"
           (located "Plugin" (toolFolder "ImageTool") (announced "ImageTool"))
           sampleEntry);
    reflexivity.
Defined.

Lemma register_unregister_round_trip_witness :
  plugins (unregisterAllDistributedTools "S1"
             (registerDistributedTools "S1" [announced "T1"; announced "T2"]
                (registerDistributedTools "S2" [announced "T3"] imageManager)))
  = plugins (registerDistributedTools "S2" [announced "T3"] imageManager).
Proof.
  apply (register_unregister_round_trip "S1" [announced "T1"; announced "T2"]
           (registerDistributedTools "S2" [announced "T3"] imageManager)).
  change (map_Forall (λ (_ : string) (m : manifest),
                        isDistributed m = true → serverId m = Some "S1" → False)
            (plugins (registerDistributedTools "S2" [announced "T3"] imageManager))).
  apply (bool_decide_unpack _). vm_compute. reflexivity.
Defined.

Lemma pushed_placeholder_is_served_witness :
  getPlaceholderValue
    (updateDistributedStaticPlaceholders "S1" "node-1"
       [("PH1", "v"); ("PH2", "w")] emptyPush) "PH2"
  = "w".
Proof.
  apply (proj1 (pushed_placeholder_is_served "S1" "node-1"
                  [("PH1", "v"); ("PH2", "w")] emptyPush
                  ltac:(apply (bool_decide_unpack _); vm_compute; reflexivity))
           "PH2" "w").
  - apply (bool_decide_unpack _). vm_compute. reflexivity.
  - reflexivity.
Defined.

Lemma loadPlugins_registers_order_witness :
  NoDup (preprocessorOrder (loadPlugins scenarioFour constructor).1).
Proof.
  apply (loadPlugins_registers_order scenarioFour constructor
           [preprocessorFolder "A"; preprocessorFolder "B"; preprocessorFolder "D"]
           eq_refl).
Defined.

Lemma second_load_registers_nothing_witness :
  preprocessorOrder
    (loadPlugins scenarioFour (loadPlugins scenarioFour constructor).1).1 = [].
Proof.
  apply (second_load_registers_nothing scenarioFour scenarioFour constructor
           [preprocessorFolder "A"; preprocessorFolder "B"; preprocessorFolder "D"]
           eq_refl eq_refl).
  intros folder parsed Hin Hparsed.
  repeat (apply elem_of_cons in Hin as [->|Hin];
          [injection Hparsed as <-; reflexivity|]).
  by apply elem_of_nil in Hin.
Defined.

Lemma processToolCall_stamps_witness :
  stamped (JObj [("original_plugin_output", JStr "two images described");
                 ("timestamp", JStr "2026-01-01T12:00:00.000+08:00")]).
Proof.
  eapply (processToolCall_stamps (surroundings imageTool) imageManager 5
            "ImageTool"
            (located "Plugin" (toolFolder "ImageTool") (announced "ImageTool"))
            twoImages (Some "10.0.0.7") idle _
            (Returns (JObj [("original_plugin_output", JStr "two images described");
                            ("timestamp", JStr "2026-01-01T12:00:00.000+08:00")]))).
  - reflexivity.
  - vm_compute. reflexivity.
Defined.

Lemma static_command_at_exit_witness :
  _executeStaticPluginCommand weatherReporter weatherChild
  = Some (StaticResolved "sunny, 21 C").
Proof.
  rewrite (static_command_at_exit weatherReporter weatherChild
             [StdoutData " sunny, 21 C"; StderrData "cache miss"; StdoutData newline]
             [StdoutData "late"] (Some 0%Z) None
             eq_refl ltac:(repeat constructor) ltac:(discriminate) eq_refl).
  vm_compute. reflexivity.
Defined.

Lemma static_command_killed_is_pending_witness :
  _executeStaticPluginCommand weatherReporter killedChild = None.
Proof.
  apply (static_command_killed_is_pending weatherReporter killedChild
           [StdoutData "sun"] [TimerFires] None
           eq_refl ltac:(repeat constructor)
           ltac:(repeat constructor; by right) eq_refl).
Defined.

Lemma static_refresh_publishes_output_witness :
  ∃ outcome,
    _executeStaticPluginCommand weatherReporter weatherChild = Some outcome
    ∧ getPlaceholderValue (_updateStaticPluginValue weatherReporter outcome emptyPush)
        "{{VCPWeatherInfo}}"
      = "sunny, 21 C".
Proof.
  destruct (static_refresh_publishes_output weatherReporter weatherChild
              [StdoutData " sunny, 21 C"; StderrData "cache miss"; StdoutData newline]
              [StdoutData "late"] None emptyPush
              eq_refl ltac:(repeat constructor) ltac:(discriminate) eq_refl
              ltac:(vm_compute; reflexivity)) as (outcome & Hrun & Hserved).
  exists outcome. split; [exact Hrun|].
  rewrite (Hserved "{{VCPWeatherInfo}}" ltac:(apply list_elem_of_here)).
  vm_compute. reflexivity.
Defined.

Lemma failed_first_refresh_keeps_loading_witness :
  ∃ p, staticPlaceholderValues
         (_updateStaticPluginValue weatherReporter (StaticRejected "spawn ENOENT")
            (initializeStaticPlugins [announced "T1"; weatherReporter] constructor))
         !! "{{VCPWeatherInfo}}"
       = Some (loadingText p).
Proof.
  destruct (failed_first_refresh_keeps_loading [announced "T1"; weatherReporter]
              constructor weatherReporter "{{VCPWeatherInfo}}"
              ltac:(apply list_elem_of_further, list_elem_of_here) eq_refl
              ltac:(apply list_elem_of_here))
    as (p & Hp & _ & _ & Hvalue & _ & Hkept).
  exists p. apply Hkept; [|exact I].
  apply elem_of_cons in Hp as [->|Hp]; [reflexivity|].
  apply list_elem_of_singleton in Hp as ->. reflexivity.
Defined.

Lemma sendRequest_returns_whole_response_witness :
  ∃ fields,
    Json.obj_get "id" fields = Some (JStr "c1")
    ∧ Client.sendRequest chatServer groupClient (JArr []) "Nova" false
      = Client.Replies (Some (JObj fields)).
Proof.
  eexists. split; [|
    rewrite (sendRequest_returns_whole_response chatServer groupClient (JArr [])
               "Nova" _ _ eq_refl eq_refl ltac:(vm_compute; reflexivity));
    vm_compute; reflexivity].
  reflexivity.
Defined.


Lemma async_without_ack_settles_at_exit_witness :
  promiseOf (run "Video" true
               ([StdoutData indentedAck] ++ [ProcessExit (Some 0%Z) None]) spawned)
  = Settled (Resolve (JObj [("status", JStr "success");
                            ("result", JObj [("taskId", JStr "t1")])])).
Proof.
  rewrite (async_without_ack_settles_at_exit "Video" [StdoutData indentedAck]
             (Some 0%Z) None ltac:(repeat constructor) ltac:(discriminate)
             ltac:(repeat constructor)).
  vm_compute. reflexivity.
Defined.

Lemma remote_tool_is_called_at_its_session_witness :
  processToolCall (surroundings imageTool)
    (registerDistributedTools "S1" [announced "T1"; announced "T2"] constructor)
    1 "T1" twoImages None idle
  = Some (Hangs, tick idle).
Proof.
  rewrite (remote_tool_is_called_at_its_session (surroundings imageTool) "S1"
             [announced "T1"; announced "T2"] constructor
             0 "T1" twoImages None idle).
  - reflexivity.
  - vm_compute. reflexivity.
  - eexists. vm_compute. reflexivity.
Defined.
